(** * 2TD-gema: procedural world generator

    A shallow embedding of the deterministic content pipeline of the
    generator (seeded random streams, biome classification, structure
    templates and placement, road graphs and their rasterization, object
    scatter, autotiling, chunk generation and the chunk cache), followed by
    the properties of the specification that are stated about it.

    Conventions of the embedding.
    - A JavaScript number that holds an integer (chunk and tile coordinates,
      seeds, masks, loop counters) is a [Z]; its arithmetic is exact below
      2^53, which is the range the program works in.  Every other number is
      an IEEE-754 binary64 value, Rocq's primitive [float].
    - [null] and [undefined] fields are [option]s.
    - A closure that owns mutable state (the random stream) is a function
      from the state to the result and the next state.
    - A JavaScript object used as a map keeps insertion order, which the
      [for ... in] loop of [generateChunk] observes: the structure registry
      is an association list.  The chunk table of the cache is only looked
      up, inserted into and filtered: it is a [gmap].
    - The keys [`${cx},${cy}`] are in one-to-one correspondence with the
      integer pairs they print; they are modelled by the pair [(cx, cy)]. *)

From Stdlib Require Import ZArith String Ascii List Floats Uint63 Lia.
From stdpp Require Import base option list gmap.
Import ListNotations.

Set Warnings "-inexact-float".
Local Open Scope string_scope.
Local Open Scope Z_scope.

(* ------------------------------------------------------------------ *)
(** ** JavaScript numbers                                               *)
(* ------------------------------------------------------------------ *)

Module JS.

(** [ToUint32] and [ToInt32] of an integer-valued number. *)
Definition toUint32 (z : Z) : Z := z mod 2 ^ 32.
Definition toInt32 (z : Z) : Z := (z + 2 ^ 31) mod 2 ^ 32 - 2 ^ 31.

(** [Math.imul], [^], [|] and [>>>] with their 32-bit conversions. *)
Definition imul (a b : Z) : Z := toInt32 (toInt32 a * toInt32 b).
Definition xor (a b : Z) : Z := toInt32 (Z.lxor (toInt32 a) (toInt32 b)).
Definition or (a b : Z) : Z := toInt32 (Z.lor (toInt32 a) (toInt32 b)).
Definition ushr (a k : Z) : Z := Z.shiftr (toUint32 a) (k mod 32).

(** The binary64 value of an integer (exact when [|z| <= 2^53]). *)
Definition of_Z (z : Z) : float :=
  match z with
  | Z0 => 0%float
  | Zpos _ => PrimFloat.of_uint63 (Uint63.of_Z z)
  | Zneg p => (- PrimFloat.of_uint63 (Uint63.of_Z (Zpos p)))%float
  end.

(** [Math.floor] of a finite number, as an integer.  On NaN and the
    infinities [Math.floor] returns its argument; the program only floors
    finite values, and the embedding returns [0] there. *)
Definition Math_floor (f : float) : Z :=
  match Prim2SF f with
  | S754_finite s m e =>
      let z := if s then Zneg m else Zpos m in
      if 0 <=? e then z * 2 ^ e else z / 2 ^ (- e)
  | _ => 0
  end.

Definition Math_PI : float := 0x1.921fb54442d18p+1%float.

(** Truthiness of a string, and of a string-or-null. *)
Definition truthy (s : string) : bool := negb (s =? "")%string.
Definition truthy_opt (s : option string) : bool :=
  match s with Some s => truthy s | None => false end.

(** [s[i]] appended to a string: a missing index reads [undefined], which
    [+=] prints. *)
Definition index_str (s : string) (i : nat) : string :=
  match String.get i s with
  | Some c => String c EmptyString
  | None => "undefined"
  end.

(** [a[i]] on an array, with an integer index. *)
Definition index {A} (l : list A) (i : Z) : option A :=
  if i <? 0 then None else l !! Z.to_nat i.

(** A loop over [l] whose body may throw or fail to return. *)
Fixpoint for_each {St A} (body : St -> A -> option St) (l : list A) (s : St)
  : option St :=
  match l with
  | [] => Some s
  | a :: l' =>
      match body s a with
      | Some s' => for_each body l' s'
      | None => None
      end
  end.

End JS.

(* ------------------------------------------------------------------ *)
(** ** seed.js                                                          *)
(* ------------------------------------------------------------------ *)

Module Seed.

(** The captured variable [a] of the closure returned by [mulberry32]: an
    integer.  [a += 0x6d2b79f5] is the addition of integers, which is what
    binary64 computes while [a] stays within 2^53, the range of the
    embedding. *)
Definition rng : Type := Z.

Definition mulberry32 (a : Z) : rng := a.

(** One call [rng()]: the number returned and the closure afterwards. *)
Definition next (a : rng) : float * rng :=
  let a := a + 0x6d2b79f5 in
  let t := a in
  let t := JS.imul (JS.xor t (JS.ushr t 15)) (JS.or t 1) in
  let t := JS.xor t (t + JS.imul (JS.xor t (JS.ushr t 7)) (JS.or t 61)) in
  ((JS.of_Z (JS.ushr (JS.xor t (JS.ushr t 14)) 0) / 4294967296)%float, a).

Definition createSeededRandom (seed : Z) : rng := mulberry32 seed.

Definition seededRandomInt (g : rng) (min max : Z) : Z * rng :=
  let '(r, g) := next g in
  (JS.Math_floor (r * JS.of_Z (max - min))%float + min, g).

Definition seededRandomAngle (g : rng) : float * rng :=
  let '(r, g) := next g in
  ((r * JS.Math_PI * 2)%float, g).

End Seed.

(* ------------------------------------------------------------------ *)
(** ** config.js                                                        *)
(* ------------------------------------------------------------------ *)

Module CONFIG.
Definition CHUNK_SIZE : Z := 32.
Definition WORLD_SEED : Z := 12345.
Definition STRUCTURE_SPACING : Z := 4.
Definition STRUCTURE_SPAWN_CHANCE_VILLAGE : float := 0.03%float.
Definition STRUCTURE_SPAWN_CHANCE_DUNGEON : float := 0.05%float.
Definition NOISE_SCALE : float := 0.05%float.
Definition TEMP_SCALE : float := 0.02%float.
Definition HUMIDITY_SCALE : float := 0.02%float.
Definition SCATTER_SCALE : float := 0.08%float.
Definition WATER_THRESHOLD : float := 0.3%float.
Definition SAND_THRESHOLD : float := 0.35%float.
Definition MOUNTAIN_THRESHOLD : float := 0.8%float.
Definition SNOW_THRESHOLD : float := 0.9%float.
Definition DESERT_TEMP : float := 0.7%float.
Definition DESERT_HUMIDITY : float := 0.4%float.
Definition SNOW_TEMP : float := 0.3%float.
Definition FOREST_HUMIDITY : float := 0.6%float.
Definition FOREST_TREE_DENSITY : float := 0.55%float.
Definition GRASS_TREE_DENSITY : float := 0.75%float.
Definition GRASS_ROCK_DENSITY_MIN : float := 0.65%float.
Definition GRASS_ROCK_DENSITY_MAX : float := 0.7%float.
Definition MOUNTAIN_ROCK_DENSITY : float := 0.6%float.
Definition RENDER_DISTANCE : Z := 3.
End CONFIG.

(* ------------------------------------------------------------------ *)
(** ** biome.js                                                         *)
(* ------------------------------------------------------------------ *)

Module Biome.

(** [a > b] on numbers is [b < a]. *)
Definition classifyBiome (elevation temperature humidity : float) : string :=
  if (elevation <? CONFIG.WATER_THRESHOLD)%float then "water"
  else if (elevation <? CONFIG.SAND_THRESHOLD)%float then "sand"
  else if (CONFIG.MOUNTAIN_THRESHOLD <? elevation)%float then
    if (CONFIG.SNOW_THRESHOLD <? elevation)%float then "snow" else "mountain"
  else if ((CONFIG.DESERT_TEMP <? temperature)%float
           && (humidity <? CONFIG.DESERT_HUMIDITY)%float)%bool then "desert"
  else if (temperature <? CONFIG.SNOW_TEMP)%float then "snow"
  else if (CONFIG.FOREST_HUMIDITY <? humidity)%float then "forest"
  else "grass".

(** Own properties of [BIOMES]: the biomes that have a definition. *)
Definition BIOMES : list string :=
  [ "water"; "sand"; "grass"; "forest"; "mountain"; "snow"; "desert";
    "village"; "dungeon" ].

Definition isBiomeValidForStructure (biome structureType : string) : bool :=
  if (structureType =? "village")%string then
    (biome =? "grass")%string || (biome =? "forest")%string
    || (biome =? "grassland")%string
  else if (structureType =? "dungeon")%string then
    negb (biome =? "water")%string
  else false.

(** Own properties of [descriptions]. *)
Definition descriptions : list (string * string) :=
  [ ("water", "Water"); ("sand", "Beach/Sand"); ("forest", "Forest");
    ("grass", "Grassland"); ("mountain", "Mountain"); ("snow", "Snow Peak");
    ("desert", "Desert"); ("village", "Village"); ("dungeon", "Dungeon");
    ("road", "Road") ].

(** [table[key]] on a table with string keys. *)
Fixpoint lookup {A} (table : list (string * A)) (key : string) : option A :=
  match table with
  | [] => None
  | (k, v) :: table' => if (k =? key)%string then Some v else lookup table' key
  end.

(** [descriptions[biome] || "Unknown"]; every description is non-empty. *)
Definition getBiomeDescription (biome : string) : string :=
  match lookup descriptions biome with
  | Some d => if JS.truthy d then d else "Unknown"
  | None => "Unknown"
  end.

End Biome.

(* ------------------------------------------------------------------ *)
(** ** noise.js                                                         *)
(* ------------------------------------------------------------------ *)

Module Noise.

(** A noise sampler [(x, y) => value]. *)
Definition sampler : Type := float -> float -> float.

(** The object [{ elevation, temperature, humidity, scatter }]. *)
Record functions : Type := {
  elevation : sampler;
  temperature : sampler;
  humidity : sampler;
  scatter : sampler;
}.

Definition normalizeNoise (value : float) : float := ((value + 1) / 2)%float.

End Noise.

(* ------------------------------------------------------------------ *)
(** ** structure.js                                                     *)
(* ------------------------------------------------------------------ *)

Module Structure.

(** Own properties of [STRUCTURE_TEMPLATES], for the types of structures.
    The names that the object literal inherits ("toString", "constructor"
    and the like) are no types of structures ([generateChunk] draws
    "village" or "dungeon" only) and are outside the embedding. *)
Definition STRUCTURE_TEMPLATES (structureType : string) : option (list string) :=
  if (structureType =? "village")%string then
    Some [ "....."; ".VVV."; ".VVV."; ".VVV."; "....." ]
  else if (structureType =? "dungeon")%string then
    Some [ "..D.."; ".DDD."; "DDDDD"; ".DDD."; "..D.." ]
  else None.

(** The inner loops of [rotateTemplate]: row [y] of the rotated grid. *)
Definition rotate_row (result : list string) (size y : nat) : string :=
  fold_left
    (fun row x => row ++ JS.index_str (nth (size - x - 1) result "") y)
    (seq 0 size) "".

(** One iteration of the outer loop of [rotateTemplate]. *)
Definition rotate_once (result : list string) : list string :=
  let size := length result in
  map (rotate_row result size) (seq 0 size).

(** [rotations % 4] is the remainder of the truncated division. *)
Definition rotateTemplate (template : list string) (rotations : Z) : list string :=
  Nat.iter (Z.to_nat (Z.rem rotations 4)) rotate_once template.

Fixpoint scale_row (scale : nat) (row : string) : string :=
  match row with
  | EmptyString => ""
  | String c row' =>
      fold_left (fun acc _ => acc ++ String c "") (seq 0 scale) ""
        ++ scale_row scale row'
  end.

Definition scaleTemplate (template : list string) (scale : Z) : list string :=
  if scale =? 1 then template
  else
    flat_map
      (fun row => map (fun _ => scale_row (Z.to_nat scale) row)
                    (seq 0 (Z.to_nat scale)))
      template.

Record templateData : Type := {
  template : list string;
  rotation : Z;
  scale : Z;
}.

Definition getRandomizedTemplate (structureType : string) (seed : Z)
  : option templateData :=
  match STRUCTURE_TEMPLATES structureType with
  | None => None
  | Some baseTemplate =>
      let rng := Seed.createSeededRandom seed in
      let '(r, rng) := Seed.next rng in
      let rotation := JS.Math_floor (r * 4)%float in
      let '(r, rng) := Seed.next rng in
      let scale := 1 + JS.Math_floor (r * 2)%float in
      let template := rotateTemplate baseTemplate rotation in
      let template := scaleTemplate template scale in
      Some {| template := template; rotation := rotation; scale := scale |}
  end.

Definition canPlaceStructure (structureType biomeName : string) (isWater : bool)
  : bool :=
  if isWater then false
  else if (structureType =? "village")%string then
    (biomeName =? "grass")%string || (biomeName =? "forest")%string
    || (biomeName =? "grassland")%string
  else if (structureType =? "dungeon")%string then
    negb (biomeName =? "water")%string
  else false.

Definition getStructureKey (cx cy : Z) : Z * Z := (cx, cy).

End Structure.

(* ------------------------------------------------------------------ *)
(** ** tile.js                                                          *)
(* ------------------------------------------------------------------ *)

(** An entry of [TILE_VARIANTS] (autotile.js). *)
Module Variant.
Record t : Type := { id : string; rotation : Z; priority : Z }.
End Variant.

Module Tile.

(** [tileVariant] is absent on a new tile, [null] on a structure tile and
    a variant record otherwise; [tileMask] and [neighborBiomes] are absent
    until autotiling writes them. *)
Inductive variantSlot : Type :=
| Undefined
| Null
| Value (v : Variant.t).

Record t : Type := {
  x : Z;
  y : Z;
  elevation : float;
  biome : string;
  temperature : float;
  humidity : float;
  structure : option string;
  object : option string;
  roadType : option string;
  tileMask : option Z;
  tileVariant : variantSlot;
  neighborBiomes : option (list (string * string));
}.

(** [new Tile(x, y)]. *)
Definition new (x y : Z) : t :=
  {| x := x; y := y; elevation := 0.5%float; biome := "grass";
     temperature := 0.5%float; humidity := 0.5%float;
     structure := None; object := None; roadType := None;
     tileMask := None; tileVariant := Undefined; neighborBiomes := None |}.

Definition set_elevation (v : float) (t0 : t) : t :=
  {| x := x t0; y := y t0; elevation := v; biome := biome t0;
     temperature := temperature t0; humidity := humidity t0;
     structure := structure t0; object := object t0; roadType := roadType t0;
     tileMask := tileMask t0; tileVariant := tileVariant t0;
     neighborBiomes := neighborBiomes t0 |}.

Definition set_temperature (v : float) (t0 : t) : t :=
  {| x := x t0; y := y t0; elevation := elevation t0; biome := biome t0;
     temperature := v; humidity := humidity t0;
     structure := structure t0; object := object t0; roadType := roadType t0;
     tileMask := tileMask t0; tileVariant := tileVariant t0;
     neighborBiomes := neighborBiomes t0 |}.

Definition set_humidity (v : float) (t0 : t) : t :=
  {| x := x t0; y := y t0; elevation := elevation t0; biome := biome t0;
     temperature := temperature t0; humidity := v;
     structure := structure t0; object := object t0; roadType := roadType t0;
     tileMask := tileMask t0; tileVariant := tileVariant t0;
     neighborBiomes := neighborBiomes t0 |}.

Definition set_biome (v : string) (t0 : t) : t :=
  {| x := x t0; y := y t0; elevation := elevation t0; biome := v;
     temperature := temperature t0; humidity := humidity t0;
     structure := structure t0; object := object t0; roadType := roadType t0;
     tileMask := tileMask t0; tileVariant := tileVariant t0;
     neighborBiomes := neighborBiomes t0 |}.

Definition set_structure (v : option string) (t0 : t) : t :=
  {| x := x t0; y := y t0; elevation := elevation t0; biome := biome t0;
     temperature := temperature t0; humidity := humidity t0;
     structure := v; object := object t0; roadType := roadType t0;
     tileMask := tileMask t0; tileVariant := tileVariant t0;
     neighborBiomes := neighborBiomes t0 |}.

Definition set_object (v : option string) (t0 : t) : t :=
  {| x := x t0; y := y t0; elevation := elevation t0; biome := biome t0;
     temperature := temperature t0; humidity := humidity t0;
     structure := structure t0; object := v; roadType := roadType t0;
     tileMask := tileMask t0; tileVariant := tileVariant t0;
     neighborBiomes := neighborBiomes t0 |}.

Definition set_roadType (v : option string) (t0 : t) : t :=
  {| x := x t0; y := y t0; elevation := elevation t0; biome := biome t0;
     temperature := temperature t0; humidity := humidity t0;
     structure := structure t0; object := object t0; roadType := v;
     tileMask := tileMask t0; tileVariant := tileVariant t0;
     neighborBiomes := neighborBiomes t0 |}.

Definition set_tileMask (v : option Z) (t0 : t) : t :=
  {| x := x t0; y := y t0; elevation := elevation t0; biome := biome t0;
     temperature := temperature t0; humidity := humidity t0;
     structure := structure t0; object := object t0; roadType := roadType t0;
     tileMask := v; tileVariant := tileVariant t0;
     neighborBiomes := neighborBiomes t0 |}.

Definition set_tileVariant (v : variantSlot) (t0 : t) : t :=
  {| x := x t0; y := y t0; elevation := elevation t0; biome := biome t0;
     temperature := temperature t0; humidity := humidity t0;
     structure := structure t0; object := object t0; roadType := roadType t0;
     tileMask := tileMask t0; tileVariant := v;
     neighborBiomes := neighborBiomes t0 |}.

Definition set_neighborBiomes (v : option (list (string * string))) (t0 : t) : t :=
  {| x := x t0; y := y t0; elevation := elevation t0; biome := biome t0;
     temperature := temperature t0; humidity := humidity t0;
     structure := structure t0; object := object t0; roadType := roadType t0;
     tileMask := tileMask t0; tileVariant := tileVariant t0;
     neighborBiomes := v |}.

(** [tile.isSolid()]. *)
Definition isSolid (t0 : t) : bool :=
  match structure t0, object t0 with
  | None, None => false
  | _, _ => true
  end.

(** [tile.isWalkable()]. *)
Definition isWalkable (t0 : t) : bool :=
  negb (biome t0 =? "water")%string
  && match structure t0 with None => true | Some _ => false end.

(** [tile.reset()]: the fields of the constructor; the fields that
    autotiling added stay. *)
Definition reset (t0 : t) : t :=
  set_roadType None
    (set_object None
       (set_structure None
          (set_humidity 0.5%float
             (set_temperature 0.5%float
                (set_biome "grass" (set_elevation 0.5%float t0)))))).

(** A two-dimensional array of tiles, [grid[i][j]]. *)
Abbreviation grid := (list (list t)).

Definition get (g : grid) (i j : Z) : option t :=
  row ← JS.index g i; JS.index row j.

(** [grid[i][j] = v] for a position that exists. *)
Definition set (g : grid) (i j : nat) (v : t) : grid :=
  alter (fun row => <[j := v]> row) i g.

End Tile.

(* ------------------------------------------------------------------ *)
(** ** autotile.js                                                      *)
(* ------------------------------------------------------------------ *)

Module Autotile.

(** Own properties of [BIOME_GROUPS]. *)
Definition BIOME_GROUPS (b : string) : option Z :=
  if (b =? "water")%string then Some 0
  else if (b =? "sand")%string then Some 1
  else if (b =? "grass")%string then Some 2
  else if (b =? "grassland")%string then Some 2
  else if (b =? "forest")%string then Some 3
  else if (b =? "mountain")%string then Some 4
  else if (b =? "snow")%string then Some 5
  else if (b =? "desert")%string then Some 6
  else if (b =? "village")%string then Some 7
  else if (b =? "dungeon")%string then Some 8
  else None.

Definition BIOME_TRANSITIONS : list (Z * list Z) :=
  [ (0, [0; 1]); (1, [1; 0; 2]); (2, [2; 3; 1]); (3, [3; 2]); (4, [4; 5]);
    (5, [5; 4]); (6, [6; 1]); (7, [7; 2]); (8, [8]) ].

Definition mk (id : string) (priority : Z) : Variant.t :=
  {| Variant.id := id; Variant.rotation := 0; Variant.priority := priority |}.

Definition TILE_VARIANTS : list (Z * Variant.t) :=
  [ (0x00, mk "full" 1); (0xff, mk "corners" 2);
    (0x01, mk "n" 3); (0x02, mk "e" 3); (0x04, mk "s" 3); (0x08, mk "w" 3);
    (0x10, mk "nw" 4); (0x20, mk "ne" 4); (0x40, mk "se" 4); (0x80, mk "sw" 4);
    (0x0e, mk "t_down" 5); (0x0d, mk "t_right" 5); (0x0b, mk "t_up" 5);
    (0x07, mk "t_left" 5);
    (0x05, mk "edge_h" 6); (0x0a, mk "edge_v" 6);
    (0x0c, mk "corner_ne" 7); (0x06, mk "corner_nw" 7);
    (0x03, mk "corner_se" 7); (0x09, mk "corner_sw" 7);
    (0x0f, mk "single" 8) ].

(** [table[key]] on a table with integer keys. *)
Fixpoint lookup {A} (table : list (Z * A)) (key : Z) : option A :=
  match table with
  | [] => None
  | (k, v) :: table' => if k =? key then Some v else lookup table' key
  end.

Definition canTransition (fromBiome toBiome : string) : bool :=
  if (fromBiome =? toBiome)%string then true
  else
    match BIOME_GROUPS fromBiome, BIOME_GROUPS toBiome with
    | Some fromGroup, Some toGroup =>
        match lookup BIOME_TRANSITIONS fromGroup with
        | Some l => existsb (Z.eqb toGroup) l
        | None => false
        end
    | _, _ => false
    end.

(** [{ dx, dy, bit }]. *)
Definition neighbors : list (Z * Z * Z) :=
  [ (0, -1, 0); (1, -1, 1); (1, 0, 2); (1, 1, 3);
    (0, 1, 4); (-1, 1, 5); (-1, 0, 6); (-1, -1, 7) ].

Definition directionName (bit : Z) : string :=
  nth (Z.to_nat bit) [ "N"; "NE"; "E"; "SE"; "S"; "SW"; "W"; "NW" ] "undefined".

(** [chunkTiles[0]?.length]. *)
Definition height0 (chunkTiles : Tile.grid) : option Z :=
  match chunkTiles with
  | [] => None
  | row :: _ => Some (Z.of_nat (length row))
  end.

(** The body of the loop of [calculateTileMask] on the neighbor
    [{ dx, dy, bit }], from the mask and the neighbor biomes so far.  The
    result is [None] when the neighbor passes the bounds test and is
    missing from its column, where reading its biome throws. *)
Definition mask_step (centerBiome : string) (chunkTiles : Tile.grid)
    (localX localY : Z) (acc : Z * list (string * string)) (n : Z * Z * Z)
  : option (Z * list (string * string)) :=
  let '(mask, neighborBiomes) := acc in
  let '(dx, dy, bit) := n in
  let nx := localX + dx in
  let ny := localY + dy in
  if (0 <=? nx) && (nx <? Z.of_nat (length chunkTiles)) && (0 <=? ny)
     && (match height0 chunkTiles with Some h => ny <? h | None => false end)
  then
    match Tile.get chunkTiles nx ny with
    | None => None
    | Some neighborTile =>
        let neighborBiome := Tile.biome neighborTile in
        let neighborBiomes :=
          (neighborBiomes ++ [(directionName bit, neighborBiome)])%list in
        if canTransition centerBiome neighborBiome
        then Some (Z.lor mask (Z.shiftl 1 bit), neighborBiomes)
        else Some (mask, neighborBiomes)
    end
  else Some (mask, neighborBiomes).

(** The mask returned and the object stored in [centerTile.neighborBiomes]. *)
Definition calculateTileMask (centerTile : Tile.t) (chunkTiles : Tile.grid)
    (localX localY : Z) : option (Z * list (string * string)) :=
  JS.for_each (mask_step (Tile.biome centerTile) chunkTiles localX localY)
    neighbors (0, []).

(** The result is [None] where the source returns [undefined]. *)
Definition getVariantFromMask (mask : Z) : option Variant.t :=
  match lookup TILE_VARIANTS mask with
  | Some v => Some v
  | None =>
      if mask =? 0xff then lookup TILE_VARIANTS 0xff
      else if mask =? 0x00 then lookup TILE_VARIANTS 0x00
      else lookup TILE_VARIANTS 0x00
  end.

Definition slot (v : option Variant.t) : Tile.variantSlot :=
  match v with Some v => Tile.Value v | None => Tile.Undefined end.

(** The body of the inner loop of [applyChunkAutotiling] at [(x, y)], on
    the grid as the iterations before it left it. *)
Definition autotile_tile (chunkTiles : Tile.grid) (x y : nat) : option Tile.grid :=
  match Tile.get chunkTiles (Z.of_nat x) (Z.of_nat y) with
  | None => None
  | Some tile =>
      match Tile.structure tile with
      | Some _ =>
          Some (Tile.set chunkTiles x y (Tile.set_tileVariant Tile.Null tile))
      | None =>
          match calculateTileMask tile chunkTiles (Z.of_nat x) (Z.of_nat y) with
          | None => None
          | Some (mask, neighborBiomes) =>
              let tile := Tile.set_neighborBiomes (Some neighborBiomes) tile in
              let variant := getVariantFromMask mask in
              let tile := Tile.set_tileVariant (slot variant) tile in
              let tile := Tile.set_tileMask (Some mask) tile in
              Some (Tile.set chunkTiles x y tile)
          end
      end
  end.

Definition applyChunkAutotiling (chunkTiles : Tile.grid) : option Tile.grid :=
  let width := length chunkTiles in
  let height := match height0 chunkTiles with Some h => Z.to_nat h | None => 0%nat end in
  JS.for_each
    (fun g x => JS.for_each (fun g y => autotile_tile g x y) (seq 0 height) g)
    (seq 0 width) chunkTiles.


(** The body of the loops of [applyEdgeAutotiling] at the tile [(x, y)]:
    structure tiles are left as they are. *)
Definition edge_tile (chunkTiles : Tile.grid) (x y : Z) : option Tile.grid :=
  match Tile.get chunkTiles x y with
  | None => None
  | Some tile =>
      match Tile.structure tile with
      | Some _ => Some chunkTiles
      | None =>
          match calculateTileMask tile chunkTiles x y with
          | None => None
          | Some (mask, neighborBiomes) =>
              let tile := Tile.set_neighborBiomes (Some neighborBiomes) tile in
              let tile := Tile.set_tileVariant (slot (getVariantFromMask mask)) tile in
              let tile := Tile.set_tileMask (Some mask) tile in
              Some (Tile.set chunkTiles (Z.to_nat x) (Z.to_nat y) tile)
          end
      end
  end.

(** [neighborChunk] is only tested for being there. *)
Definition applyEdgeAutotiling (chunkTiles : Tile.grid)
    (neighborChunk : option Tile.grid) (direction : string) : option Tile.grid :=
  let width := Z.of_nat (length chunkTiles) in
  let height := match height0 chunkTiles with Some h => h | None => 0 end in
  let present := match neighborChunk with Some _ => true | None => false end in
  let xs := map Z.of_nat (seq 0 (Z.to_nat width)) in
  let ys := map Z.of_nat (seq 0 (Z.to_nat height)) in
  if (direction =? "north")%string && present then
    JS.for_each (fun g x => edge_tile g x 0) xs chunkTiles
  else if (direction =? "south")%string && present then
    JS.for_each (fun g x => edge_tile g x (height - 1)) xs chunkTiles
  else if (direction =? "east")%string && present then
    JS.for_each (fun g y => edge_tile g (width - 1) y) ys chunkTiles
  else if (direction =? "west")%string && present then
    JS.for_each (fun g y => edge_tile g 0 y) ys chunkTiles
  else Some chunkTiles.

(** [variant?.id ?? "unknown"]. *)
Definition getMaskDescription (mask : Z) : string :=
  match getVariantFromMask mask with
  | Some variant => Variant.id variant
  | None => "unknown"
  end.

(** [(variant?.rotation ?? 0) * 90]. *)
Definition getVariantRotation (mask : Z) : Z :=
  match getVariantFromMask mask with
  | Some variant => Variant.rotation variant * 90
  | None => 0 * 90
  end.

End Autotile.

(* ------------------------------------------------------------------ *)
(** ** scatter.js                                                       *)
(* ------------------------------------------------------------------ *)

Module Scatter.

Definition getScatterType (tile : Tile.t) (worldX worldY : Z)
    (scatterNoise : Noise.sampler) : option string :=
  let biome := Tile.biome tile in
  if (match Tile.structure tile with Some _ => true | None => false end)
     || (biome =? "water")%string
  then None
  else
    let density :=
      Noise.normalizeNoise
        (scatterNoise (JS.of_Z worldX * CONFIG.SCATTER_SCALE)%float
                      (JS.of_Z worldY * CONFIG.SCATTER_SCALE)%float) in
    let isGrass := (biome =? "grass")%string || (biome =? "grassland")%string in
    if (biome =? "forest")%string && (CONFIG.FOREST_TREE_DENSITY <? density)%float
    then Some "tree"
    else if isGrass && (CONFIG.GRASS_TREE_DENSITY <? density)%float
    then Some "tree"
    else if isGrass && (CONFIG.GRASS_ROCK_DENSITY_MIN <? density)%float
                    && (density <? CONFIG.GRASS_ROCK_DENSITY_MAX)%float
    then Some "rock"
    else if (biome =? "mountain")%string
            && (CONFIG.MOUNTAIN_ROCK_DENSITY <? density)%float
    then Some "rock"
    else if (biome =? "desert")%string && (0.7 <? density)%float
    then Some "rock"
    else None.


(** The [biomes] lists of [SCATTER_OBJECTS]. *)
Definition SCATTER_OBJECTS : list (string * list string) :=
  [ ("tree", [ "forest"; "grass" ]);
    ("rock", [ "mountain"; "grass"; "desert" ]);
    ("flower", [ "grass"; "forest" ]) ].

(** [obj && obj.biomes.includes(biomeName)]; the result [undefined] for an
    unknown object type is the boolean [false] here. *)
Definition isObjectValidForBiome (objectType biomeName : string) : bool :=
  match Biome.lookup SCATTER_OBJECTS objectType with
  | Some biomes => existsb (String.eqb biomeName) biomes
  | None => false
  end.

End Scatter.

(* ------------------------------------------------------------------ *)
(** ** road.js                                                          *)
(* ------------------------------------------------------------------ *)

Module Road.

Record RoadNode : Type := { x : Z; y : Z }.

(** An edge refers to two node objects of [graph.nodes]; a reference is
    the index of the node in that array. *)
Record RoadEdge : Type := { from : Z; to : Z }.

Record RoadGraph : Type := {
  centerX : float;
  centerY : float;
  nodes : list RoadNode;
  edges : list RoadEdge;
}.

(** [new RoadNode(x, y)]. *)
Definition newRoadNode (x y : float) : RoadNode :=
  {| x := JS.Math_floor x; y := JS.Math_floor y |}.

Section Generate.

(** [Math.cos] and [Math.sin]. *)
Variables Math_cos Math_sin : float -> float.

(** One iteration of the loop of [generateGraph]. *)
Definition generate_step (centerX centerY : float)
    (st : list RoadNode * list RoadEdge * Seed.rng)
  : list RoadNode * list RoadEdge * Seed.rng :=
  let '(nodes, edges, rng) := st in
  let '(angle, rng) := Seed.seededRandomAngle rng in
  let '(r, rng) := Seed.next rng in
  let distance := (6 + r * 12)%float in
  let x := (centerX + Math_cos angle * distance)%float in
  let y := (centerY + Math_sin angle * distance)%float in
  let node := newRoadNode x y in
  let nodes := (nodes ++ [node])%list in
  let '(r, rng) := Seed.next rng in
  let parentIdx := JS.Math_floor (r * JS.of_Z (Z.of_nat (length nodes)))%float in
  let edges :=
    (edges ++ [ {| from := parentIdx; to := Z.of_nat (length nodes) - 1 |} ])%list in
  (nodes, edges, rng).

(** [generateGraph] on the empty graph of the constructor. *)
Definition generateGraph (centerX centerY : float) (rng : Seed.rng)
  : list RoadNode * list RoadEdge * Seed.rng :=
  let centerNode := newRoadNode centerX centerY in
  let nodes := [centerNode] in
  let '(r, rng) := Seed.next rng in
  let nodeCount := 5 + JS.Math_floor (r * 6)%float in
  Nat.iter (Z.to_nat (nodeCount - 1)) (generate_step centerX centerY)
    (nodes, [], rng).

(** [new RoadGraph(centerX, centerY, rng)]. *)
Definition newRoadGraph (centerX centerY : float) (rng : Seed.rng) : RoadGraph :=
  let '(nodes, edges, _) := generateGraph centerX centerY rng in
  {| centerX := centerX; centerY := centerY; nodes := nodes; edges := edges |}.

Definition generateVillageRoadGraph (centerX centerY : float) (seed : Z)
  : RoadGraph :=
  let rng := Seed.createSeededRandom seed in
  newRoadGraph centerX centerY rng.

End Generate.

(** The [while (true)] loop of [drawLineOnGrid], which runs the callback
    on the state [s]; [None] when [fuel] iterations do not reach the
    [break]. *)
Fixpoint line_loop {St} (callback : Z -> Z -> St -> St) (fuel : nat)
    (x0 y0 x1 y1 dx dy sx sy err : Z) (s : St) : option St :=
  match fuel with
  | O => None
  | S fuel' =>
      let s := callback x0 y0 s in
      if (x0 =? x1) && (y0 =? y1) then Some s
      else
        let e2 := err * 2 in
        let '(err, x0) := if - dy <? e2 then (err - dy, x0 + sx) else (err, x0) in
        let '(err, y0) := if e2 <? dx then (err + dx, y0 + sy) else (err, y0) in
        line_loop callback fuel' x0 y0 x1 y1 dx dy sx sy err s
  end.

(** The coordinates are integers, which [Math.floor] leaves as they are. *)
Definition drawLineOnGrid {St} (callback : Z -> Z -> St -> St) (fuel : nat)
    (x0 y0 x1 y1 : Z) (s : St) : option St :=
  let dx := Z.abs (x1 - x0) in
  let dy := Z.abs (y1 - y0) in
  let sx := if x0 <? x1 then 1 else -1 in
  let sy := if y0 <? y1 then 1 else -1 in
  let err := dx - dy in
  line_loop callback fuel x0 y0 x1 y1 dx dy sx sy err s.

Record options : Type := {
  roadWidth : option Z;
  roadType : option string;
}.

(** The integers from [lo] to [hi], in increasing order. *)
Definition range (lo hi : Z) : list Z :=
  map (fun i => lo + Z.of_nat i) (seq 0 (Z.to_nat (hi - lo + 1))).

(** The body of the two inner loops of the callback, at tile [(tx, ty)]. *)
Definition mark (roadType : string) (tileMap : Tile.grid) (tx ty : Z) : Tile.grid :=
  match Tile.get tileMap ty tx with
  | Some tile =>
      match Tile.roadType tile with
      | None =>
          Tile.set tileMap (Z.to_nat ty) (Z.to_nat tx)
            (Tile.set_roadType (Some roadType) tile)
      | Some _ => tileMap
      end
  | None => tileMap
  end.

(** The callback that [rasterizeroads] passes to [drawLineOnGrid]. *)
Definition paint (roadWidth : Z) (roadType : string) (x y : Z)
    (tileMap : Tile.grid) : Tile.grid :=
  fold_left
    (fun tileMap dx =>
       fold_left (fun tileMap dy => mark roadType tileMap (x + dx) (y + dy))
         (range (- roadWidth) roadWidth) tileMap)
    (range (- roadWidth) roadWidth) tileMap.

(** [None] when an edge refers to a missing node, where reading its
    coordinates throws, or when the fuel runs out. *)
Definition rasterize_edge (roadWidth : Z) (roadType : string) (fuel : nat)
    (graph : RoadGraph) (tileMap : Tile.grid) (edge : RoadEdge)
  : option Tile.grid :=
  match JS.index (nodes graph) (from edge), JS.index (nodes graph) (to edge) with
  | Some a, Some b =>
      drawLineOnGrid (paint roadWidth roadType) fuel (x a) (y a) (x b) (y b) tileMap
  | _, _ => None
  end.

Definition rasterizeroads (fuel : nat) (tileMap : Tile.grid) (graph : RoadGraph)
    (opts : options) : option Tile.grid :=
  let roadWidth :=
    match roadWidth opts with
    | Some w => if w =? 0 then 1 else w
    | None => 1
    end in
  let roadType :=
    match roadType opts with
    | Some s => if JS.truthy s then s else "road"
    | None => "road"
    end in
  JS.for_each (rasterize_edge roadWidth roadType fuel graph) (edges graph) tileMap.

End Road.

(* ------------------------------------------------------------------ *)
(** ** chunk.js                                                         *)
(* ------------------------------------------------------------------ *)

Module Chunk.

(** A record [{ type, cx, cy }] of the structure registry. *)
Record StructureRecord : Type := {
  type : string;
  cx : Z;
  cy : Z;
}.

(** The registry object, in the order [for ... in] visits it. *)
Abbreviation Registry := (list ((Z * Z) * StructureRecord)).

Definition key_eqb (k1 k2 : Z * Z) : bool :=
  (fst k1 =? fst k2) && (snd k1 =? snd k2).

(** [registry[key] = data]: an existing key keeps its place. *)
Fixpoint registry_set (registry : Registry) (key : Z * Z) (data : StructureRecord)
  : Registry :=
  match registry with
  | [] => [(key, data)]
  | (k, d) :: registry' =>
      if key_eqb k key then (k, data) :: registry'
      else (k, d) :: registry_set registry' key data
  end.

(** [delete registry[key]]. *)
Definition registry_delete (registry : Registry) (key : Z * Z) : Registry :=
  List.filter (fun kd => negb (key_eqb (fst kd) key)) registry.

Definition getChunkKey (cx cy : Z) : Z * Z := (cx, cy).

Definition SPACING : Z := CONFIG.STRUCTURE_SPACING.

(** [Math.floor(c / SPACING)]; the quotient by 4 is exact. *)
Definition gridOf (c : Z) : Z := c / SPACING.

(** The candidate test of [generateChunk] and the stream [gridRng] after
    the two offsets have been drawn. *)
Definition candidate (cx cy worldSeed : Z) : bool * Seed.rng :=
  let gridX := gridOf cx in
  let gridY := gridOf cy in
  let gridRng :=
    Seed.createSeededRandom (worldSeed + gridX * 918273 + gridY * 192837) in
  let '(r, gridRng) := Seed.next gridRng in
  let candidateOffX := JS.Math_floor (r * JS.of_Z SPACING)%float in
  let '(r, gridRng) := Seed.next gridRng in
  let candidateOffY := JS.Math_floor (r * JS.of_Z SPACING)%float in
  let isCandidateChunk :=
    (cx =? gridX * SPACING + candidateOffX)
    && (cy =? gridY * SPACING + candidateOffY) in
  (isCandidateChunk, gridRng).

(** The block "structure placement logic": [structureType] after it and
    the registry as it leaves it. *)
Definition placeStructure (cx cy worldSeed : Z) (registry : Registry)
  : option string * Registry :=
  let '(isCandidateChunk, gridRng) := candidate cx cy worldSeed in
  if isCandidateChunk then
    let '(roll, _) := Seed.next gridRng in
    let structureType :=
      if (roll <? CONFIG.STRUCTURE_SPAWN_CHANCE_VILLAGE)%float then Some "village"
      else if (roll <? CONFIG.STRUCTURE_SPAWN_CHANCE_DUNGEON)%float then Some "dungeon"
      else None in
    match structureType with
    | Some ty =>
        let structKey := Structure.getStructureKey cx cy in
        (structureType,
         registry_set registry structKey {| type := ty; cx := cx; cy := cy |})
    | None => (structureType, registry)
    end
  else (None, registry).

(** The loop "check for nearby structures": the first record of the
    registry within one chunk of [(cx, cy)] in both directions. *)
Definition nearby (cx0 cy0 : Z) (registry : Registry) : option StructureRecord :=
  snd <$> List.find
    (fun kd =>
       let data := snd kd in
       let dx := Z.abs (cx0 - cx data) in
       let dy := Z.abs (cy0 - cy data) in
       (dx <=? 1) && (dy <=? 1))
    registry.

(** [structureType] after that loop. *)
Definition adopt (structureType : option string)
    (nearbyStructure : option StructureRecord) : option string :=
  match nearbyStructure with
  | Some data =>
      if negb (JS.truthy_opt structureType) then Some (type data)
      else structureType
  | None => structureType
  end.

(** The block "precompute rotated template": [rotatedTemplate]. *)
Definition rotatedTemplateOf (structureType : option string) (cx cy worldSeed : Z)
  : option (list string) :=
  match structureType with
  | Some ty =>
      if JS.truthy ty then
        let templateSeed := worldSeed + cx * 123456 + cy * 789012 in
        Structure.template <$> Structure.getRandomizedTemplate ty templateSeed
      else None
  | None => None
  end.

(** The block "apply structure template" on the tile at [(x, y)]. *)
Definition applyTemplate (structureType : option string)
    (rotatedTemplate : option (list string)) (x y : Z) (tile : Tile.t) : Tile.t :=
  match structureType, rotatedTemplate with
  | Some ty, Some template =>
      if JS.truthy ty then
        let size := Z.of_nat (length template) in
        (* Math.floor(CHUNK_SIZE / 2 - size / 2) *)
        let start := (CONFIG.CHUNK_SIZE - size) / 2 in
        let tx := x - start in
        let ty_ := y - start in
        if (0 <=? tx) && (0 <=? ty_) && (tx <? size) && (ty_ <? size) then
          let char :=
            match JS.index template ty_ with
            | Some row => String.get (Z.to_nat tx) row
            | None => None
            end in
          if negb (bool_decide (char = Some "."%char)) then
            let isValid :=
              Structure.canPlaceStructure ty (Tile.biome tile)
                (Tile.biome tile =? "water")%string in
            if isValid then
              let tile := Tile.set_structure (Some ty) tile in
              let tile := Tile.set_biome ty tile in
              if (ty =? "village")%string
              then Tile.set_elevation 0.5%float tile
              else tile
            else tile
          else tile
        else tile
      else tile
  | _, _ => tile
  end.

(** The body of the two tile loops at the local position [(x, y)]. *)
Definition buildTile (cx cy : Z) (noiseFunctions : Noise.functions)
    (structureType : option string) (rotatedTemplate : option (list string))
    (x y : Z) : Tile.t :=
  let worldX := cx * CONFIG.CHUNK_SIZE + x in
  let worldY := cy * CONFIG.CHUNK_SIZE + y in
  let tile := Tile.new worldX worldY in
  let fx := JS.of_Z worldX in
  let fy := JS.of_Z worldY in
  let warp :=
    Noise.normalizeNoise
      (Noise.elevation noiseFunctions (fx * 0.01)%float (fy * 0.01)%float) in
  let elevation :=
    Noise.normalizeNoise
      (Noise.elevation noiseFunctions
         (fx * CONFIG.NOISE_SCALE + warp * 8)%float
         (fy * CONFIG.NOISE_SCALE + warp * 8)%float) in
  let temperature :=
    Noise.normalizeNoise
      (Noise.temperature noiseFunctions
         (fx * CONFIG.TEMP_SCALE)%float (fy * CONFIG.TEMP_SCALE)%float) in
  let humidity :=
    Noise.normalizeNoise
      (Noise.humidity noiseFunctions
         (fx * CONFIG.HUMIDITY_SCALE)%float (fy * CONFIG.HUMIDITY_SCALE)%float) in
  let tile := Tile.set_elevation elevation tile in
  let tile := Tile.set_temperature temperature tile in
  let tile := Tile.set_humidity humidity tile in
  let tile := Tile.set_biome (Biome.classifyBiome elevation temperature humidity) tile in
  let tile := applyTemplate structureType rotatedTemplate x y tile in
  if negb (JS.truthy_opt (Tile.structure tile))
     && negb (Tile.biome tile =? "water")%string
     && (match Tile.roadType tile with None => true | Some _ => false end)
  then
    Tile.set_object
      (Scatter.getScatterType tile worldX worldY (Noise.scatter noiseFunctions))
      tile
  else tile.

(** The local coordinates [0 .. CHUNK_SIZE - 1]. *)
Definition locals : list Z :=
  map Z.of_nat (seq 0 (Z.to_nat CONFIG.CHUNK_SIZE)).

(** The grid [chunk] when the two tile loops are over. *)
Definition buildTiles (cx cy : Z) (noiseFunctions : Noise.functions)
    (structureType : option string) (rotatedTemplate : option (list string))
  : Tile.grid :=
  map (fun x =>
         map (fun y => buildTile cx cy noiseFunctions structureType rotatedTemplate x y)
           locals)
    locals.

(** [generateChunk(cx, cy, worldSeed, noiseFunctions, registry)]: the grid
    returned ([None] if autotiling throws) and the registry afterwards. *)
Definition generateChunk (cx cy worldSeed : Z) (noiseFunctions : Noise.functions)
    (registry : Registry) : option Tile.grid * Registry :=
  let '(structureType, registry) := placeStructure cx cy worldSeed registry in
  let nearbyStructure := nearby cx cy registry in
  let structureType := adopt structureType nearbyStructure in
  let rotatedTemplate := rotatedTemplateOf structureType cx cy worldSeed in
  let chunk := buildTiles cx cy noiseFunctions structureType rotatedTemplate in
  (Autotile.applyChunkAutotiling chunk, registry).

(** *** ChunkCache *)

Record ChunkCache : Type := {
  chunks : gmap (Z * Z) Tile.grid;
  registry : Registry;
}.

(** [new ChunkCache()]. *)
Definition newChunkCache : ChunkCache := {| chunks := ∅; registry := [] |}.

Definition getChunk (cache : ChunkCache) (cx cy worldSeed : Z)
    (noiseFunctions : Noise.functions) : option Tile.grid * ChunkCache :=
  let key := getChunkKey cx cy in
  match chunks cache !! key with
  | Some chunk => (Some chunk, cache)
  | None =>
      match generateChunk cx cy worldSeed noiseFunctions (registry cache) with
      | (Some chunk, registry) =>
          (Some chunk, {| chunks := <[key := chunk]> (chunks cache); registry := registry |})
      | (None, registry) =>
          (None, {| chunks := chunks cache; registry := registry |})
      end
  end.

Definition unloadChunk (cache : ChunkCache) (cx cy : Z) : ChunkCache :=
  let key := getChunkKey cx cy in
  let registryKey := key in
  {| chunks := delete key (chunks cache);
     registry := registry_delete (registry cache) registryKey |}.

(** The keys that the first loop of [unloadDistantChunks] collects. *)
Definition toDelete (cache : ChunkCache) (centerCX centerCY keepDistance : Z)
  : list (Z * Z) :=
  (map_to_list
     (filter
        (fun kv : (Z * Z) * Tile.grid =>
           let dx := Z.abs (fst (fst kv) - centerCX) in
           let dy := Z.abs (snd (fst kv) - centerCY) in
           keepDistance < dx \/ keepDistance < dy)
        (chunks cache))).*1.

Definition unloadDistantChunks (cache : ChunkCache)
    (centerCX centerCY keepDistance : Z) : ChunkCache :=
  {| chunks :=
       fold_right delete (chunks cache)
         (toDelete cache centerCX centerCY keepDistance);
     registry := registry cache |}.

Definition getActiveChunks (cache : ChunkCache) : gmap (Z * Z) Tile.grid :=
  chunks cache.

Definition clear (cache : ChunkCache) : ChunkCache :=
  {| chunks := ∅; registry := [] |}.

End Chunk.

(* ------------------------------------------------------------------ *)
(** ** renderer.js: what [renderWorld] does to the chunk cache          *)
(* ------------------------------------------------------------------ *)

Module Renderer.

(** The object that [camera.getVisibleChunkRange] returns. *)
Record chunkRange : Type := {
  minChunkX : Z;
  maxChunkX : Z;
  minChunkY : Z;
  maxChunkY : Z;
}.

(** The tile loops of [renderWorld] read [chunk[x][y]] and then [tile.x]
    for every local position; that throws on a chunk without one of these
    tiles. *)
Definition readable (chunk : Tile.grid) : bool :=
  forallb
    (fun x =>
       forallb
         (fun y => match Tile.get chunk x y with Some _ => true | None => false end)
         Chunk.locals)
    Chunk.locals.

(** The two chunk loops of [renderWorld], which call [getChunk] on every
    chunk of the padded range, row by row, and read its tiles; drawing,
    which writes the canvas only, is left out.  [None] where reading the
    tiles throws. *)
Definition loadChunks (chunks : Chunk.ChunkCache) (range : chunkRange)
    (worldSeed : Z) (noiseFunctions : Noise.functions) : option Chunk.ChunkCache :=
  let padding := CONFIG.RENDER_DISTANCE in
  JS.for_each
    (fun chunks cy =>
       JS.for_each
         (fun chunks cx =>
            match Chunk.getChunk chunks cx cy worldSeed noiseFunctions with
            | (Some chunk, chunks') =>
                if readable chunk then Some chunks' else None
            | (None, _) => None
            end)
         (Road.range (minChunkX range - padding) (maxChunkX range + padding))
         chunks)
    (Road.range (minChunkY range - padding) (maxChunkY range + padding))
    chunks.

(** The cache after [renderWorld], for the visible range [range]. *)
Definition renderWorld (chunks : Chunk.ChunkCache) (range : chunkRange)
    (worldSeed : Z) (noiseFunctions : Noise.functions) : option Chunk.ChunkCache :=
  let padding := CONFIG.RENDER_DISTANCE in
  match loadChunks chunks range worldSeed noiseFunctions with
  | None => None
  | Some chunks =>
      Some
        (Chunk.unloadDistantChunks chunks
           (minChunkX range + (maxChunkX range - minChunkX range) / 2)
           (minChunkY range + (maxChunkY range - minChunkY range) / 2)
           (padding + 2))
  end.

End Renderer.

(* ================================================================== *)
(** * Vocabulary of the properties                                      *)
(* ================================================================== *)

(** A square character grid: [n] rows of [n] characters. *)
Definition square (n : nat) (template : list string) : Prop :=
  length template = n /\ Forall (fun row => String.length row = n) template.

(** The character [s[i]], where there is one. *)
Definition chr (s : string) (i : nat) : ascii :=
  match String.get i s with Some c => c | None => " "%char end.

(** A grid all of whose columns [grid[i]] have [h] tiles. *)
Definition rectangular (h : nat) (g : Tile.grid) : Prop :=
  Forall (fun col => length col = h) g.

(** All the neighbors [{ dx, dy, bit }] of the list exist around
    [(localX, localY)] and have the biome of the center. *)
Definition all_same (chunkTiles : Tile.grid) (centerBiome : string)
    (localX localY : Z) (l : list (Z * Z * Z)) : Prop :=
  Forall (fun n => exists neighborTile,
              Tile.get chunkTiles (localX + n.1.1) (localY + n.1.2) = Some neighborTile
              /\ Tile.biome neighborTile = centerBiome) l.

(** No neighbor of the list that exists is compatible with the center. *)
Definition none_compatible (chunkTiles : Tile.grid) (centerBiome : string)
    (localX localY : Z) (l : list (Z * Z * Z)) : Prop :=
  Forall (fun n => forall neighborTile,
              Tile.get chunkTiles (localX + n.1.1) (localY + n.1.2) = Some neighborTile ->
              Autotile.canTransition centerBiome (Tile.biome neighborTile) = false) l.

(** The points on which the loop of [drawLineOnGrid] runs its callback, in
    order. *)
Fixpoint line_points (fuel : nat) (x0 y0 x1 y1 dx dy sx sy err : Z)
  : option (list (Z * Z)) :=
  match fuel with
  | O => None
  | S fuel' =>
      if (x0 =? x1) && (y0 =? y1) then Some [(x0, y0)]
      else
        let e2 := err * 2 in
        let '(err', x0') := if - dy <? e2 then (err - dy, x0 + sx) else (err, x0) in
        let '(err', y0') := if e2 <? dx then (err' + dx, y0 + sy) else (err', y0) in
        cons (x0, y0) <$> line_points fuel' x0' y0' x1 y1 dx dy sx sy err'
  end.

(** The state [(x0, y0, err)] of that loop when [rx] steps along x and [ry]
    steps along y remain before [(x1, y1)]. *)
Definition on_line (x1 y1 dx dy sx sy x0 y0 err rx ry : Z) : Prop :=
  0 <= rx <= dx /\ 0 <= ry <= dy
  /\ x1 - x0 = sx * rx /\ y1 - y0 = sy * ry
  /\ err = dx - dy + rx * dy - ry * dx.

(** The tiles [(tx, ty)] that the callback of [rasterizeroads] visits around
    the point [(x, y)], in order. *)
Definition paint_cells (roadWidth : Z) (p : Z * Z) : list (Z * Z) :=
  flat_map
    (fun dx => map (fun dy => (p.1 + dx, p.2 + dy)) (Road.range (- roadWidth) roadWidth))
    (Road.range (- roadWidth) roadWidth).

(** Every edge of the graph refers to nodes of the graph. *)
Definition wf_graph (graph : Road.RoadGraph) : Prop :=
  Forall
    (fun e => 0 <= Road.from e < Z.of_nat (length (Road.nodes graph))
              /\ 0 <= Road.to e < Z.of_nat (length (Road.nodes graph)))
    (Road.edges graph).

(** The number of iterations that suffice for the line from [a] to [b]. *)
Definition line_fuel (a b : Road.RoadNode) : nat :=
  S (Z.to_nat (Z.abs (Road.x b - Road.x a) + Z.abs (Road.y b - Road.y a))).

(** [fuel] suffices for every edge of the graph. *)
Definition enough_fuel (fuel : nat) (graph : Road.RoadGraph) : Prop :=
  Forall
    (fun e => forall a b,
         JS.index (Road.nodes graph) (Road.from e) = Some a ->
         JS.index (Road.nodes graph) (Road.to e) = Some b ->
         (line_fuel a b <= fuel)%nat)
    (Road.edges graph).

(** The tile [(tx, ty)] of the map is missing or has a road tag. *)
Definition painted (tileMap : Tile.grid) (c : Z * Z) : Prop :=
  match Tile.get tileMap c.2 c.1 with
  | Some tile => Tile.roadType tile <> None
  | None => True
  end.

(** [mark] on the tile [c = (tx, ty)]. *)
Definition markc (roadType : string) (m : Tile.grid) (c : Z * Z) : Tile.grid :=
  Road.mark roadType m c.1 c.2.

(** The tiles that [rasterize_edge] visits for the edge, in order, when the
    nodes of the edge exist and [fuel] suffices for its line. *)
Definition edge_cells (roadWidth : Z) (fuel : nat) (graph : Road.RoadGraph)
    (edge : Road.RoadEdge) : option (list (Z * Z)) :=
  match JS.index (Road.nodes graph) (Road.from edge),
        JS.index (Road.nodes graph) (Road.to edge) with
  | Some a, Some b =>
      let x0 := Road.x a in
      let y0 := Road.y a in
      let x1 := Road.x b in
      let y1 := Road.y b in
      flat_map (paint_cells roadWidth)
        <$> line_points fuel x0 y0 x1 y1 (Z.abs (x1 - x0)) (Z.abs (y1 - y0))
              (if x0 <? x1 then 1 else -1) (if y0 <? y1 then 1 else -1)
              (Z.abs (x1 - x0) - Z.abs (y1 - y0))
  | _, _ => None
  end.

(** The tiles that the edges of a list visit, in order. *)
Fixpoint edges_cells (roadWidth : Z) (fuel : nat) (graph : Road.RoadGraph)
    (l : list Road.RoadEdge) : option (list (Z * Z)) :=
  match l with
  | [] => Some []
  | e :: l' =>
      match edge_cells roadWidth fuel graph e, edges_cells roadWidth fuel graph l' with
      | Some c, Some cs => Some (c ++ cs)%list
      | _, _ => None
      end
  end.

(** The fields of a tile that autotiling leaves alone. *)
Definition core (t : Tile.t)
  : Z * Z * float * string * float * float * option string * option string
    * option string :=
  (Tile.x t, Tile.y t, Tile.elevation t, Tile.biome t, Tile.temperature t,
   Tile.humidity t, Tile.structure t, Tile.object t, Tile.roadType t).

(** Two grids with the same positions and, at each, the same core fields. *)
Definition same_core (g0 g : Tile.grid) : Prop :=
  forall i j, core <$> Tile.get g i j = core <$> Tile.get g0 i j.

(** A tile with a structure, a road tag or the biome "water" has no object. *)
Definition scatter_exclusive (t : Tile.t) : Prop :=
  Tile.structure t <> None \/ Tile.roadType t <> None \/ Tile.biome t = "water" ->
  Tile.object t = None.

(** The grid [g] while [g0] is autotiled: [w] columns of [h] tiles, with the
    core fields of [g0]. *)
Definition autotile_inv (h w : nat) (g0 g : Tile.grid) : Prop :=
  rectangular h g /\ length g = w /\ same_core g0 g.

(** The samplers of a world whose noise is 0 everywhere: all grass. *)
Definition flat : Noise.functions :=
  {| Noise.elevation := fun _ _ => 0%float;
     Noise.temperature := fun _ _ => 0%float;
     Noise.humidity := fun _ _ => 0%float;
     Noise.scatter := fun _ _ => 0%float |}.

(** The registry after [generateChunk] has been called, with the world seed
    [worldSeed], on the chunks of [calls] in turn. *)
Definition run_calls (worldSeed : Z) (noiseFunctions : Noise.functions)
    (calls : list (Z * Z)) (registry : Chunk.Registry) : Chunk.Registry :=
  fold_left
    (fun registry c => (Chunk.generateChunk c.1 c.2 worldSeed noiseFunctions registry).2)
    calls registry.

(** The Chebyshev distance between the origin chunks of two records. *)
Definition chebyshev (a b : Chunk.StructureRecord) : Z :=
  Z.max (Z.abs (Chunk.cx a - Chunk.cx b)) (Z.abs (Chunk.cy a - Chunk.cy b)).

(** The cell of the spacing grid in which a record lies. *)
Definition cell_of (a : Chunk.StructureRecord) : Z * Z :=
  (Chunk.gridOf (Chunk.cx a), Chunk.gridOf (Chunk.cy a)).

(** The registry during a run with the seed [worldSeed]: its keys are
    distinct, and each record is stored under its own coordinates, which are
    those of the candidate chunk of its cell. *)
Definition registry_inv (worldSeed : Z) (registry : Chunk.Registry) : Prop :=
  List.NoDup (map fst registry)
  /\ Forall
       (fun kd => kd.1 = (Chunk.cx kd.2, Chunk.cy kd.2)
                  /\ (Chunk.candidate (Chunk.cx kd.2) (Chunk.cy kd.2) worldSeed).1 = true)
       registry.

(** The biomes that [classifyBiome] distinguishes. *)
Definition classified : list string :=
  [ "water"; "sand"; "snow"; "mountain"; "desert"; "forest"; "grass" ].

(** The character at row [i] and column [j] of a template. *)
Definition cell (template : list string) (i j : nat) : ascii :=
  chr (nth i template "") j.

(** What [generateChunk] leaves in the core fields of the tile at the world
    position [(wx, wy)] of a chunk whose structure type is [st]: a terrain
    tile, with a classified biome and at most an object that its biome
    admits, or a structure tile of that type. *)
Definition generated_tile (st : option string) (wx wy : Z) (t : Tile.t) : Prop :=
  Tile.x t = wx /\ Tile.y t = wy /\ Tile.roadType t = None
  /\ ((Tile.structure t = None /\ In (Tile.biome t) classified
       /\ match Tile.object t with
          | None => True
          | Some o =>
              (o = "tree" \/ o = "rock")
              /\ Scatter.isObjectValidForBiome o (Tile.biome t) = true
          end)
      \/ (exists ty,
            st = Some ty /\ Tile.structure t = Some ty /\ Tile.biome t = ty
            /\ (ty = "village" \/ ty = "dungeon") /\ Tile.object t = None
            /\ (ty = "village" -> Tile.elevation t = 0.5%float))).

(** The local coordinates of a chunk. *)
Definition in_chunk (i j : Z) : Prop :=
  0 <= i < CONFIG.CHUNK_SIZE /\ 0 <= j < CONFIG.CHUNK_SIZE.

(** The samplers of a flat world with the highest scatter density: grass,
    with a tree on every tile. *)
Definition wooded : Noise.functions :=
  {| Noise.elevation := fun _ _ => 0%float;
     Noise.temperature := fun _ _ => 0%float;
     Noise.humidity := fun _ _ => 0%float;
     Noise.scatter := fun _ _ => 1%float |}.

(** The samplers of a world under water. *)
Definition sea : Noise.functions :=
  {| Noise.elevation := fun _ _ => (-1)%float;
     Noise.temperature := fun _ _ => 0%float;
     Noise.humidity := fun _ _ => 0%float;
     Noise.scatter := fun _ _ => 1%float |}.

(** [structureType] when [generateChunk] reaches its tile loops. *)
Definition structureTypeOf (cx cy worldSeed : Z) (registry : Chunk.Registry)
  : option string :=
  let '(structureType, registry1) := Chunk.placeStructure cx cy worldSeed registry in
  Chunk.adopt structureType (Chunk.nearby cx cy registry1).

(** The [n]-th number that a random stream returns, from 0. *)
Fixpoint stream (g : Seed.rng) (n : nat) : float :=
  match n with
  | O => (Seed.next g).1
  | S n' => stream (Seed.next g).2 n'
  end.

(** The test of the loop "check for nearby structures" on an entry of the
    registry. *)
Definition near (cx cy : Z) (kd : (Z * Z) * Chunk.StructureRecord) : bool :=
  (Z.abs (cx - Chunk.cx kd.2) <=? 1) && (Z.abs (cy - Chunk.cy kd.2) <=? 1).

(** The chunks of the padded range that [renderWorld] visits. *)
Definition padded (range : Renderer.chunkRange) (cx cy : Z) : Prop :=
  Renderer.minChunkX range - CONFIG.RENDER_DISTANCE <= cx
    <= Renderer.maxChunkX range + CONFIG.RENDER_DISTANCE
  /\ Renderer.minChunkY range - CONFIG.RENDER_DISTANCE <= cy
       <= Renderer.maxChunkY range + CONFIG.RENDER_DISTANCE.

(** The centre that [renderWorld] passes to [unloadDistantChunks]. *)
Definition centre (range : Renderer.chunkRange) : Z * Z :=
  (Renderer.minChunkX range
   + (Renderer.maxChunkX range - Renderer.minChunkX range) / 2,
   Renderer.minChunkY range
   + (Renderer.maxChunkY range - Renderer.minChunkY range) / 2).

(** A cache whose chunks all have the tiles that [renderWorld] reads. *)
Definition readable_cache (cache : Chunk.ChunkCache) : Prop :=
  forall k chunk, Chunk.chunks cache !! k = Some chunk -> Renderer.readable chunk = true.

(** The neighbor [{ dx, dy, bit }] of [(localX, localY)] exists and the
    center can transition to its biome. *)
Definition compatible (chunkTiles : Tile.grid) (centerBiome : string)
    (localX localY : Z) (n : Z * Z * Z) : bool :=
  match Tile.get chunkTiles (localX + n.1.1) (localY + n.1.2) with
  | Some neighborTile => Autotile.canTransition centerBiome (Tile.biome neighborTile)
  | None => false
  end.

(** The biomes of the neighbors that exist, under their direction names, in
    the order of the loop. *)
Definition neighborBiomesOf (chunkTiles : Tile.grid) (localX localY : Z)
  : list (string * string) :=
  flat_map
    (fun n : Z * Z * Z =>
       match Tile.get chunkTiles (localX + n.1.1) (localY + n.1.2) with
       | Some neighborTile => [ (Autotile.directionName n.2, Tile.biome neighborTile) ]
       | None => []
       end)
    Autotile.neighbors.

(** What autotiling writes on the tile [t] at [(i, j)] when its neighbors
    are read from the grid [g0]. *)
Definition autotiled (g0 : Tile.grid) (i j : Z) (t : Tile.t) : Tile.t :=
  match Tile.structure t with
  | Some _ => Tile.set_tileVariant Tile.Null t
  | None =>
      match Autotile.calculateTileMask t g0 i j with
      | Some (mask, neighborBiomes) =>
          Tile.set_tileMask (Some mask)
            (Tile.set_tileVariant (Autotile.slot (Autotile.getVariantFromMask mask))
               (Tile.set_neighborBiomes (Some neighborBiomes) t))
      | None => t
      end
  end.

(** The positions that the loops of [applyChunkAutotiling] have passed when
    they reach [(x, y)]. *)
Definition passed (x y : nat) (i j : Z) : bool :=
  (i <? Z.of_nat x) || ((i =? Z.of_nat x) && (j <? Z.of_nat y)).

(** A grid of three columns of three tiles around a grass tile: sand to
    the north, a dungeon tile to the north-east, mountain to the east, grass
    to the south-east, a village tile (a structure) to the south, water to
    the south-west, forest to the west and grass to the north-west. *)
Definition patch : Tile.grid :=
  let tile (x y : Z) (biome : string) := Tile.set_biome biome (Tile.new x y) in
  [ [ tile 0 0 "grass"; tile 0 1 "forest"; tile 0 2 "water" ];
    [ tile 1 0 "sand"; tile 1 1 "grass";
      Tile.set_structure (Some "village") (tile 1 2 "village") ];
    [ tile 2 0 "dungeon"; tile 2 1 "mountain"; tile 2 2 "grass" ] ].

(** From the point [p] the line moves to [q]: a step to one of the eight
    tiles around [p]. *)
Definition step_to (p q : Z * Z) : Prop :=
  Z.abs (q.1 - p.1) <= 1 /\ Z.abs (q.2 - p.2) <= 1 /\ q <> p.

(** The points [pts] follow [p], step by step. *)
Fixpoint chain (p : Z * Z) (pts : list (Z * Z)) : Prop :=
  match pts with
  | [] => True
  | q :: pts' => step_to p q /\ chain q pts'
  end.

(** The tile [t'] is the tile [t], or [t] with the road tag [roadType] in
    place of [null]. *)
Definition retagged (roadType : string) (t t' : Tile.t) : Prop :=
  t' = t \/ (Tile.roadType t = None /\ t' = Tile.set_roadType (Some roadType) t).

(** The road type that [rasterizeroads] writes. *)
Definition roadTypeOf (opts : Road.options) : string :=
  match Road.roadType opts with
  | Some s => if JS.truthy s then s else "road"
  | None => "road"
  end.

(** A map of three columns of four tiles, and a graph of one edge from
    (0, 0) to (3, 1). *)
Definition field : Tile.grid :=
  let tile := Tile.new 0 0 in
  [ [tile; tile; tile; tile]; [tile; tile; tile; tile]; [tile; tile; tile; tile] ].

Definition lane : Road.RoadGraph :=
  {| Road.centerX := 0; Road.centerY := 0;
     Road.nodes := [ {| Road.x := 0; Road.y := 0 |}; {| Road.x := 3; Road.y := 1 |} ];
     Road.edges := [ {| Road.from := 0; Road.to := 1 |} ] |}.

(** The stream seeded with [seed] adds its increment exactly for [calls]
    calls: the captured number stays within 2^53, where binary64 holds
    every integer. *)
Definition exact_stream (seed : Z) (calls : nat) : Prop :=
  Z.abs seed + Z.of_nat calls * 0x6d2b79f5 <= 2 ^ 53.

(** The two seeds that [generateChunk] derives from [worldSeed] for the
    chunk [(cx, cy)] are computed exactly, and so are the three calls on the
    stream of the grid cell and the two calls on the stream of the
    template. *)
Definition exact_seeds (cx cy worldSeed : Z) : Prop :=
  Z.abs worldSeed + Z.abs (Chunk.gridOf cx) * 918273
    + Z.abs (Chunk.gridOf cy) * 192837 + 3 * 0x6d2b79f5 <= 2 ^ 53
  /\ Z.abs worldSeed + Z.abs cx * 123456 + Z.abs cy * 789012
       + 2 * 0x6d2b79f5 <= 2 ^ 53.

(* ================================================================== *)
(** * Properties                                                        *)
(* ================================================================== *)

(* ------------------------------------------------------------------ *)
(** ** Numbers and random streams                                       *)
(* ------------------------------------------------------------------ *)

(** The first numbers of the streams seeded with 0 and with 12345. *)
Example mulberry32_first_numbers :
  (Seed.next (Seed.createSeededRandom 0)).1 = 0.26642920868471265%float
  /\ (Seed.next (Seed.createSeededRandom 12345)).1 = 0.9797282677609473%float.
Proof. split; reflexivity. Qed.

Example Math_floor_examples :
  JS.Math_floor 2.7 = 2 /\ JS.Math_floor (-0.5) = -1 /\ JS.Math_floor (-2) = -2
  /\ JS.Math_floor (0.9797282677609473 * 4) = 3.
Proof. repeat split. Qed.

Example imul_wraps : JS.imul 0x7fffffff 2 = -2 /\ JS.ushr (-1) 28 = 15.
Proof. split; reflexivity. Qed.

(* ------------------------------------------------------------------ *)
(** ** Biome classification                                             *)
(* ------------------------------------------------------------------ *)

Section BiomeCascade.

Import Biome.

(** The binary64 values of the elevation thresholds. *)
Lemma WATER_THRESHOLD_SF :
  Prim2SF CONFIG.WATER_THRESHOLD = S754_finite false 5404319552844595 (-54).
Proof. reflexivity. Qed.

Lemma SAND_THRESHOLD_SF :
  Prim2SF CONFIG.SAND_THRESHOLD = S754_finite false 6305039478318694 (-54).
Proof. reflexivity. Qed.

Lemma MOUNTAIN_THRESHOLD_SF :
  Prim2SF CONFIG.MOUNTAIN_THRESHOLD = S754_finite false 7205759403792794 (-53).
Proof. reflexivity. Qed.

Lemma SNOW_THRESHOLD_SF :
  Prim2SF CONFIG.SNOW_THRESHOLD = S754_finite false 8106479329266893 (-53).
Proof. reflexivity. Qed.

(** What a number above the snow threshold answers to the three tests that
    come before the snow test. *)
Lemma above_snow (e : float) :
  (CONFIG.SNOW_THRESHOLD <? e)%float = true ->
  (e <? CONFIG.WATER_THRESHOLD)%float = false
  /\ (e <? CONFIG.SAND_THRESHOLD)%float = false
  /\ (CONFIG.MOUNTAIN_THRESHOLD <? e)%float = true.
Proof.
  rewrite !FloatAxioms.ltb_spec, WATER_THRESHOLD_SF, SAND_THRESHOLD_SF,
    MOUNTAIN_THRESHOLD_SF, SNOW_THRESHOLD_SF.
  unfold SFltb, SFcompare.
  destruct (Prim2SF e) as [s | s | | s m ex]; try discriminate.
  - destruct s; [discriminate | auto].
  - destruct s; [discriminate |].
    destruct (Z.compare_spec (-53) ex) as [<- | Hlt | Hgt]; try discriminate.
    + simpl Z.compare.
      destruct (Pos.compare_cont Eq 8106479329266893 m) eqn:Hm;
        try discriminate.
      change (8106479329266893 < m)%positive in Hm.
      intros _. repeat split.
      replace (Pos.compare_cont Eq 7205759403792794 m) with Lt; [reflexivity |].
      symmetry. change (7205759403792794 < m)%positive. lia.
    + intros _.
      replace (ex ?= -54) with Gt by (symmetry; apply Z.compare_gt_iff; lia).
      repeat split.
Qed.

End BiomeCascade.

(** C8. [classifyBiome] answers by its first matching test: whatever the
    temperature and the humidity, an elevation below [WATER_THRESHOLD]
    gives "water" and an elevation above [SNOW_THRESHOLD] gives "snow"; so
    do the elevations 0.1 and 0.95. *)
Theorem classifyBiome_cascade (elevation temperature humidity : float) :
  ((elevation <? CONFIG.WATER_THRESHOLD)%float = true ->
   Biome.classifyBiome elevation temperature humidity = "water")
  /\ ((CONFIG.SNOW_THRESHOLD <? elevation)%float = true ->
      Biome.classifyBiome elevation temperature humidity = "snow")
  /\ Biome.classifyBiome 0.1 temperature humidity = "water"
  /\ Biome.classifyBiome 0.95 temperature humidity = "snow".
Proof.
  unfold Biome.classifyBiome. split; [| split; [| split]].
  - intros ->. reflexivity.
  - intros H. destruct (above_snow _ H) as (Hw & Hs & Hm).
    rewrite Hw, Hs, Hm, H. reflexivity.
  - reflexivity.
  - reflexivity.
Qed.

Lemma classifyBiome_cascade_witness :
  Biome.classifyBiome 0.2 0.9 0.1 = "water"
  /\ Biome.classifyBiome 0.97 0.9 0.1 = "snow".
Proof.
  split.
  - exact (proj1 (classifyBiome_cascade 0.2 0.9 0.1) eq_refl).
  - exact (proj1 (proj2 (classifyBiome_cascade 0.97 0.9 0.1)) eq_refl).
Defined.

(** The later tests of the cascade, at a middle elevation. *)
Example classifyBiome_examples :
  Biome.classifyBiome 0.5 0.5 0.5 = "grass"
  /\ Biome.classifyBiome 0.5 0.8 0.2 = "desert"
  /\ Biome.classifyBiome 0.5 0.2 0.5 = "snow"
  /\ Biome.classifyBiome 0.5 0.5 0.7 = "forest"
  /\ Biome.classifyBiome 0.32 0.5 0.5 = "sand"
  /\ Biome.classifyBiome 0.85 0.5 0.5 = "mountain".
Proof. repeat split. Qed.

(* ------------------------------------------------------------------ *)
(** ** Structure placement rules                                        *)
(* ------------------------------------------------------------------ *)

(** C9, as stated, fails: a village is also accepted on the biome
    "grassland", which is neither "grass" nor "forest". *)
Lemma canPlaceStructure_village_grassland :
  ~ (Structure.canPlaceStructure "village" "grassland" false = true
     <-> ("grassland" = "grass" \/ "grassland" = "forest")).
Proof.
  intros [H _]. destruct (H eq_refl) as [E | E]; discriminate E.
Qed.

(** C9, amended. [canPlaceStructure] accepts a village exactly when
    [isWater] is false and the biome is "grass", "forest" or "grassland";
    it accepts a dungeon exactly when [isWater] is false and the biome is
    not "water"; it rejects every type when [isWater] is true. *)
Theorem canPlaceStructure_rules (structureType biomeName : string) (isWater : bool) :
  (Structure.canPlaceStructure "village" biomeName isWater = true
   <-> isWater = false
       /\ (biomeName = "grass" \/ biomeName = "forest" \/ biomeName = "grassland"))
  /\ (Structure.canPlaceStructure "dungeon" biomeName isWater = true
      <-> isWater = false /\ biomeName <> "water")
  /\ Structure.canPlaceStructure structureType biomeName true = false.
Proof.
  unfold Structure.canPlaceStructure. simpl.
  split; [| split; [| reflexivity]].
  - destruct isWater.
    + split; [discriminate | intros [E _]; discriminate E].
    + destruct (String.eqb_spec biomeName "grass") as [-> | Hg];
        [split; auto |].
      destruct (String.eqb_spec biomeName "forest") as [-> | Hf];
        [split; auto |].
      destruct (String.eqb_spec biomeName "grassland") as [-> | Hl];
        [split; auto |].
      simpl. split; [discriminate |].
      intros [_ [E | [E | E]]]; congruence.
  - destruct isWater.
    + split; [discriminate | intros [E _]; discriminate E].
    + destruct (String.eqb_spec biomeName "water") as [-> | Hw]; simpl.
      * split; [discriminate | intros [_ E]; congruence].
      * split; auto.
Qed.

(* ------------------------------------------------------------------ *)
(** ** Rotation of templates                                            *)
(* ------------------------------------------------------------------ *)

Section RotateTemplate.

Import Structure.

Lemma string_app_assoc (a b c : string) : ((a ++ b) ++ c = a ++ (b ++ c))%string.
Proof.
  induction a as [| x a IH]; [reflexivity |].
  change (String x ((a ++ b) ++ c) = String x (a ++ (b ++ c)))%string.
  f_equal. exact IH.
Qed.

Lemma string_app_nil_r (a : string) : (a ++ "")%string = a.
Proof.
  induction a as [| x a IH]; [reflexivity |].
  change (String x (a ++ "") = String x a)%string. f_equal. exact IH.
Qed.

Lemma get_string_of_list (l : list ascii) (i : nat) :
  String.get i (string_of_list_ascii l) = nth_error l i.
Proof.
  revert i. induction l as [| c l IH]; intros [| i]; simpl; auto.
Qed.

Lemma length_string_of_list (l : list ascii) :
  String.length (string_of_list_ascii l) = length l.
Proof. induction l; simpl; auto. Qed.

Lemma get_chr (s : string) (i : nat) :
  (i < String.length s)%nat -> String.get i s = Some (chr s i).
Proof.
  unfold chr. revert i. induction s as [| c s IH]; intros i Hi; simpl in *.
  - lia.
  - destruct i as [| i]; [reflexivity |]. apply IH. lia.
Qed.

Lemma get_beyond (s : string) (i : nat) :
  (String.length s <= i)%nat -> String.get i s = None.
Proof.
  revert i. induction s as [| c s IH]; intros i Hi; simpl in *.
  - now destruct i.
  - destruct i as [| i]; [lia |]. apply IH. lia.
Qed.

(** A loop that appends one character per iteration builds the string of
    these characters. *)
Lemma fold_chars (c : nat -> ascii) (g : nat -> string) (l : list nat) (acc : string) :
  (forall x, In x l -> g x = String (c x) "") ->
  fold_left (fun row x => (row ++ g x)%string) l acc
  = (acc ++ string_of_list_ascii (map c l))%string.
Proof.
  revert acc. induction l as [| x l IH]; intros acc Hg; simpl.
  - now rewrite string_app_nil_r.
  - rewrite IH by (intros; apply Hg; now right).
    rewrite (Hg x) by now left.
    now rewrite string_app_assoc.
Qed.

Variable n : nat.

Lemma square_row (t : list string) (i : nat) :
  square n t -> (i < n)%nat -> String.length (nth i t "") = n.
Proof.
  intros [Hl Hr] Hi. rewrite List.Forall_forall in Hr. apply Hr.
  apply nth_In. lia.
Qed.

Lemma rotate_row_chars (t : list string) (y : nat) :
  square n t -> (y < n)%nat ->
  rotate_row t n y
  = string_of_list_ascii (map (fun x => chr (nth (n - x - 1) t "") y) (seq 0 n)).
Proof.
  intros Hsq Hy. unfold rotate_row.
  rewrite (fold_chars (fun x => chr (nth (n - x - 1) t "") y)); [reflexivity |].
  intros x Hx. apply in_seq in Hx. unfold JS.index_str.
  rewrite get_chr; [reflexivity |].
  rewrite square_row; auto. lia.
Qed.

Lemma rotate_once_nth (t : list string) (y : nat) :
  square n t -> (y < n)%nat ->
  nth y (rotate_once t) "" = rotate_row t n y.
Proof.
  intros Hsq Hy. unfold rotate_once. destruct Hsq as [Hl Hr]. rewrite Hl.
  rewrite (nth_indep _ "" (rotate_row t n 0)) by (rewrite length_map, length_seq; lia).
  rewrite map_nth, seq_nth by lia. reflexivity.
Qed.

Lemma rotate_once_square (t : list string) : square n t -> square n (rotate_once t).
Proof.
  intros Hsq. split.
  - unfold rotate_once. destruct Hsq as [-> _]. now rewrite length_map, length_seq.
  - apply List.Forall_forall. intros row Hrow. unfold rotate_once in Hrow.
    destruct Hsq as [Hl Hr] eqn:E. rewrite Hl in Hrow.
    apply in_map_iff in Hrow as (y & <- & Hy). apply in_seq in Hy.
    rewrite rotate_row_chars by (auto; lia).
    now rewrite length_string_of_list, length_map, length_seq.
Qed.

(** The cell [(y, x)] of the rotated grid is the cell [(n - 1 - x, y)]. *)
Lemma rotate_once_chr (t : list string) (x y : nat) :
  square n t -> (x < n)%nat -> (y < n)%nat ->
  chr (nth y (rotate_once t) "") x = chr (nth (n - x - 1) t "") y.
Proof.
  intros Hsq Hx Hy. rewrite rotate_once_nth, rotate_row_chars by auto.
  unfold chr at 1. rewrite get_string_of_list.
  rewrite nth_error_map, nth_error_nth' with (d := 0%nat) by (rewrite length_seq; lia).
  rewrite seq_nth by lia. reflexivity.
Qed.

Lemma square_ext (t1 t2 : list string) :
  square n t1 -> square n t2 ->
  (forall i j, (i < n)%nat -> (j < n)%nat ->
               chr (nth i t1 "") j = chr (nth i t2 "") j) ->
  t1 = t2.
Proof.
  intros H1 H2 Hc. apply (nth_ext _ _ "" "").
  - destruct H1 as [-> _], H2 as [-> _]. reflexivity.
  - intros i Hi. assert (i < n)%nat by (destruct H1 as [<- _]; exact Hi).
    apply get_correct. intros j.
    destruct (Nat.lt_ge_cases j n) as [Hj | Hj].
    + rewrite !get_chr by (rewrite square_row; auto). now rewrite Hc.
    + rewrite !get_beyond by (rewrite square_row; auto). reflexivity.
Qed.

Lemma rotate_four (t : list string) :
  square n t -> rotate_once (rotate_once (rotate_once (rotate_once t))) = t.
Proof.
  intros Hsq.
  pose proof (rotate_once_square _ Hsq) as H1.
  pose proof (rotate_once_square _ H1) as H2.
  pose proof (rotate_once_square _ H2) as H3.
  pose proof (rotate_once_square _ H3) as H4.
  apply square_ext; auto. intros i j Hi Hj.
  rewrite rotate_once_chr by auto.
  rewrite rotate_once_chr by (auto; lia).
  rewrite rotate_once_chr by (auto; lia).
  rewrite rotate_once_chr by (auto; lia).
  f_equal; [f_equal |]; lia.
Qed.

End RotateTemplate.

(** C10. On a square character grid [rotateTemplate] counts its rotations
    modulo 4: 4 rotations and 0 rotations return the template, four single
    rotations in a row return a template equal to it row for row, and [k]
    rotations are [k mod 4] rotations. *)
Theorem rotateTemplate_mod4 (n : nat) (template : list string) :
  square n template ->
  Structure.rotateTemplate template 4 = template
  /\ Structure.rotateTemplate template 0 = template
  /\ Structure.rotateTemplate
       (Structure.rotateTemplate
          (Structure.rotateTemplate (Structure.rotateTemplate template 1) 1) 1) 1
     = template
  /\ (forall k, 0 <= k ->
        Structure.rotateTemplate template k
        = Structure.rotateTemplate template (k mod 4)).
Proof.
  intros Hsq. split; [reflexivity |]. split; [reflexivity |]. split.
  - exact (rotate_four n template Hsq).
  - intros k Hk. unfold Structure.rotateTemplate.
    rewrite (Z.rem_mod_nonneg k 4) by lia.
    rewrite (Z.rem_mod_nonneg (k mod 4) 4) by (pose proof (Z.mod_pos_bound k 4); lia).
    now rewrite Z.mod_mod by lia.
Qed.

Lemma rotateTemplate_mod4_witness :
  Structure.rotateTemplate
    (Structure.rotateTemplate
       (Structure.rotateTemplate
          (Structure.rotateTemplate
             [ "..D.."; ".DDD."; "DDDDD"; ".DDD."; "..D.." ] 1) 1) 1) 1
  = [ "..D.."; ".DDD."; "DDDDD"; ".DDD."; "..D.." ].
Proof.
  refine (proj1 (proj2 (proj2 (rotateTemplate_mod4 5 _ _)))).
  split; [reflexivity | repeat constructor].
Defined.

Example scaleTemplate_example :
  Structure.scaleTemplate [ "ab"; "cd" ] 2 = [ "aabb"; "aabb"; "ccdd"; "ccdd" ]
  /\ Structure.scaleTemplate [ "ab"; "cd" ] 1 = [ "ab"; "cd" ].
Proof. split; reflexivity. Qed.

(** A single rotation turns the grid clockwise. *)
Example rotateTemplate_clockwise :
  Structure.rotateTemplate [ "ab"; "cd" ] 1 = [ "ca"; "db" ]
  /\ Structure.rotateTemplate [ "ab"; "cd" ] 5 = [ "ca"; "db" ]
  /\ Structure.rotateTemplate [ "ab"; "cd" ] (-1) = [ "ab"; "cd" ].
Proof. repeat split. Qed.

(* ------------------------------------------------------------------ *)
(** ** Grids                                                            *)
(* ------------------------------------------------------------------ *)

Section Grids.

Lemma index_Some {A} (l : list A) (i : Z) (a : A) :
  JS.index l i = Some a <-> 0 <= i /\ l !! Z.to_nat i = Some a.
Proof.
  unfold JS.index. destruct (Z.ltb_spec i 0); split.
  - discriminate.
  - intros [? _]. lia.
  - auto.
  - now intros [_ ?].
Qed.

Lemma index_bounds {A} (l : list A) (i : Z) (a : A) :
  JS.index l i = Some a -> 0 <= i < Z.of_nat (length l).
Proof.
  intros [Hi Hl]%index_Some. apply lookup_lt_Some in Hl. lia.
Qed.

Lemma index_in_range {A} (l : list A) (i : Z) :
  0 <= i < Z.of_nat (length l) -> exists a, JS.index l i = Some a.
Proof.
  intros Hi. destruct (lookup_lt_is_Some_2 l (Z.to_nat i)) as [a Ha]; [lia |].
  exists a. apply index_Some. split; [lia | exact Ha].
Qed.

Lemma get_Some (g : Tile.grid) (i j : Z) (t : Tile.t) :
  Tile.get g i j = Some t
  <-> exists col, JS.index g i = Some col /\ JS.index col j = Some t.
Proof.
  unfold Tile.get. destruct (JS.index g i) as [col |]; simpl.
  - split; [eauto | now intros (? & [= <-] & ?)].
  - split; [discriminate | now intros (? & [=] & _)].
Qed.

Variable h : nat.

Lemma rectangular_col (g : Tile.grid) (i : Z) (col : list Tile.t) :
  rectangular h g -> JS.index g i = Some col -> length col = h.
Proof.
  intros Hr [_ Hc]%index_Some.
  exact (proj1 (Forall_lookup _ _) Hr _ _ Hc).
Qed.

Lemma rectangular_height0 (g : Tile.grid) :
  rectangular h g -> g <> [] -> Autotile.height0 g = Some (Z.of_nat h).
Proof.
  intros Hr Hg. destruct g as [| row g]; [congruence |].
  simpl. apply Forall_cons in Hr as [-> _]. reflexivity.
Qed.

Lemma get_bounds (g : Tile.grid) (i j : Z) (t : Tile.t) :
  rectangular h g -> Tile.get g i j = Some t ->
  0 <= i < Z.of_nat (length g) /\ 0 <= j < Z.of_nat h.
Proof.
  intros Hr (col & Hc & Ht)%get_Some. split.
  - eapply index_bounds; eauto.
  - rewrite <- (rectangular_col _ _ _ Hr Hc). eapply index_bounds; eauto.
Qed.

Lemma get_in_range (g : Tile.grid) (i j : Z) :
  rectangular h g -> 0 <= i < Z.of_nat (length g) -> 0 <= j < Z.of_nat h ->
  exists t, Tile.get g i j = Some t.
Proof.
  intros Hr Hi Hj. destruct (index_in_range g i Hi) as [col Hc].
  destruct (index_in_range col j) as [t Ht].
  { now rewrite (rectangular_col _ _ _ Hr Hc). }
  exists t. apply get_Some. eauto.
Qed.

End Grids.

(* ------------------------------------------------------------------ *)
(** ** Autotile masks                                                   *)
(* ------------------------------------------------------------------ *)

Section Masks.

Import Autotile.

Variable h : nat.
Variable chunkTiles : Tile.grid.
Hypothesis Hrect : rectangular h chunkTiles.
Variable centerBiome : string.
Variables localX localY : Z.

(** A neighbor that exists passes the bounds test. *)
Lemma mask_step_present (mask : Z) (nb : list (string * string)) (dx dy bit : Z)
    (neighborTile : Tile.t) :
  Tile.get chunkTiles (localX + dx) (localY + dy) = Some neighborTile ->
  mask_step centerBiome chunkTiles localX localY (mask, nb) (dx, dy, bit)
  = Some (if canTransition centerBiome (Tile.biome neighborTile)
          then Z.lor mask (Z.shiftl 1 bit) else mask,
          (nb ++ [(directionName bit, Tile.biome neighborTile)])%list).
Proof.
  intros Hget. unfold mask_step.
  destruct (get_bounds h _ _ _ _ Hrect Hget) as [Hx Hy].
  rewrite (rectangular_height0 h _ Hrect)
    by (intros ->; simpl in Hx; lia).
  replace (0 <=? localX + dx) with true by (symmetry; apply Z.leb_le; lia).
  replace (localX + dx <? Z.of_nat (length chunkTiles)) with true
    by (symmetry; apply Z.ltb_lt; lia).
  replace (0 <=? localY + dy) with true by (symmetry; apply Z.leb_le; lia).
  replace (localY + dy <? Z.of_nat h) with true by (symmetry; apply Z.ltb_lt; lia).
  simpl. rewrite Hget.
  now destruct (canTransition centerBiome (Tile.biome neighborTile)).
Qed.

(** A neighbor that does not exist fails the bounds test. *)
Lemma mask_step_absent (mask : Z) (nb : list (string * string)) (dx dy bit : Z) :
  Tile.get chunkTiles (localX + dx) (localY + dy) = None ->
  mask_step centerBiome chunkTiles localX localY (mask, nb) (dx, dy, bit)
  = Some (mask, nb).
Proof.
  intros Hget. unfold mask_step.
  destruct ((0 <=? localX + dx) && (localX + dx <? Z.of_nat (length chunkTiles))
            && (0 <=? localY + dy)
            && match height0 chunkTiles with
               | Some h0 => localY + dy <? h0
               | None => false
               end) eqn:Hb; [| reflexivity].
  exfalso.
  apply andb_prop in Hb as [Hb Hy2]. apply andb_prop in Hb as [Hb Hy1].
  apply andb_prop in Hb as [Hx1 Hx2].
  apply Z.leb_le in Hx1, Hy1. apply Z.ltb_lt in Hx2.
  rewrite (rectangular_height0 h _ Hrect) in Hy2
    by (intros ->; simpl in Hx2; lia).
  apply Z.ltb_lt in Hy2.
  destruct (get_in_range h chunkTiles (localX + dx) (localY + dy)) as [t Ht];
    auto; congruence.
Qed.

Lemma canTransition_refl (b : string) : canTransition b b = true.
Proof. unfold canTransition. now rewrite String.eqb_refl. Qed.

Lemma mask_all_same (l : list (Z * Z * Z)) (mask : Z) (nb : list (string * string)) :
  all_same chunkTiles centerBiome localX localY l ->
  exists nb',
    JS.for_each (mask_step centerBiome chunkTiles localX localY) l (mask, nb)
    = Some (fold_left (fun m n => Z.lor m (Z.shiftl 1 n.2)) l mask, nb').
Proof.
  revert mask nb. induction l as [| [[dx dy] bit] l IH]; intros mask nb Hall.
  - exists nb. reflexivity.
  - apply Forall_cons in Hall as [(t & Hget & Hb) Hall]. simpl in Hget.
    cbn [JS.for_each fold_left snd].
    rewrite (mask_step_present _ _ _ _ _ _ Hget), Hb, canTransition_refl.
    apply IH, Hall.
Qed.

Lemma mask_none_compatible (l : list (Z * Z * Z)) (mask : Z)
    (nb : list (string * string)) :
  none_compatible chunkTiles centerBiome localX localY l ->
  exists nb',
    JS.for_each (mask_step centerBiome chunkTiles localX localY) l (mask, nb)
    = Some (mask, nb').
Proof.
  revert nb. induction l as [| [[dx dy] bit] l IH]; intros nb Hnone.
  - exists nb. reflexivity.
  - apply Forall_cons in Hnone as [Hn Hnone]. simpl in Hn. cbn [JS.for_each].
    destruct (Tile.get chunkTiles (localX + dx) (localY + dy)) as [t |] eqn:Hget.
    + rewrite (mask_step_present _ _ _ _ _ _ Hget), (Hn _ eq_refl).
      apply IH, Hnone.
    + rewrite (mask_step_absent _ _ _ _ _ Hget). apply IH, Hnone.
Qed.

End Masks.

Example canTransition_examples :
  Autotile.canTransition "grass" "forest" = true
  /\ Autotile.canTransition "grass" "grassland" = true
  /\ Autotile.canTransition "water" "grass" = false
  /\ Autotile.canTransition "dungeon" "grass" = false.
Proof. repeat split. Qed.

(** The variant of the mask [0xFF], which a tile whose neighbors all have
    its biome gets, is not the variant that the masks without an entry fall
    back to. *)
Lemma getVariantFromMask_fallback_differs :
  Autotile.lookup Autotile.TILE_VARIANTS 0x11 = None
  /\ Autotile.getVariantFromMask 0x11 = Some (Autotile.mk "full" 1)
  /\ Autotile.getVariantFromMask 0xff = Some (Autotile.mk "corners" 2)
  /\ Autotile.getVariantFromMask 0x11 <> Autotile.getVariantFromMask 0xff.
Proof. repeat split. discriminate. Qed.

(** The masks as the code computes them.  On a rectangular grid: a tile
    whose 8 neighbors all exist and have its biome gets the mask [0xFF],
    which resolves to the entry "corners" of the table; a tile none of
    whose neighbors is compatible gets the mask [0x00]; and a mask without
    an entry in the table resolves to the entry "full" of [0x00], the
    variant of a tile without compatible neighbors. *)
Theorem autotile_mask_rules (h : nat) (chunkTiles : Tile.grid) (centerTile : Tile.t)
    (localX localY mask : Z) :
  rectangular h chunkTiles ->
  (all_same chunkTiles (Tile.biome centerTile) localX localY Autotile.neighbors ->
   (exists nb,
      Autotile.calculateTileMask centerTile chunkTiles localX localY = Some (0xff, nb))
   /\ Autotile.getVariantFromMask 0xff = Some (Autotile.mk "corners" 2))
  /\ (none_compatible chunkTiles (Tile.biome centerTile) localX localY Autotile.neighbors ->
      exists nb,
        Autotile.calculateTileMask centerTile chunkTiles localX localY = Some (0x00, nb))
  /\ (Autotile.lookup Autotile.TILE_VARIANTS mask = None ->
      Autotile.getVariantFromMask mask = Some (Autotile.mk "full" 1))
  /\ Autotile.getVariantFromMask 0x00 = Some (Autotile.mk "full" 1).
Proof.
  intros Hrect. split; [| split; [| split]].
  - intros Hall. split; [| reflexivity].
    destruct (mask_all_same h _ Hrect _ _ _ _ 0 [] Hall) as [nb Hnb].
    exists nb. exact Hnb.
  - intros Hnone.
    exact (mask_none_compatible h _ Hrect _ _ _ _ 0 [] Hnone).
  - intros Hm. unfold Autotile.getVariantFromMask. rewrite Hm.
    destruct (Z.eqb_spec mask 255) as [-> | _]; [discriminate Hm |].
    now destruct (mask =? 0).
  - reflexivity.
Qed.

(** A meadow of grass, and a snow tile alone in the grass. *)
Lemma autotile_mask_rules_witness :
  let grass := Tile.set_biome "grass" (Tile.new 0 0) in
  let snow := Tile.set_biome "snow" (Tile.new 0 0) in
  let meadow := [ [grass; grass; grass]; [grass; grass; grass]; [grass; grass; grass] ] in
  let peak := [ [grass; grass; grass]; [grass; snow; grass]; [grass; grass; grass] ] in
  (exists nb, Autotile.calculateTileMask grass meadow 1 1 = Some (0xff, nb))
  /\ (exists nb, Autotile.calculateTileMask snow peak 1 1 = Some (0x00, nb))
  /\ Autotile.getVariantFromMask 0x30 = Some (Autotile.mk "full" 1).
Proof.
  intros grass snow meadow peak. split; [| split].
  - refine (proj1 (proj1 (autotile_mask_rules 3 meadow grass 1 1 0 _) _)).
    + repeat constructor.
    + repeat (constructor; [exists grass; split; reflexivity |]). constructor.
  - refine (proj1 (proj2 (autotile_mask_rules 3 peak snow 1 1 0 _)) _).
    + repeat constructor.
    + repeat (constructor; [intros t [= <-]; reflexivity |]). constructor.
  - refine (proj1 (proj2 (proj2 (autotile_mask_rules 0 [] (Tile.new 0 0) 0 0 0x30 _))) _).
    + constructor.
    + reflexivity.
Defined.

(** C6. The mask and the table of variants have opposite polarities.
    [calculateTileMask] sets the bit of a neighbor that matches, so the
    center of a meadow of grass gets the mask [0xFF], and autotiling gives
    it the variant "corners"; the entry "full" of [0x00], which the table
    keeps for a tile whose neighbors are all the same and which is the
    default of the masks without an entry, goes to a tile none of whose
    neighbors matches, as the grass tile among dungeon tiles. *)
Theorem calculateTileMask_polarity :
  let grass := Tile.set_biome "grass" (Tile.new 0 0) in
  let dungeon := Tile.set_biome "dungeon" (Tile.new 0 0) in
  let meadow := [ [grass; grass; grass]; [grass; grass; grass]; [grass; grass; grass] ] in
  let cell :=
    [ [dungeon; dungeon; dungeon]; [dungeon; grass; dungeon];
      [dungeon; dungeon; dungeon] ] in
  let variantAt (g : Tile.grid) :=
    Tile.tileVariant <$> (Autotile.applyChunkAutotiling g ≫= fun g' => Tile.get g' 1 1) in
  fst <$> Autotile.calculateTileMask grass meadow 1 1 = Some 0xff
  /\ variantAt meadow = Some (Tile.Value (Autotile.mk "corners" 2))
  /\ fst <$> Autotile.calculateTileMask grass cell 1 1 = Some 0x00
  /\ variantAt cell = Some (Tile.Value (Autotile.mk "full" 1))
  /\ Autotile.lookup Autotile.TILE_VARIANTS 0x00 = Some (Autotile.mk "full" 1)
  /\ Autotile.lookup Autotile.TILE_VARIANTS 0x11 = None
  /\ Autotile.getVariantFromMask 0x11 = Some (Autotile.mk "full" 1).
Proof.
  cbv zeta. repeat split; vm_compute; reflexivity.
Qed.

(* ------------------------------------------------------------------ *)
(** ** Road graphs                                                      *)
(* ------------------------------------------------------------------ *)

Section RoadGraphs.

Import Road.

Variables Math_cos Math_sin : float -> float.

Lemma generate_step_count (centerX centerY : float)
    (st : list RoadNode * list RoadEdge * Seed.rng) :
  length st.1.1 = S (length st.1.2) ->
  let st' := generate_step Math_cos Math_sin centerX centerY st in
  length st'.1.1 = S (length st'.1.2).
Proof.
  destruct st as [[ns es] g]. unfold generate_step.
  destruct (Seed.seededRandomAngle g) as [angle g1].
  destruct (Seed.next g1) as [r g2]. destruct (Seed.next g2) as [r' g3].
  simpl. rewrite !length_app. simpl. lia.
Qed.

(** Whatever the stream draws, the graph has one edge less than nodes. *)
Lemma generateVillageRoadGraph_edge_count (centerX centerY : float) (seed : Z) :
  let graph := generateVillageRoadGraph Math_cos Math_sin centerX centerY seed in
  length (nodes graph) = S (length (edges graph)).
Proof.
  unfold generateVillageRoadGraph, newRoadGraph, generateGraph.
  destruct (Seed.next (Seed.createSeededRandom seed)) as [r g].
  set (k := Z.to_nat _). clearbody k.
  set (step := generate_step _ _ _ _).
  assert (H : length (Nat.iter k step ([newRoadNode centerX centerY], [], g)).1.1
              = S (length (Nat.iter k step ([newRoadNode centerX centerY], [], g)).1.2)).
  { induction k as [| k IH]; [reflexivity |].
    simpl. apply generate_step_count, IH. }
  destruct (Nat.iter k step _) as [[ns es] g']. exact H.
Qed.

End RoadGraphs.

(** C2, at the seed 1 and the center (0, 0): the graph has 8 nodes and 7
    edges, and the first node drawn is its own parent, as is the third; the
    edge list has two loops and leaves the center apart from the nodes 1, 2,
    3, 6 and 7. *)
Theorem generateVillageRoadGraph_self_loop (Math_cos Math_sin : float -> float) :
  let graph := Road.generateVillageRoadGraph Math_cos Math_sin 0 0 1 in
  length (Road.nodes graph) = 8%nat
  /\ map (fun e => (Road.from e, Road.to e)) (Road.edges graph)
     = [ (1, 1); (1, 2); (3, 3); (0, 4); (0, 5); (2, 6); (1, 7) ]
  /\ (exists e, In e (Road.edges graph) /\ Road.from e = Road.to e).
Proof.
  assert (E : map (fun e => (Road.from e, Road.to e))
                (Road.edges (Road.generateVillageRoadGraph Math_cos Math_sin 0 0 1))
              = [ (1, 1); (1, 2); (3, 3); (0, 4); (0, 5); (2, 6); (1, 7) ]).
  { vm_compute. reflexivity. }
  cbv zeta. split; [| split].
  - rewrite (generateVillageRoadGraph_edge_count Math_cos Math_sin 0 0 1).
    rewrite <- (length_map (fun e => (Road.from e, Road.to e))), E. reflexivity.
  - exact E.
  - destruct (Road.edges _) as [| e es]; [discriminate E |].
    exists e. split; [now left |]. now injection E as -> ->.
Qed.

(* ------------------------------------------------------------------ *)
(** ** Line drawing                                                     *)
(* ------------------------------------------------------------------ *)

Section Lines.

Context {St : Type} (callback : Z -> Z -> St -> St).

(** The loop folds the callback over the points of the line. *)
Lemma line_loop_points (fuel : nat) (x0 y0 x1 y1 dx dy sx sy err : Z) (s : St) :
  Road.line_loop callback fuel x0 y0 x1 y1 dx dy sx sy err s
  = (fun pts => fold_left (fun s p => callback p.1 p.2 s) pts s)
      <$> line_points fuel x0 y0 x1 y1 dx dy sx sy err.
Proof.
  revert x0 y0 err s. induction fuel as [| fuel IH]; intros x0 y0 err s.
  - reflexivity.
  - cbn [Road.line_loop line_points].
    destruct ((x0 =? x1) && (y0 =? y1)); [reflexivity |].
    destruct (- dy <? err * 2), (err * 2 <? dx); rewrite IH;
      match goal with
      | |- context [line_points ?f ?a ?b ?c ?d ?e ?g ?i ?j ?k] =>
          destruct (line_points f a b c d e g i j k); reflexivity
      end.
Qed.

End Lines.

Section LineTermination.

Variables x1 y1 dx dy sx sy : Z.
Hypothesis Hdx : 0 <= dx.
Hypothesis Hdy : 0 <= dy.
Hypothesis Hsx : sx = 1 \/ sx = -1.
Hypothesis Hsy : sy = 1 \/ sy = -1.

Lemma line_points_terminates (fuel : nat) (x0 y0 err rx ry : Z) :
  on_line x1 y1 dx dy sx sy x0 y0 err rx ry ->
  (Z.to_nat (rx + ry) < fuel)%nat ->
  exists pts, line_points fuel x0 y0 x1 y1 dx dy sx sy err = Some pts.
Proof.
  revert x0 y0 err rx ry.
  induction fuel as [| fuel IH]; intros x0 y0 err rx ry Hon Hfuel; [lia |].
  destruct Hon as (Hrx & Hry & Hx & Hy & Herr).
  cbn [line_points].
  destruct (Z.eqb_spec x0 x1) as [Ex | Ex], (Z.eqb_spec y0 y1) as [Ey | Ey];
    cbn [andb]; [eauto | | |].
  - (* only y remains *)
    assert (rx = 0) by nia. assert (0 < ry) by nia. subst rx.
    destruct (Z.ltb_spec (- dy) (err * 2)); [nia |].
    destruct (Z.ltb_spec (err * 2) dx); [| nia].
    destruct (IH x0 (y0 + sy) (err + dx) 0 (ry - 1)) as [pts Hpts];
      [unfold on_line; repeat split; nia | lia |].
    rewrite Hpts. eauto.
  - (* only x remains *)
    assert (ry = 0) by nia. assert (0 < rx) by nia. subst ry.
    destruct (Z.ltb_spec (- dy) (err * 2)); [| nia].
    destruct (Z.ltb_spec (err * 2) dx); [nia |].
    destruct (IH (x0 + sx) y0 (err - dy) (rx - 1) 0) as [pts Hpts];
      [unfold on_line; repeat split; nia | lia |].
    rewrite Hpts. eauto.
  - assert (0 < rx) by nia. assert (0 < ry) by nia.
    destruct (Z.ltb_spec (- dy) (err * 2)), (Z.ltb_spec (err * 2) dx).
    + destruct (IH (x0 + sx) (y0 + sy) (err - dy + dx) (rx - 1) (ry - 1))
        as [pts Hpts]; [unfold on_line; repeat split; nia | lia |].
      rewrite Hpts. eauto.
    + destruct (IH (x0 + sx) y0 (err - dy) (rx - 1) ry) as [pts Hpts];
        [unfold on_line; repeat split; nia | lia |].
      rewrite Hpts. eauto.
    + destruct (IH x0 (y0 + sy) (err + dx) rx (ry - 1)) as [pts Hpts];
        [unfold on_line; repeat split; nia | lia |].
      rewrite Hpts. eauto.
    + lia.
Qed.

End LineTermination.

(** Enough fuel: the loop of [drawLineOnGrid] reaches its [break]. *)
Lemma drawLineOnGrid_points {St} (callback : Z -> Z -> St -> St) (fuel : nat)
    (x0 y0 x1 y1 : Z) (s : St) :
  (Z.to_nat (Z.abs (x1 - x0) + Z.abs (y1 - y0)) < fuel)%nat ->
  exists pts,
    line_points fuel x0 y0 x1 y1 (Z.abs (x1 - x0)) (Z.abs (y1 - y0))
      (if x0 <? x1 then 1 else -1) (if y0 <? y1 then 1 else -1)
      (Z.abs (x1 - x0) - Z.abs (y1 - y0)) = Some pts
    /\ Road.drawLineOnGrid callback fuel x0 y0 x1 y1 s
       = Some (fold_left (fun s p => callback p.1 p.2 s) pts s).
Proof.
  intros Hfuel.
  destruct (line_points_terminates x1 y1 (Z.abs (x1 - x0)) (Z.abs (y1 - y0))
              (if x0 <? x1 then 1 else -1) (if y0 <? y1 then 1 else -1))
    with (fuel := fuel) (x0 := x0) (y0 := y0)
         (err := Z.abs (x1 - x0) - Z.abs (y1 - y0))
         (rx := Z.abs (x1 - x0)) (ry := Z.abs (y1 - y0)) as [pts Hpts];
    try lia.
  - destruct (x0 <? x1); auto.
  - destruct (y0 <? y1); auto.
  - unfold on_line. destruct (Z.ltb_spec x0 x1), (Z.ltb_spec y0 y1); repeat split; lia.
  - exists pts. split; [exact Hpts |].
    unfold Road.drawLineOnGrid. now rewrite line_loop_points, Hpts.
Qed.

(** The line from (0, 0) to (3, 1). *)
Example drawLineOnGrid_example :
  Road.drawLineOnGrid (fun x y l => (l ++ [(x, y)])%list) 5 0 0 3 1 []
  = Some [ (0, 0); (1, 0); (2, 1); (3, 1) ].
Proof. reflexivity. Qed.

(* ------------------------------------------------------------------ *)
(** ** Road rasterization                                               *)
(* ------------------------------------------------------------------ *)

Section Marks.

Lemma get_set (g : Tile.grid) (i j : nat) (v : Tile.t) (i' j' : Z) :
  Tile.get (Tile.set g i j v) i' j'
  = (fun t => if (i' =? Z.of_nat i) && (j' =? Z.of_nat j) then v else t)
      <$> Tile.get g i' j'.
Proof.
  unfold Tile.get, Tile.set, JS.index.
  destruct (Z.ltb_spec i' 0) as [| Hi]; [reflexivity |].
  rewrite list_lookup_alter.
  destruct (decide (i = Z.to_nat i')) as [-> | Hne].
  - replace (i' =? Z.of_nat (Z.to_nat i')) with true by (symmetry; apply Z.eqb_eq; lia).
    destruct (g !! Z.to_nat i') as [row |]; [| reflexivity]. simpl.
    destruct (Z.ltb_spec j' 0) as [| Hj]; [reflexivity |].
    rewrite list_lookup_insert.
    destruct (decide (j = Z.to_nat j' /\ (j < length row)%nat)) as [[-> Hlt] | Hn].
    + replace (j' =? Z.of_nat (Z.to_nat j')) with true
        by (symmetry; apply Z.eqb_eq; lia).
      destruct (lookup_lt_is_Some_2 row (Z.to_nat j') Hlt) as [t ->]. reflexivity.
    + destruct (row !! Z.to_nat j') as [t |] eqn:Ht; [| reflexivity]. simpl.
      destruct (Z.eqb_spec j' (Z.of_nat j)) as [-> |]; [| reflexivity].
      exfalso. apply Hn. apply lookup_lt_Some in Ht. lia.
  - replace (i' =? Z.of_nat i) with false by (symmetry; apply Z.eqb_neq; lia).
    destruct (g !! Z.to_nat i') as [row |]; [| reflexivity]. simpl.
    destruct (j' <? 0); [reflexivity |].
    now destruct (row !! Z.to_nat j').
Qed.

Variable roadType : string.

(** What a tile of the map is after [mark]. *)
Lemma get_mark (m : Tile.grid) (tx ty i j : Z) :
  Tile.get (Road.mark roadType m tx ty) i j
  = (fun t =>
       if (i =? ty) && (j =? tx)
          && (match Tile.roadType t with None => true | Some _ => false end)
       then Tile.set_roadType (Some roadType) t else t)
      <$> Tile.get m i j.
Proof.
  unfold Road.mark.
  destruct (Tile.get m ty tx) as [tile |] eqn:Hget.
  - pose proof Hget as (col & [Hty _]%index_Some & [Htx _]%index_Some)%get_Some.
    destruct (Tile.roadType tile) eqn:Hroad.
    + destruct (Tile.get m i j) as [t |] eqn:Ht; [| reflexivity]. simpl.
      destruct (Z.eqb_spec i ty) as [-> |]; [| reflexivity].
      destruct (Z.eqb_spec j tx) as [-> |]; [| reflexivity].
      replace t with tile by congruence. now rewrite Hroad.
    + rewrite get_set, !Z2Nat.id by lia.
      destruct (Tile.get m i j) as [t |] eqn:Ht; [| reflexivity]. simpl.
      destruct (Z.eqb_spec i ty) as [-> |]; [| reflexivity].
      destruct (Z.eqb_spec j tx) as [-> |]; [| reflexivity].
      replace t with tile by congruence. now rewrite Hroad.
  - destruct (Tile.get m i j) as [t |] eqn:Ht; [| reflexivity]. simpl.
    destruct (Z.eqb_spec i ty) as [-> |]; [| reflexivity].
    destruct (Z.eqb_spec j tx) as [-> |]; [| reflexivity].
    congruence.
Qed.

Lemma mark_painted_self (m : Tile.grid) (c : Z * Z) : painted (markc roadType m c) c.
Proof.
  unfold painted, markc. rewrite get_mark.
  destruct (Tile.get m c.2 c.1) as [t |]; simpl; [| exact I].
  rewrite !Z.eqb_refl. simpl.
  destruct (Tile.roadType t) eqn:Hroad; simpl; congruence.
Qed.

Lemma mark_painted_other (m : Tile.grid) (c c' : Z * Z) :
  painted m c' -> painted (markc roadType m c) c'.
Proof.
  unfold painted, markc. rewrite get_mark.
  destruct (Tile.get m c'.2 c'.1) as [t |]; simpl; [| auto].
  intros Hroad.
  destruct ((c'.2 =? c.2) && (c'.1 =? c.1)
            && match Tile.roadType t with None => true | Some _ => false end);
    [discriminate | exact Hroad].
Qed.

Lemma mark_noop (m : Tile.grid) (c : Z * Z) : painted m c -> markc roadType m c = m.
Proof.
  unfold painted, markc, Road.mark.
  destruct (Tile.get m c.2 c.1) as [t |]; [| reflexivity].
  destruct (Tile.roadType t); [reflexivity | congruence].
Qed.

(** A tile that has a road tag keeps it, and stays as it is. *)
Lemma mark_keeps (m : Tile.grid) (c : Z * Z) (i j : Z) (t : Tile.t) :
  Tile.get m i j = Some t -> Tile.roadType t <> None ->
  Tile.get (markc roadType m c) i j = Some t.
Proof.
  intros Hget Hroad. unfold markc. rewrite get_mark, Hget. simpl.
  destruct (Tile.roadType t); [| congruence].
  now rewrite andb_false_r.
Qed.

Lemma marks_painted_other (cells : list (Z * Z)) (m : Tile.grid) (c : Z * Z) :
  painted m c -> painted (fold_left (markc roadType) cells m) c.
Proof.
  revert m. induction cells as [| c' cells IH]; intros m Hp; [exact Hp |].
  simpl. apply IH, mark_painted_other, Hp.
Qed.

Lemma marks_painted (cells : list (Z * Z)) (m : Tile.grid) :
  Forall (painted (fold_left (markc roadType) cells m)) cells.
Proof.
  revert m. induction cells as [| c cells IH]; intros m; [constructor |].
  simpl. constructor; [| apply IH].
  apply marks_painted_other, mark_painted_self.
Qed.

Lemma marks_noop (cells : list (Z * Z)) (m : Tile.grid) :
  Forall (painted m) cells -> fold_left (markc roadType) cells m = m.
Proof.
  induction 1 as [| c cells Hc _ IH]; [reflexivity |].
  simpl. now rewrite (mark_noop _ _ Hc).
Qed.

(** Marking the same tiles again changes nothing. *)
Lemma marks_idempotent (cells : list (Z * Z)) (m : Tile.grid) :
  fold_left (markc roadType) cells (fold_left (markc roadType) cells m) = fold_left (markc roadType) cells m.
Proof. apply marks_noop, marks_painted. Qed.

Lemma marks_keep (cells : list (Z * Z)) (m : Tile.grid) (i j : Z) (t : Tile.t) :
  Tile.get m i j = Some t -> Tile.roadType t <> None ->
  Tile.get (fold_left (markc roadType) cells m) i j = Some t.
Proof.
  revert m. induction cells as [| c cells IH]; intros m Hget Hroad; [exact Hget |].
  simpl. apply IH; [| exact Hroad]. now apply mark_keeps.
Qed.

End Marks.

Section Rasterize.

Variables (roadWidth : Z) (roadType : string).

Lemma fold_left_flat_map {A B C} (f : A -> C -> A) (g : B -> list C) (l : list B) (a : A) :
  fold_left f (flat_map g l) a = fold_left (fun a b => fold_left f (g b) a) l a.
Proof.
  revert a. induction l as [| b l IH]; intros a; [reflexivity |].
  simpl. now rewrite fold_left_app, IH.
Qed.

Lemma fold_left_map {A B C} (f : A -> C -> A) (g : B -> C) (l : list B) (a : A) :
  fold_left f (map g l) a = fold_left (fun a b => f a (g b)) l a.
Proof.
  revert a. induction l as [| b l IH]; intros a; [reflexivity |].
  simpl. now rewrite IH.
Qed.

Lemma fold_left_ext {A B} (f g : A -> B -> A) (l : list B) (a : A) :
  (forall a b, f a b = g a b) -> fold_left f l a = fold_left g l a.
Proof.
  intros Hfg. revert a. induction l as [| b l IH]; intros a; [reflexivity |].
  simpl. now rewrite Hfg, IH.
Qed.

(** The callback marks the tiles around the point. *)
Lemma paint_cells_marks (x y : Z) (m : Tile.grid) :
  Road.paint roadWidth roadType x y m
  = fold_left (markc roadType) (paint_cells roadWidth (x, y)) m.
Proof.
  unfold Road.paint, paint_cells. rewrite fold_left_flat_map.
  apply fold_left_ext. intros m' dx. now rewrite fold_left_map.
Qed.

Lemma rasterize_edge_cells (fuel : nat) (graph : Road.RoadGraph) (m : Tile.grid)
    (edge : Road.RoadEdge) :
  Road.rasterize_edge roadWidth roadType fuel graph m edge
  = (fun cells => fold_left (markc roadType) cells m)
      <$> edge_cells roadWidth fuel graph edge.
Proof.
  unfold Road.rasterize_edge, edge_cells.
  destruct (JS.index _ (Road.from edge)) as [a |]; [| reflexivity].
  destruct (JS.index _ (Road.to edge)) as [b |]; [| reflexivity].
  unfold Road.drawLineOnGrid. rewrite line_loop_points.
  destruct (line_points _ _ _ _ _ _ _ _ _ _) as [pts |]; [| reflexivity].
  simpl. f_equal. rewrite fold_left_flat_map.
  apply fold_left_ext. intros m' [x y]. apply paint_cells_marks.
Qed.

Lemma rasterize_edges_cells (fuel : nat) (graph : Road.RoadGraph)
    (l : list Road.RoadEdge) (m : Tile.grid) :
  JS.for_each (Road.rasterize_edge roadWidth roadType fuel graph) l m
  = (fun cells => fold_left (markc roadType) cells m)
      <$> edges_cells roadWidth fuel graph l.
Proof.
  revert m. induction l as [| e l IH]; intros m; [reflexivity |].
  cbn [JS.for_each edges_cells]. rewrite rasterize_edge_cells.
  destruct (edge_cells roadWidth fuel graph e) as [c |]; [| reflexivity].
  simpl. rewrite IH.
  destruct (edges_cells roadWidth fuel graph l) as [cs |]; [| reflexivity].
  simpl. now rewrite fold_left_app.
Qed.

(** With nodes for every edge and enough fuel, every line is drawn. *)
Lemma edges_cells_total (fuel : nat) (graph : Road.RoadGraph) (l : list Road.RoadEdge) :
  Forall
    (fun e => 0 <= Road.from e < Z.of_nat (length (Road.nodes graph))
              /\ 0 <= Road.to e < Z.of_nat (length (Road.nodes graph))) l ->
  Forall
    (fun e => forall a b,
         JS.index (Road.nodes graph) (Road.from e) = Some a ->
         JS.index (Road.nodes graph) (Road.to e) = Some b ->
         (line_fuel a b <= fuel)%nat) l ->
  exists cells, edges_cells roadWidth fuel graph l = Some cells.
Proof.
  induction l as [| e l IH]; intros Hwf Hfuel; [now exists [] |].
  apply Forall_cons in Hwf as [[Hfrom Hto] Hwf].
  apply Forall_cons in Hfuel as [He Hfuel].
  destruct (IH Hwf Hfuel) as [cs Hcs].
  destruct (index_in_range _ _ Hfrom) as [a Ha].
  destruct (index_in_range _ _ Hto) as [b Hb].
  specialize (He a b Ha Hb). unfold line_fuel in He.
  destruct (drawLineOnGrid_points (fun _ _ (u : unit) => u) fuel
              (Road.x a) (Road.y a) (Road.x b) (Road.y b) tt) as [pts [Hpts _]];
    [lia |].
  cbn [edges_cells]. unfold edge_cells. rewrite Ha, Hb, Hpts, Hcs. simpl. eauto.
Qed.

End Rasterize.

(** C7. When the edges of the graph refer to its nodes and the fuel suffices
    for its lines, [rasterizeroads] returns a map on which every tile that
    had a road tag is as it was, and rasterizing the same graph with the
    same options onto that map returns that map. *)
Theorem rasterizeroads_idempotent (fuel : nat) (tileMap : Tile.grid)
    (graph : Road.RoadGraph) (opts : Road.options) :
  wf_graph graph ->
  enough_fuel fuel graph ->
  exists tileMap1,
    Road.rasterizeroads fuel tileMap graph opts = Some tileMap1
    /\ (forall i j tile,
          Tile.get tileMap i j = Some tile -> Tile.roadType tile <> None ->
          Tile.get tileMap1 i j = Some tile)
    /\ Road.rasterizeroads fuel tileMap1 graph opts = Some tileMap1.
Proof.
  intros Hwf Hfuel. unfold Road.rasterizeroads.
  set (w := match Road.roadWidth opts with Some w => _ | None => _ end).
  set (rt := match Road.roadType opts with Some s => _ | None => _ end).
  destruct (edges_cells_total w fuel graph _ Hwf Hfuel) as [cells Hcells].
  exists (fold_left (markc rt) cells tileMap).
  rewrite !rasterize_edges_cells, Hcells. simpl. split; [reflexivity |]. split.
  - intros i j tile. apply marks_keep.
  - now rewrite marks_idempotent.
Qed.

Lemma rasterizeroads_idempotent_witness :
  let tile := Tile.new 0 0 in
  let tileMap := [ [tile; tile; tile; tile]; [tile; tile; tile; tile];
                   [tile; tile; tile; tile] ] in
  let graph :=
    {| Road.centerX := 0; Road.centerY := 0;
       Road.nodes := [ {| Road.x := 0; Road.y := 0 |}; {| Road.x := 3; Road.y := 1 |} ];
       Road.edges := [ {| Road.from := 0; Road.to := 1 |} ] |} in
  let opts := {| Road.roadWidth := None; Road.roadType := None |} in
  exists tileMap1,
    Road.rasterizeroads 5 tileMap graph opts = Some tileMap1
    /\ (forall i j tile,
          Tile.get tileMap i j = Some tile -> Tile.roadType tile <> None ->
          Tile.get tileMap1 i j = Some tile)
    /\ Road.rasterizeroads 5 tileMap1 graph opts = Some tileMap1.
Proof.
  intros tile tileMap graph opts.
  apply (rasterizeroads_idempotent 5 tileMap graph opts).
  - constructor; [vm_compute; intuition discriminate | constructor].
  - constructor; [| constructor].
    intros a b [= <-] [= <-]. vm_compute. lia.
Defined.

(* ------------------------------------------------------------------ *)
(** ** Autotiling of a chunk                                            *)
(* ------------------------------------------------------------------ *)

Section Autotiling.

(** A loop whose body keeps an invariant, and returns under it, returns
    and keeps it. *)
Lemma for_each_invariant {St A} (Inv : St -> Prop) (P : A -> Prop)
    (body : St -> A -> option St) (l : list A) (s : St) :
  Forall P l ->
  (forall s a, Inv s -> P a -> exists s', body s a = Some s' /\ Inv s') ->
  Inv s ->
  exists s', JS.for_each body l s = Some s' /\ Inv s'.
Proof.
  intros Hl Hbody. revert s.
  induction Hl as [| a l Ha _ IH]; intros s Hs; [now exists s |].
  destruct (Hbody s a Hs Ha) as (s' & Hs' & Hinv).
  cbn [JS.for_each]. rewrite Hs'. apply IH, Hinv.
Qed.

Variable h : nat.

Lemma calculateTileMask_total (g : Tile.grid) (tile : Tile.t) (x y : Z) :
  rectangular h g -> exists r, Autotile.calculateTileMask tile g x y = Some r.
Proof.
  intros Hrect. unfold Autotile.calculateTileMask.
  generalize (0, @nil (string * string)). generalize Autotile.neighbors.
  intros l. induction l as [| [[dx dy] bit] l IH]; intros [mask nb].
  - now eexists.
  - cbn [JS.for_each].
    destruct (Tile.get g (x + dx) (y + dy)) as [t |] eqn:Hget.
    + rewrite (mask_step_present h g Hrect _ _ _ _ _ _ _ _ _ Hget). apply IH.
    + rewrite (mask_step_absent h g Hrect _ _ _ _ _ _ _ _ Hget). apply IH.
Qed.

Lemma set_rectangular (g : Tile.grid) (i j : nat) (v : Tile.t) :
  rectangular h g -> rectangular h (Tile.set g i j v).
Proof.
  intros Hrect. unfold rectangular, Tile.set. apply Forall_alter; [exact Hrect |].
  intros col _ Hcol. now rewrite length_insert.
Qed.

Lemma set_same_core (g0 g : Tile.grid) (i j : nat) (t v : Tile.t) :
  same_core g0 g ->
  Tile.get g (Z.of_nat i) (Z.of_nat j) = Some t ->
  core v = core t ->
  same_core g0 (Tile.set g i j v).
Proof.
  intros Hsame Hget Hcore i' j'. rewrite <- Hsame, get_set.
  destruct (Tile.get g i' j') as [t' |] eqn:Ht'; [| reflexivity]. simpl.
  destruct (Z.eqb_spec i' (Z.of_nat i)) as [-> |]; [| reflexivity].
  destruct (Z.eqb_spec j' (Z.of_nat j)) as [-> |]; [| reflexivity].
  assert (t' = t) by congruence. subst t'. simpl. now rewrite Hcore.
Qed.

Lemma autotile_tile_inv (w : nat) (g0 g : Tile.grid) (x y : nat) :
  autotile_inv h w g0 g -> (x < w)%nat -> (y < h)%nat ->
  exists g', Autotile.autotile_tile g x y = Some g' /\ autotile_inv h w g0 g'.
Proof.
  intros (Hrect & Hlen & Hsame) Hx Hy. unfold Autotile.autotile_tile.
  destruct (get_in_range h g (Z.of_nat x) (Z.of_nat y) Hrect) as [tile Hget];
    [lia | lia |].
  rewrite Hget. destruct (Tile.structure tile) eqn:Hs.
  - eexists. split; [reflexivity |]. repeat split.
    + now apply set_rectangular.
    + unfold Tile.set. now rewrite length_alter.
    + eapply set_same_core; eauto.
  - destruct (calculateTileMask_total g tile (Z.of_nat x) (Z.of_nat y) Hrect)
      as [[mask nb] Hmask].
    rewrite Hmask. eexists. split; [reflexivity |]. repeat split.
    + now apply set_rectangular.
    + unfold Tile.set. now rewrite length_alter.
    + eapply set_same_core; eauto.
Qed.

Lemma applyChunkAutotiling_total (g0 : Tile.grid) :
  rectangular h g0 ->
  exists g, Autotile.applyChunkAutotiling g0 = Some g /\ same_core g0 g.
Proof.
  intros Hrect. unfold Autotile.applyChunkAutotiling.
  assert (Hinv : autotile_inv h (length g0) g0 g0) by (repeat split; auto).
  assert (Hh : g0 = [] \/ Autotile.height0 g0 = Some (Z.of_nat h)).
  { destruct g0; [now left | right]. now apply rectangular_height0. }
  destruct Hh as [-> | ->].
  { exists []. split; [reflexivity | now intros i j]. }
  rewrite Nat2Z.id.
  destruct (for_each_invariant (autotile_inv h (length g0) g0)
              (fun x => x < length g0)%nat
              (fun g x => JS.for_each (fun g y => Autotile.autotile_tile g x y) (seq 0 h) g)
              (seq 0 (length g0)) g0) as (g & Hg & _ & _ & Hsame); auto.
  - apply List.Forall_forall. intros x Hx%in_seq. lia.
  - intros g x Hg Hx.
    apply (for_each_invariant (autotile_inv h (length g0) g0) (fun y => y < h)%nat);
      auto.
    + apply List.Forall_forall. intros y Hy%in_seq. lia.
    + intros g' y Hg' Hy. now apply autotile_tile_inv.
  - eauto.
Qed.

End Autotiling.

(* ------------------------------------------------------------------ *)
(** ** Chunk generation                                                 *)
(* ------------------------------------------------------------------ *)

Section ChunkGeneration.

Import Chunk.

Variables (cx cy worldSeed : Z) (noiseFunctions : Noise.functions).

Lemma buildTiles_rectangular (structureType : option string)
    (rotatedTemplate : option (list string)) :
  rectangular (length locals)
    (buildTiles cx cy noiseFunctions structureType rotatedTemplate).
Proof.
  unfold rectangular, buildTiles. apply List.Forall_forall.
  intros col (x & <- & _)%in_map_iff. apply length_map.
Qed.

(** [registry[key] = data] twice is [registry[key] = data] once. *)
Lemma registry_set_idempotent (registry : Registry) (key : Z * Z)
    (data : StructureRecord) :
  registry_set (registry_set registry key data) key data
  = registry_set registry key data.
Proof.
  induction registry as [| [k d] registry IH]; simpl.
  - unfold key_eqb. now rewrite !Z.eqb_refl.
  - destruct (key_eqb k key) eqn:Hk; simpl; rewrite Hk; [reflexivity |].
    now rewrite IH.
Qed.

Lemma placeStructure_again (registry : Registry) :
  placeStructure cx cy worldSeed (placeStructure cx cy worldSeed registry).2
  = placeStructure cx cy worldSeed registry.
Proof.
  unfold placeStructure.
  destruct (candidate cx cy worldSeed) as [[|] gridRng]; [| reflexivity].
  destruct (Seed.next gridRng) as [roll g].
  destruct (roll <? CONFIG.STRUCTURE_SPAWN_CHANCE_VILLAGE)%float;
    [simpl; now rewrite registry_set_idempotent |].
  destruct (roll <? CONFIG.STRUCTURE_SPAWN_CHANCE_DUNGEON)%float;
    [simpl; now rewrite registry_set_idempotent | reflexivity].
Qed.

(** The grid of [generateChunk] is the grid of the tile loops, autotiled. *)
Lemma generateChunk_grid (registry : Registry) :
  exists structureType rotatedTemplate chunk,
    (generateChunk cx cy worldSeed noiseFunctions registry).1 = Some chunk
    /\ same_core
         (buildTiles cx cy noiseFunctions structureType rotatedTemplate) chunk.
Proof.
  unfold generateChunk.
  destruct (placeStructure cx cy worldSeed registry) as [structureType registry'].
  set (st := adopt _ _). set (rt := rotatedTemplateOf _ _ _ _).
  destruct (applyChunkAutotiling_total _ _ (buildTiles_rectangular st rt))
    as (chunk & Hchunk & Hsame).
  exists st, rt, chunk. simpl. auto.
Qed.

End ChunkGeneration.

(** C1. [generateChunk] returns a grid, and called again with the same
    arguments, on the registry as the first call left it, it returns the
    same grid, tile for tile and field for field, and leaves the registry as
    it is. *)
Theorem generateChunk_deterministic (cx cy worldSeed : Z)
    (noiseFunctions : Noise.functions) (registry : Chunk.Registry) :
  exists chunk registry1,
    Chunk.generateChunk cx cy worldSeed noiseFunctions registry
    = (Some chunk, registry1)
    /\ Chunk.generateChunk cx cy worldSeed noiseFunctions registry1
       = (Some chunk, registry1).
Proof.
  destruct (generateChunk_grid cx cy worldSeed noiseFunctions registry)
    as (_ & _ & chunk & Hchunk & _).
  pose proof (placeStructure_again cx cy worldSeed registry) as Hagain.
  unfold Chunk.generateChunk in *.
  destruct (Chunk.placeStructure cx cy worldSeed registry)
    as [structureType registry1] eqn:Hplace.
  simpl in Hagain, Hchunk. exists chunk, registry1. rewrite Hagain, Hchunk.
  split; reflexivity.
Qed.

(** The chunk (0, 0) of the flat world 12345: grass everywhere; the corner
    tile has three neighbors, the inner tiles have eight. *)
Example generateChunk_flat_world :
  let tiles := (Chunk.generateChunk 0 0 12345 flat []).1 in
  (fun t => (Tile.x t, Tile.y t, Tile.biome t, Tile.structure t, Tile.object t,
             Tile.tileMask t, Tile.tileVariant t))
    <$> (tiles ≫= fun chunk => Tile.get chunk 0 0)
  = Some (0, 0, "grass", None, None, Some 0x1c, Tile.Value (Autotile.mk "full" 1))
  /\ (fun t => (Tile.x t, Tile.y t, Tile.elevation t, Tile.tileMask t, Tile.tileVariant t))
       <$> (tiles ≫= fun chunk => Tile.get chunk 5 7)
     = Some (5, 7, 0.5%float, Some 0xff, Tile.Value (Autotile.mk "corners" 2))
  /\ length <$> tiles = Some 32%nat.
Proof. vm_compute. repeat split. Qed.

(* ------------------------------------------------------------------ *)
(** ** Scatter                                                          *)
(* ------------------------------------------------------------------ *)

Section ScatterExclusive.

Import Chunk.

(** The template block writes a structure type that is a non-empty string,
    and leaves the object and the road tag alone. *)
Lemma applyTemplate_fields (structureType : option string)
    (rotatedTemplate : option (list string)) (x y : Z) (tile : Tile.t) :
  let tile' := applyTemplate structureType rotatedTemplate x y tile in
  Tile.object tile' = Tile.object tile
  /\ Tile.roadType tile' = Tile.roadType tile
  /\ (Tile.structure tile' = Tile.structure tile
      \/ JS.truthy_opt (Tile.structure tile') = true).
Proof.
  unfold applyTemplate.
  destruct structureType as [ty |]; [| simpl; auto].
  destruct rotatedTemplate as [template |]; [| simpl; auto].
  destruct (JS.truthy ty) eqn:Hty; [| simpl; auto].
  repeat match goal with
         | |- context [if ?b then _ else _] => destruct b
         end; simpl; auto.
Qed.

Lemma buildTile_scatter_exclusive (cx cy : Z) (noiseFunctions : Noise.functions)
    (structureType : option string) (rotatedTemplate : option (list string))
    (x y : Z) :
  scatter_exclusive
    (buildTile cx cy noiseFunctions structureType rotatedTemplate x y).
Proof.
  unfold buildTile.
  match goal with
  | |- context [applyTemplate ?s ?r ?a ?b ?t] =>
      pose proof (applyTemplate_fields s r a b t) as (Hobj & Hroad & Hstruct);
      set (tile := applyTemplate s r a b t) in *
  end.
  simpl in Hobj, Hroad, Hstruct.
  destruct (negb (JS.truthy_opt (Tile.structure tile))
            && negb (Tile.biome tile =? "water")%string
            && match Tile.roadType tile with None => true | Some _ => false end)
    eqn:Hcond.
  - apply andb_prop in Hcond as [Hcond _]. apply andb_prop in Hcond as [Hs Hb].
    apply negb_true_iff in Hs, Hb. apply String.eqb_neq in Hb.
    intros [H | [H | H]]; simpl in H.
    + destruct Hstruct; congruence.
    + congruence.
    + congruence.
  - intros _. exact Hobj.
Qed.

Lemma buildTiles_scatter_exclusive (cx cy : Z) (noiseFunctions : Noise.functions)
    (structureType : option string) (rotatedTemplate : option (list string))
    (i j : Z) (tile : Tile.t) :
  Tile.get (buildTiles cx cy noiseFunctions structureType rotatedTemplate) i j
  = Some tile ->
  scatter_exclusive tile.
Proof.
  intros (col & [_ Hcol]%index_Some & [_ Htile]%index_Some)%get_Some.
  apply list_elem_of_lookup_2, list_elem_of_In in Hcol, Htile.
  unfold buildTiles in Hcol. apply in_map_iff in Hcol as (x & <- & _).
  apply in_map_iff in Htile as (y & <- & _).
  apply buildTile_scatter_exclusive.
Qed.

End ScatterExclusive.

(** C5. In a grid that [generateChunk] returns, a tile that carries a
    structure, or a road tag, or whose biome is "water", has no scatter
    object. *)
Theorem generateChunk_scatter_exclusive (cx cy worldSeed : Z)
    (noiseFunctions : Noise.functions) (registry registry1 : Chunk.Registry)
    (chunk : Tile.grid) (i j : Z) (tile : Tile.t) :
  Chunk.generateChunk cx cy worldSeed noiseFunctions registry
  = (Some chunk, registry1) ->
  Tile.get chunk i j = Some tile ->
  Tile.structure tile <> None \/ Tile.roadType tile <> None
  \/ Tile.biome tile = "water" ->
  Tile.object tile = None.
Proof.
  intros Hgen Hget.
  destruct (generateChunk_grid cx cy worldSeed noiseFunctions registry)
    as (st & rt & chunk' & Hchunk & Hsame).
  rewrite Hgen in Hchunk. injection Hchunk as <-.
  specialize (Hsame i j). rewrite Hget in Hsame.
  destruct (Tile.get (Chunk.buildTiles _ _ _ _ _) i j) as [tile0 |] eqn:Hget0;
    [| discriminate].
  apply buildTiles_scatter_exclusive in Hget0. unfold scatter_exclusive in Hget0.
  simpl in Hsame. unfold core in Hsame.
  injection Hsame as Hx Hy He Hb Ht Hh Hs Ho Hr.
  rewrite Hb, Hs, Ho, Hr. exact Hget0.
Qed.

(** The chunk (-5, 4) of the world 12345 holds a village; its tile (15, 15)
    carries the structure and no object. *)
Lemma generateChunk_scatter_exclusive_witness :
  exists chunk registry1 tile,
    Chunk.generateChunk (-5) 4 12345 flat [] = (Some chunk, registry1)
    /\ Tile.get chunk 15 15 = Some tile
    /\ Tile.structure tile = Some "village"
    /\ Tile.object tile = None.
Proof.
  assert (H : Tile.structure
                <$> ((Chunk.generateChunk (-5) 4 12345 flat []).1
                       ≫= fun chunk => Tile.get chunk 15 15)
              = Some (Some "village")) by (vm_compute; reflexivity).
  destruct (Chunk.generateChunk (-5) 4 12345 flat []) as [[chunk |] registry1] eqn:Hgen;
    [| discriminate H].
  simpl in H. destruct (Tile.get chunk 15 15) as [tile |] eqn:Hget; [| discriminate H].
  injection H as Hs. exists chunk, registry1, tile. repeat split; auto.
  apply (generateChunk_scatter_exclusive _ _ _ _ _ _ _ _ _ _ Hgen Hget).
  left. rewrite Hs. discriminate.
Defined.

(* ------------------------------------------------------------------ *)
(** ** Structure registry                                               *)
(* ------------------------------------------------------------------ *)

Section Registry.

Import Chunk.

Lemma key_eqb_eq (k1 k2 : Z * Z) : key_eqb k1 k2 = true <-> k1 = k2.
Proof.
  unfold key_eqb. destruct k1 as [a b], k2 as [c d]. simpl.
  rewrite andb_true_iff, !Z.eqb_eq. split; [intros [-> ->] | intros [= -> ->]]; auto.
Qed.

Lemma registry_set_entries (registry : Registry) (key : Z * Z)
    (data : StructureRecord) (kd : (Z * Z) * StructureRecord) :
  In kd (registry_set registry key data) -> In kd registry \/ kd = (key, data).
Proof.
  induction registry as [| [k d] registry IH]; simpl.
  - intros [<- | []]. now right.
  - destruct (key_eqb k key) eqn:Hk.
    + apply key_eqb_eq in Hk as ->. intros [<- | H]; auto.
    + intros [<- | H]; auto. destruct (IH H); auto.
Qed.

Lemma registry_set_keys (registry : Registry) (key : Z * Z)
    (data : StructureRecord) (k : Z * Z) :
  In k (map fst (registry_set registry key data)) -> In k (map fst registry) \/ k = key.
Proof.
  intros ([k' d'] & <- & H)%in_map_iff.
  destruct (registry_set_entries _ _ _ _ H) as [H' | [= -> ->]]; [left | now right].
  apply in_map_iff. now exists (k', d').
Qed.

Lemma registry_set_NoDup (registry : Registry) (key : Z * Z) (data : StructureRecord) :
  List.NoDup (map fst registry) ->
  List.NoDup (map fst (registry_set registry key data)).
Proof.
  induction registry as [| [k d] registry IH]; simpl; intros Hnd.
  - constructor; [intros [] | constructor].
  - inversion Hnd as [| ? ? Hk Hnd']; subst.
    destruct (key_eqb k key) eqn:Ek; simpl.
    + now constructor.
    + constructor; [| now apply IH].
      intros [H | ->]%registry_set_keys; [now apply Hk |].
      assert (key_eqb key key = true) by now apply key_eqb_eq. congruence.
Qed.

Variable worldSeed : Z.

Lemma placeStructure_inv (cx cy : Z) (registry : Registry) :
  registry_inv worldSeed registry ->
  registry_inv worldSeed (placeStructure cx cy worldSeed registry).2.
Proof.
  intros [Hnd Hall]. unfold placeStructure.
  destruct (candidate cx cy worldSeed) as [isCandidateChunk gridRng] eqn:Hc.
  destruct isCandidateChunk; [| now split].
  destruct (Seed.next gridRng) as [roll g].
  assert (Hset : forall ty,
             registry_inv worldSeed
               (registry_set registry (Structure.getStructureKey cx cy)
                  {| type := ty; cx := cx; cy := cy |})).
  { intros ty. split; [now apply registry_set_NoDup |].
    apply List.Forall_forall. intros kd [H | ->]%registry_set_entries.
    - rewrite List.Forall_forall in Hall. now apply Hall.
    - split; [reflexivity |].
    change ((candidate cx cy worldSeed).1 = true). now rewrite Hc. }
  destruct (roll <? CONFIG.STRUCTURE_SPAWN_CHANCE_VILLAGE)%float; [apply Hset |].
  destruct (roll <? CONFIG.STRUCTURE_SPAWN_CHANCE_DUNGEON)%float; [apply Hset |].
  now split.
Qed.

Lemma generateChunk_registry (cx cy : Z) (noiseFunctions : Noise.functions)
    (registry : Registry) :
  (generateChunk cx cy worldSeed noiseFunctions registry).2
  = (placeStructure cx cy worldSeed registry).2.
Proof.
  unfold generateChunk. now destruct (placeStructure cx cy worldSeed registry).
Qed.

Lemma run_calls_inv (noiseFunctions : Noise.functions) (calls : list (Z * Z))
    (registry : Registry) :
  registry_inv worldSeed registry ->
  registry_inv worldSeed (run_calls worldSeed noiseFunctions calls registry).
Proof.
  revert registry. induction calls as [| [cx cy] calls IH]; intros registry Hinv.
  - exact Hinv.
  - simpl. apply IH. rewrite generateChunk_registry. now apply placeStructure_inv.
Qed.

(** A cell of the spacing grid has one candidate chunk. *)
Lemma candidate_unique (cx cy cx' cy' : Z) :
  (candidate cx cy worldSeed).1 = true ->
  (candidate cx' cy' worldSeed).1 = true ->
  gridOf cx = gridOf cx' -> gridOf cy = gridOf cy' ->
  cx = cx' /\ cy = cy'.
Proof.
  unfold candidate. intros H H' Ex Ey. rewrite <- Ex, <- Ey in H'.
  destruct (Seed.next _) as [r1 g1]. destruct (Seed.next g1) as [r2 g2].
  simpl in H, H'.
  apply andb_true_iff in H as [Hx Hy]. apply andb_true_iff in H' as [Hx' Hy'].
  apply Z.eqb_eq in Hx, Hy, Hx', Hy'. lia.
Qed.

Lemma registry_key_unique (registry : Registry) (k : Z * Z) (d1 d2 : StructureRecord) :
  List.NoDup (map fst registry) ->
  In (k, d1) registry -> In (k, d2) registry -> d1 = d2.
Proof.
  induction registry as [| [k0 d0] registry IH]; simpl; intros Hnd H1 H2;
    [destruct H1 |].
  inversion Hnd as [| ? ? Hk Hnd']; subst.
  destruct H1 as [E1 | H1], H2 as [E2 | H2].
  - congruence.
  - injection E1 as -> ->. exfalso. apply Hk, in_map_iff. now exists (k, d2).
  - injection E2 as -> ->. exfalso. apply Hk, in_map_iff. now exists (k, d1).
  - now apply IH.
Qed.

Lemma registry_inv_same_cell (registry : Registry) (a b : StructureRecord) :
  registry_inv worldSeed registry ->
  In a (map snd registry) -> In b (map snd registry) ->
  cell_of a = cell_of b -> a = b.
Proof.
  intros [Hnd Hall] ([ka a'] & <- & Ha)%in_map_iff ([kb b'] & <- & Hb)%in_map_iff.
  cbn [snd]. intros [= Ex Ey]. rewrite List.Forall_forall in Hall.
  destruct (Hall _ Ha) as [Hka Hca], (Hall _ Hb) as [Hkb Hcb]. cbn [fst snd] in *.
  destruct (candidate_unique _ _ _ _ Hca Hcb Ex Ey) as [Hx Hy].
  assert (E : ka = kb) by congruence. rewrite <- E in Hb.
  exact (registry_key_unique registry ka a' b' Hnd Ha Hb).
Qed.

End Registry.

(** C3, as stated, fails: in the world 12345 the chunks (-7, -72) and
    (-6, -73) are the candidates of two neighboring cells and both of them
    roll a structure; their records are at the distance 1. *)
Lemma structure_spacing_counterexample :
  let registry := run_calls 12345 flat [ (-7, -72); (-6, -73) ] [] in
  let a := {| Chunk.type := "village"; Chunk.cx := -7; Chunk.cy := -72 |} in
  let b := {| Chunk.type := "dungeon"; Chunk.cx := -6; Chunk.cy := -73 |} in
  map snd registry = [ a; b ]
  /\ chebyshev a b = 1
  /\ ~ (Chunk.SPACING - 1 <= chebyshev a b).
Proof.
  cbv zeta. split; [vm_compute; reflexivity |].
  split; [reflexivity | vm_compute; congruence].
Qed.

(** C3, amended. After any sequence of [generateChunk] calls with one world
    seed, from the empty registry, two records of the registry that lie in
    the same cell of the spacing grid are the same record: two different
    records lie in different cells, at a distance of at least 1. *)
Theorem structure_records_one_per_cell (worldSeed : Z)
    (noiseFunctions : Noise.functions) (calls : list (Z * Z))
    (a b : Chunk.StructureRecord) :
  let registry := run_calls worldSeed noiseFunctions calls [] in
  In a (map snd registry) -> In b (map snd registry) ->
  (cell_of a = cell_of b -> a = b)
  /\ (a <> b -> cell_of a <> cell_of b /\ 1 <= chebyshev a b).
Proof.
  intros registry Ha Hb.
  assert (Hinv : registry_inv worldSeed registry).
  { apply run_calls_inv. split; constructor. }
  assert (Hcell : cell_of a = cell_of b -> a = b)
    by exact (registry_inv_same_cell worldSeed registry a b Hinv Ha Hb).
  split; [exact Hcell |].
  intros Hab. split; [intros H; apply Hab, Hcell, H |].
  unfold chebyshev.
  destruct (Z.eq_dec (Chunk.cx a) (Chunk.cx b)) as [Ex |]; [| lia].
  destruct (Z.eq_dec (Chunk.cy a) (Chunk.cy b)) as [Ey |]; [| lia].
  exfalso. apply Hab, Hcell. unfold cell_of. now rewrite Ex, Ey.
Qed.

Lemma structure_records_one_per_cell_witness :
  let a := {| Chunk.type := "village"; Chunk.cx := -7; Chunk.cy := -72 |} in
  let b := {| Chunk.type := "dungeon"; Chunk.cx := -6; Chunk.cy := -73 |} in
  cell_of a <> cell_of b /\ 1 <= chebyshev a b.
Proof.
  intros a b.
  refine (proj2 (structure_records_one_per_cell 12345 flat
                   [ (-7, -72); (-6, -73) ] a b _ _) _).
  - vm_compute. left. reflexivity.
  - vm_compute. right. left. reflexivity.
  - discriminate.
Defined.

(* ------------------------------------------------------------------ *)
(** ** Chunk cache                                                      *)
(* ------------------------------------------------------------------ *)

Section Cache.

Import Chunk.

Variables (cache : ChunkCache) (centerCX centerCY keepDistance : Z).

(** The chunk table after [unloadDistantChunks]: the chunks beyond the keep
    distance are gone and the others are as they were. *)
Lemma unloadDistantChunks_lookup (cx cy : Z) :
  chunks (unloadDistantChunks cache centerCX centerCY keepDistance) !! (cx, cy)
  = if decide (keepDistance < Z.abs (cx - centerCX)
               \/ keepDistance < Z.abs (cy - centerCY))
    then None
    else chunks cache !! (cx, cy).
Proof.
  unfold unloadDistantChunks, toDelete. simpl.
  destruct (decide _) as [Hfar | Hnear].
  - destruct (chunks cache !! (cx, cy)) as [chunk |] eqn:Hc.
    + apply lookup_foldr_delete. apply list_elem_of_fmap.
      exists ((cx, cy), chunk). split; [reflexivity |].
      apply elem_of_map_to_list. now apply map_lookup_filter_Some_2.
    + destruct (foldr delete (chunks cache) _ !! (cx, cy)) as [chunk |] eqn:Hf;
        [| reflexivity].
      apply lookup_foldr_delete_Some in Hf as [_ Hf]. congruence.
  - apply lookup_foldr_delete_not_elem_of.
    intros ([k chunk] & Hk & Hin)%list_elem_of_fmap. cbn [fst] in Hk. subst k.
    apply elem_of_map_to_list in Hin.
    apply map_lookup_filter_Some in Hin as [_ Hfar]. now apply Hnear.
Qed.

(** [unloadDistantChunks] does not touch the registry. *)
Lemma unloadDistantChunks_registry :
  registry (unloadDistantChunks cache centerCX centerCY keepDistance)
  = registry cache.
Proof. reflexivity. Qed.

End Cache.

(** [getChunk] on a chunk that the cache does not hold. *)
Lemma getChunk_fresh (cache : Chunk.ChunkCache) (cx cy worldSeed : Z)
    (noiseFunctions : Noise.functions) (chunk : Tile.grid)
    (registry1 : Chunk.Registry) :
  Chunk.chunks cache !! (cx, cy) = None ->
  Chunk.generateChunk cx cy worldSeed noiseFunctions (Chunk.registry cache)
  = (Some chunk, registry1) ->
  Chunk.getChunk cache cx cy worldSeed noiseFunctions
  = (Some chunk,
     {| Chunk.chunks := <[(cx, cy) := chunk]> (Chunk.chunks cache);
        Chunk.registry := registry1 |}).
Proof.
  intros Hnone Hgen. unfold Chunk.getChunk, Chunk.getChunkKey.
  now rewrite Hnone, Hgen.
Qed.

(** C4, on the cache that holds the village chunk (-5, 4) of the world 12345:
    [unloadDistantChunks] around (10, 4) with the keep distance 3 removes the
    chunk, which is 15 chunks away, and leaves its record in the registry;
    [unloadChunk] on that chunk removes both. *)
Theorem unloadDistantChunks_leaves_registry :
  let cache1 := (Chunk.getChunk Chunk.newChunkCache (-5) 4 12345 flat).2 in
  let cache2 := Chunk.unloadDistantChunks cache1 10 4 3 in
  let village := {| Chunk.type := "village"; Chunk.cx := -5; Chunk.cy := 4 |} in
  is_Some (Chunk.chunks cache1 !! (-5, 4))
  /\ Chunk.registry cache1 = [ ((-5, 4), village) ]
  /\ Chunk.chunks cache2 !! (-5, 4) = None
  /\ Chunk.registry cache2 = [ ((-5, 4), village) ]
  /\ Chunk.registry (Chunk.unloadChunk cache1 (-5) 4) = [].
Proof.
  destruct (generateChunk_grid (-5) 4 12345 flat []) as (_ & _ & chunk & Hchunk & _).
  destruct (Chunk.generateChunk (-5) 4 12345 flat []) as [grid registry1] eqn:Hgen.
  cbn [fst] in Hchunk. subst grid.
  assert (Hreg : registry1
                 = [ ((-5, 4),
                      {| Chunk.type := "village"; Chunk.cx := -5; Chunk.cy := 4 |}) ]).
  { pose proof (generateChunk_registry 12345 (-5) 4 flat []) as H.
    rewrite Hgen in H. cbn [snd] in H. rewrite H. vm_compute. reflexivity. }
  cbv zeta.
  rewrite (getChunk_fresh Chunk.newChunkCache (-5) 4 12345 flat chunk registry1
             (lookup_empty _) Hgen).
  cbn [snd]. rewrite unloadDistantChunks_lookup, unloadDistantChunks_registry.
  unfold Chunk.unloadChunk. cbn [Chunk.chunks Chunk.registry]. subst registry1.
  split; [rewrite lookup_insert_eq; eauto |].
  split; [reflexivity |].
  split; [destruct (decide _) as [_ | Hn]; [reflexivity | exfalso; apply Hn; lia] |].
  split; reflexivity.
Qed.

(* ================================================================== *)
(** * Further properties of the code                                    *)
(* ================================================================== *)

(* ------------------------------------------------------------------ *)
(** ** Biomes and placement rules                                       *)
(* ------------------------------------------------------------------ *)

Lemma classifyBiome_classified (elevation temperature humidity : float) :
  In (Biome.classifyBiome elevation temperature humidity) classified.
Proof.
  unfold Biome.classifyBiome.
  repeat match goal with
         | |- context [if ?b then _ else _] => destruct b
         end; simpl; tauto.
Qed.

(** [classifyBiome] answers one of the seven terrain biomes for every three
    numbers, NaN included: never "village", "dungeon" or "grassland"; its
    answer has a definition in [BIOMES] and a description of its own. *)
Theorem classifyBiome_range (elevation temperature humidity : float) :
  let biome := Biome.classifyBiome elevation temperature humidity in
  In biome classified
  /\ In biome Biome.BIOMES
  /\ Biome.getBiomeDescription biome <> "Unknown".
Proof.
  unfold Biome.classifyBiome.
  repeat match goal with
         | |- context [if ?b then _ else _] => destruct b
         end;
    (split; [| split]; [simpl; tauto | simpl; tauto | vm_compute; discriminate]).
Qed.

(** The two placement rules agree: [canPlaceStructure], called as
    [generateChunk] calls it with [isWater] the test for the biome "water",
    is [isBiomeValidForStructure]; with any [isWater] it accepts nothing
    that [isBiomeValidForStructure] rejects. *)
Theorem canPlaceStructure_isBiomeValidForStructure (structureType biome : string)
    (isWater : bool) :
  Structure.canPlaceStructure structureType biome (biome =? "water")%string
  = Biome.isBiomeValidForStructure biome structureType
  /\ (Structure.canPlaceStructure structureType biome isWater = true ->
      Biome.isBiomeValidForStructure biome structureType = true).
Proof.
  unfold Structure.canPlaceStructure, Biome.isBiomeValidForStructure.
  split.
  - destruct (String.eqb_spec biome "water") as [-> | Hw]; [| reflexivity].
    destruct (structureType =? "village")%string; [reflexivity |].
    now destruct (structureType =? "dungeon")%string.
  - destruct isWater; [discriminate | auto].
Qed.

Lemma canPlaceStructure_isBiomeValidForStructure_witness :
  Biome.isBiomeValidForStructure "forest" "village" = true.
Proof.
  exact (proj2 (canPlaceStructure_isBiomeValidForStructure "village" "forest" false)
           eq_refl).
Defined.

(* ------------------------------------------------------------------ *)
(** ** Templates                                                        *)
(* ------------------------------------------------------------------ *)

Section Templates.

Import Structure.

Lemma rotateTemplate_square (n : nat) (t : list string) (k : Z) :
  square n t -> square n (rotateTemplate t k).
Proof.
  intros Hsq. unfold rotateTemplate.
  induction (Z.to_nat (Z.rem k 4)) as [| m IH]; [exact Hsq |].
  simpl. now apply rotate_once_square.
Qed.

Lemma nth_error_flat_repeat {A B} (f : A -> B) (s : nat) (l : list A) (i : nat) :
  (0 < s)%nat ->
  nth_error (flat_map (fun a => repeat (f a) s) l) i
  = option_map f (nth_error l (i / s)).
Proof.
  intros Hs. revert i. induction l as [| a l IH]; intros i.
  - simpl. now rewrite !nth_error_nil.
  - cbn [flat_map]. destruct (Nat.lt_ge_cases i s) as [Hi | Hi].
    + rewrite nth_error_app1 by now rewrite repeat_length.
      rewrite Nat.div_small by exact Hi. simpl.
      now apply nth_error_repeat.
    + rewrite nth_error_app2 by now rewrite repeat_length.
      rewrite repeat_length, IH.
      replace (i / s)%nat with (S ((i - s) / s)); [reflexivity |].
      replace i with (i - s + 1 * s)%nat at 2 by lia.
      rewrite Nat.div_add by lia. lia.
Qed.

Lemma length_flat_repeat {A B} (f : A -> B) (s : nat) (l : list A) :
  length (flat_map (fun a => repeat (f a) s) l) = (length l * s)%nat.
Proof.
  induction l as [| a l IH]; [reflexivity |].
  cbn [flat_map]. rewrite length_app, repeat_length, IH. simpl. lia.
Qed.

Lemma map_const_seq {A} (a : A) (k s : nat) : map (fun _ => a) (seq k s) = repeat a s.
Proof. revert k. induction s as [| s IH]; intros k; simpl; [| rewrite IH]; reflexivity. Qed.

Lemma string_of_list_app (l1 l2 : list ascii) :
  string_of_list_ascii (l1 ++ l2)
  = (string_of_list_ascii l1 ++ string_of_list_ascii l2)%string.
Proof.
  induction l1 as [| c l1 IH]; [reflexivity |].
  simpl. change (String c (string_of_list_ascii l1) ++ string_of_list_ascii l2)%string
    with (String c (string_of_list_ascii l1 ++ string_of_list_ascii l2)%string).
  now rewrite IH.
Qed.

(** A scaled row is the row with each character written [s] times. *)
Lemma scale_row_chars (s : nat) (row : string) :
  scale_row s row
  = string_of_list_ascii (flat_map (fun c => repeat c s) (list_ascii_of_string row)).
Proof.
  induction row as [| c row IH]; [reflexivity |].
  cbn [scale_row list_ascii_of_string flat_map].
  rewrite (fold_chars (fun _ => c)) by reflexivity.
  rewrite map_const_seq, string_of_list_app, IH. reflexivity.
Qed.

Lemma get_list_ascii (s : string) (i : nat) :
  String.get i s = nth_error (list_ascii_of_string s) i.
Proof.
  now rewrite <- (string_of_list_ascii_of_string s) at 1; rewrite get_string_of_list.
Qed.

Lemma length_list_ascii (s : string) : length (list_ascii_of_string s) = String.length s.
Proof. induction s; simpl; auto. Qed.

Lemma scale_row_length (s : nat) (row : string) :
  String.length (scale_row s row) = (String.length row * s)%nat.
Proof.
  now rewrite scale_row_chars, length_string_of_list, length_flat_repeat,
    length_list_ascii.
Qed.

Lemma scale_row_chr (s : nat) (row : string) (x : nat) :
  (0 < s)%nat -> chr (scale_row s row) x = chr row (x / s).
Proof.
  intros Hs. unfold chr.
  rewrite scale_row_chars, get_string_of_list, (nth_error_flat_repeat id) by exact Hs.
  rewrite get_list_ascii. now destruct (nth_error _ (x / s)).
Qed.

(** The rows of a scaled template, for a scale other than 1. *)
Lemma scaleTemplate_rows (t : list string) (scale : Z) :
  scale <> 1 ->
  scaleTemplate t scale
  = flat_map (fun row => repeat (scale_row (Z.to_nat scale) row) (Z.to_nat scale)) t.
Proof.
  intros Hs. unfold scaleTemplate.
  destruct (Z.eqb_spec scale 1); [contradiction |].
  apply flat_map_ext. intros row. apply map_const_seq.
Qed.

Lemma scaleTemplate_square (n : nat) (t : list string) (scale : Z) :
  square n t ->
  square (if scale =? 1 then n else n * Z.to_nat scale) (scaleTemplate t scale).
Proof.
  intros [Hlen Hrows]. destruct (Z.eqb_spec scale 1) as [-> | Hs].
  - now split.
  - rewrite scaleTemplate_rows by exact Hs. split.
    + now rewrite length_flat_repeat, Hlen.
    + apply List.Forall_forall. intros r (row & Hrow & Hr)%in_flat_map.
      apply repeat_spec in Hr as ->. rewrite scale_row_length.
      rewrite List.Forall_forall in Hrows. now rewrite (Hrows row Hrow).
Qed.

End Templates.

(** A rotation by any count keeps a square template square, and one
    rotation is a quarter turn clockwise: the cell at row [y] and column
    [x] of the result is the cell at row [n - 1 - x] and column [y] of the
    template. *)
Theorem rotateTemplate_quarter_turn (n : nat) (template : list string) (k : Z)
    (x y : nat) :
  square n template ->
  square n (Structure.rotateTemplate template k)
  /\ ((x < n)%nat -> (y < n)%nat ->
      cell (Structure.rotateTemplate template 1) y x = cell template (n - 1 - x) y).
Proof.
  intros Hsq. split; [now apply rotateTemplate_square |].
  intros Hx Hy. unfold cell. change (Structure.rotateTemplate template 1)
    with (Structure.rotate_once template).
  rewrite (rotate_once_chr n) by auto. do 2 f_equal. lia.
Qed.

Lemma rotateTemplate_quarter_turn_witness :
  cell (Structure.rotateTemplate [ "abc"; "def"; "ghi" ] 1) 0 2
  = cell [ "abc"; "def"; "ghi" ] 0 0.
Proof.
  refine (proj2 (rotateTemplate_quarter_turn 3 [ "abc"; "def"; "ghi" ] 1 2 0 _) _ _).
  - split; [reflexivity | repeat constructor].
  - lia.
  - lia.
Defined.

(** [scaleTemplate] by [scale >= 1] turns a square template of side [n] into
    a square template of side [n * scale] whose cell at row [y] and column
    [x] is the cell at row [y / scale] and column [x / scale] of the
    template; by a scale below 1 it returns the empty template. *)
Theorem scaleTemplate_cells (n : nat) (template : list string) (scale : Z)
    (x y : nat) :
  square n template ->
  (1 <= scale ->
   square (n * Z.to_nat scale) (Structure.scaleTemplate template scale)
   /\ ((x < n * Z.to_nat scale)%nat -> (y < n * Z.to_nat scale)%nat ->
       cell (Structure.scaleTemplate template scale) y x
       = cell template (y / Z.to_nat scale) (x / Z.to_nat scale)))
  /\ (scale <= 0 -> Structure.scaleTemplate template scale = []).
Proof.
  intros Hsq. split.
  - intros Hs. pose proof (scaleTemplate_square n template scale Hsq) as Hsquare.
    destruct (Z.eqb_spec scale 1) as [-> | Hne].
    + change (Z.to_nat 1) with 1%nat. rewrite Nat.mul_1_r in *.
      split; [exact Hsquare |]. intros _ _. now rewrite !Nat.div_1_r.
    + split; [exact Hsquare |]. intros Hx Hy. unfold cell.
      rewrite scaleTemplate_rows by exact Hne.
      assert (Hpos : (0 < Z.to_nat scale)%nat) by lia.
      pose proof (nth_error_flat_repeat (Structure.scale_row (Z.to_nat scale))
                    (Z.to_nat scale) template y Hpos) as Hrow.
      destruct Hsq as [Hlen _].
      assert (Hq : (y / Z.to_nat scale < length template)%nat).
      { apply Nat.Div0.div_lt_upper_bound. lia. }
      destruct (nth_error template (y / Z.to_nat scale)) as [row |] eqn:Hnth;
        [| apply nth_error_None in Hnth; lia].
      simpl in Hrow. rewrite (nth_error_nth _ _ _ Hrow), (nth_error_nth _ _ _ Hnth).
      now apply scale_row_chr.
  - intros Hs. rewrite scaleTemplate_rows by lia.
    replace (Z.to_nat scale) with 0%nat by lia. clear Hsq.
    induction template as [| row t IH]; [reflexivity | exact IH].
Qed.

Lemma scaleTemplate_cells_witness :
  cell (Structure.scaleTemplate [ "ab"; "cd" ] 2) 3 1 = cell [ "ab"; "cd" ] 1 0.
Proof.
  refine (proj2 (proj1 (scaleTemplate_cells 2 [ "ab"; "cd" ] 2 1 3 _) _) _ _).
  - split; [reflexivity | repeat constructor].
  - lia.
  - simpl. lia.
  - simpl. lia.
Defined.

(** Whatever the seed, [getRandomizedTemplate] returns for "village" and
    for "dungeon" a record whose template is square and is [scaleTemplate]
    of [rotateTemplate] of the base template of the type, with the
    rotation and the scale that the record reports. *)
Theorem getRandomizedTemplate_square (structureType : string) (seed : Z) :
  structureType = "village" \/ structureType = "dungeon" ->
  exists data base,
    Structure.getRandomizedTemplate structureType seed = Some data
    /\ Structure.STRUCTURE_TEMPLATES structureType = Some base
    /\ square (length (Structure.template data)) (Structure.template data)
    /\ Structure.template data
       = Structure.scaleTemplate
           (Structure.rotateTemplate base (Structure.rotation data))
           (Structure.scale data).
Proof.
  intros Hty.
  assert (Hgen : forall base rotation scale,
             square 5 base ->
             let t := Structure.scaleTemplate (Structure.rotateTemplate base rotation) scale in
             square (length t) t).
  { intros base rotation scale Hb t.
    pose proof (scaleTemplate_square 5 _ scale
                  (rotateTemplate_square 5 base rotation Hb)) as Hsq.
    fold t in Hsq. destruct Hsq as [Hl Hr]. split; [reflexivity |]. now rewrite Hl. }
  unfold Structure.getRandomizedTemplate.
  assert (Hbase : exists base,
             Structure.STRUCTURE_TEMPLATES structureType = Some base /\ square 5 base).
  { destruct Hty as [-> | ->]; eexists; (split; [reflexivity |]);
      (split; [reflexivity | repeat constructor]). }
  destruct Hbase as (base & Hbase & Hsq). rewrite Hbase.
  destruct (Seed.next _) as [r1 g1]. destruct (Seed.next g1) as [r2 g2].
  eexists _, base. split; [reflexivity |]. split; [reflexivity |].
  cbn [Structure.template Structure.rotation Structure.scale].
  split; [now apply Hgen | reflexivity].
Qed.

(** The village template, with the seed 12345. *)
Lemma getRandomizedTemplate_square_witness :
  exists data base,
    Structure.getRandomizedTemplate "village" 12345 = Some data
    /\ Structure.STRUCTURE_TEMPLATES "village" = Some base
    /\ square (length (Structure.template data)) (Structure.template data)
    /\ Structure.template data
       = Structure.scaleTemplate
           (Structure.rotateTemplate base (Structure.rotation data))
           (Structure.scale data).
Proof.
  apply (getRandomizedTemplate_square "village" 12345). left. reflexivity.
Defined.

(* ------------------------------------------------------------------ *)
(** ** The tiles of a generated chunk                                   *)
(* ------------------------------------------------------------------ *)

Section GeneratedTiles.

Import Chunk.

Lemma lookup_map {A B} (f : A -> B) (l : list A) (i : nat) :
  map f l !! i = f <$> l !! i.
Proof.
  revert i. induction l as [| a l IH]; intros [| i]; simpl; auto.
Qed.

Lemma index_locals {A} (F : Z -> A) (i : Z) :
  JS.index (map F locals) i
  = if (0 <=? i) && (i <? CONFIG.CHUNK_SIZE) then Some (F i) else None.
Proof.
  unfold JS.index, locals.
  destruct (Z.ltb_spec i 0) as [Hneg | Hpos].
  - replace (0 <=? i) with false by (symmetry; apply Z.leb_gt; lia). reflexivity.
  - replace (0 <=? i) with true by (symmetry; apply Z.leb_le; lia).
    rewrite !lookup_map. cbn [andb].
    destruct (Z.ltb_spec i CONFIG.CHUNK_SIZE) as [Hlt | Hge].
    + rewrite lookup_seq_lt by (unfold CONFIG.CHUNK_SIZE in *; lia).
      simpl. now rewrite Z2Nat.id.
    + rewrite lookup_seq_ge by (unfold CONFIG.CHUNK_SIZE in *; lia). reflexivity.
Qed.

Variables (cx cy : Z) (noiseFunctions : Noise.functions).
Variables (structureType : option string) (rotatedTemplate : option (list string)).

Lemma get_buildTiles (i j : Z) :
  Tile.get (buildTiles cx cy noiseFunctions structureType rotatedTemplate) i j
  = if (0 <=? i) && (i <? CONFIG.CHUNK_SIZE) && ((0 <=? j) && (j <? CONFIG.CHUNK_SIZE))
    then Some (buildTile cx cy noiseFunctions structureType rotatedTemplate i j)
    else None.
Proof.
  unfold Tile.get, buildTiles.
  rewrite (index_locals
             (fun x : Z =>
                map (fun y : Z =>
                       buildTile cx cy noiseFunctions structureType rotatedTemplate x y)
                  locals) i).
  destruct ((0 <=? i) && (i <? CONFIG.CHUNK_SIZE)); [| reflexivity].
  cbn [mbind option_bind andb].
  exact (index_locals
           (fun y : Z => buildTile cx cy noiseFunctions structureType rotatedTemplate i y)
           j).
Qed.

(** The template block leaves the tile alone or writes the structure. *)
Lemma applyTemplate_cases (x y : Z) (tile : Tile.t) :
  let tile' := applyTemplate structureType rotatedTemplate x y tile in
  tile' = tile
  \/ exists ty,
       structureType = Some ty
       /\ Structure.canPlaceStructure ty (Tile.biome tile)
            (Tile.biome tile =? "water")%string = true
       /\ tile' = (if (ty =? "village")%string
                   then Tile.set_elevation 0.5%float
                          (Tile.set_biome ty (Tile.set_structure (Some ty) tile))
                   else Tile.set_biome ty (Tile.set_structure (Some ty) tile)).
Proof.
  unfold applyTemplate.
  destruct structureType as [ty |]; [| now left].
  destruct rotatedTemplate as [template |]; [| now left].
  destruct (JS.truthy ty); [| now left].
  destruct (_ && _ && _ && _); [| now left].
  destruct (negb _); [| now left].
  destruct (Structure.canPlaceStructure _ _ _) eqn:Hvalid; [| now left].
  right. exists ty. repeat split. now destruct (ty =? "village")%string.
Qed.

Lemma canPlaceStructure_type (ty biome : string) (isWater : bool) :
  Structure.canPlaceStructure ty biome isWater = true ->
  ty = "village" \/ ty = "dungeon".
Proof.
  unfold Structure.canPlaceStructure. destruct isWater; [discriminate |].
  destruct (String.eqb_spec ty "village"); [now left |].
  destruct (String.eqb_spec ty "dungeon"); [now right | discriminate].
Qed.

(** The objects that [getScatterType] returns, biome by biome. *)
Lemma getScatterType_cases (tile : Tile.t) (wx wy : Z) (noise : Noise.sampler)
    (o : string) :
  Scatter.getScatterType tile wx wy noise = Some o ->
  Tile.structure tile = None
  /\ ((Tile.biome tile = "forest" /\ o = "tree")
      \/ ((Tile.biome tile = "grass" \/ Tile.biome tile = "grassland")
          /\ (o = "tree" \/ o = "rock"))
      \/ (Tile.biome tile = "mountain" /\ o = "rock")
      \/ (Tile.biome tile = "desert" /\ o = "rock")).
Proof.
  unfold Scatter.getScatterType.
  destruct (Tile.structure tile); [discriminate |]. cbn [orb].
  destruct (Tile.biome tile =? "water")%string; [discriminate |].
  destruct (String.eqb_spec (Tile.biome tile) "forest") as [Ef | _];
    [destruct (_ <? _)%float; cbn [andb]; [intros [= <-]; auto |] |]; cbn [andb].
  all: destruct (String.eqb_spec (Tile.biome tile) "grass") as [Eg | _];
    [| destruct (String.eqb_spec (Tile.biome tile) "grassland") as [El | _]];
    cbn [orb andb].
  all: repeat match goal with
         | |- context [if (?a <? ?b)%float then _ else _] =>
             destruct (a <? b)%float; cbn [andb]
         | |- context [if ?c && _ then _ else _] =>
             destruct c eqn:?; cbn [andb]
         | |- context [if ?c then _ else _] => destruct c eqn:?
         end;
    try discriminate; intros [= <-]; split; auto;
    repeat match goal with
      | H : (_ =? _)%string = true |- _ => apply String.eqb_eq in H
      end; auto 10.
Qed.

(** The scatter block after the template block, on a terrain tile. *)
Lemma finish_generated (base : Tile.t) (x y wx wy : Z) (noise : Noise.sampler) :
  Tile.x base = wx -> Tile.y base = wy ->
  Tile.structure base = None -> Tile.object base = None ->
  Tile.roadType base = None -> In (Tile.biome base) classified ->
  let tile := applyTemplate structureType rotatedTemplate x y base in
  generated_tile structureType wx wy
    (if negb (JS.truthy_opt (Tile.structure tile))
        && negb (Tile.biome tile =? "water")%string
        && (match Tile.roadType tile with None => true | Some _ => false end)
     then Tile.set_object (Scatter.getScatterType tile wx wy noise) tile
     else tile).
Proof.
  intros Hx Hy Hs Ho Hr Hbase tile.
  destruct (applyTemplate_cases x y base) as [Htile | (ty & Hst & Hvalid & Htile)];
    fold tile in Htile; rewrite Htile; clear Htile tile.
  - rewrite Hs, Hr. cbn [JS.truthy_opt negb andb].
    destruct (negb (Tile.biome base =? "water")%string); cbn [andb].
    + unfold generated_tile. simpl. repeat split; auto. left.
      repeat split; auto.
      destruct (Scatter.getScatterType base wx wy noise) as [o |] eqn:Hscatter;
        [| exact I].
      apply getScatterType_cases in Hscatter as [_ Hscatter].
      destruct Hscatter
        as [[Hb ->] | [[[Hb | Hb] [-> | ->]] | [[Hb ->] | [Hb ->]]]];
        rewrite Hb in *; try (split; [auto | reflexivity]);
        exfalso; simpl in Hbase; intuition discriminate.
    + unfold generated_tile. repeat split; auto. left. repeat split; auto.
      now rewrite Ho.
  - destruct (canPlaceStructure_type _ _ _ Hvalid) as [-> | ->]; simpl;
      (unfold generated_tile; simpl; repeat split; auto;
       right; eexists; repeat split; eauto; discriminate).
Qed.

Lemma buildTile_generated (x y : Z) :
  generated_tile structureType (cx * CONFIG.CHUNK_SIZE + x) (cy * CONFIG.CHUNK_SIZE + y)
    (buildTile cx cy noiseFunctions structureType rotatedTemplate x y).
Proof.
  unfold buildTile. apply finish_generated; try reflexivity.
  apply classifyBiome_classified.
Qed.

End GeneratedTiles.

(** The grid of [generateChunk] is the grid of the tile loops for the
    structure type of the chunk, autotiled. *)
Lemma generateChunk_grid_of (cx cy worldSeed : Z) (noiseFunctions : Noise.functions)
    (registry : Chunk.Registry) :
  exists rotatedTemplate chunk,
    (Chunk.generateChunk cx cy worldSeed noiseFunctions registry).1 = Some chunk
    /\ same_core
         (Chunk.buildTiles cx cy noiseFunctions
            (structureTypeOf cx cy worldSeed registry) rotatedTemplate) chunk.
Proof.
  unfold Chunk.generateChunk, structureTypeOf.
  destruct (Chunk.placeStructure cx cy worldSeed registry) as [structureType registry'].
  set (st := Chunk.adopt _ _). set (rt := Chunk.rotatedTemplateOf _ _ _ _).
  destruct (applyChunkAutotiling_total _ _ (buildTiles_rectangular cx cy noiseFunctions st rt))
    as (chunk & Hchunk & Hsame).
  exists rt, chunk. simpl. auto.
Qed.

(** The grid of [generateChunk], position by position. *)
Lemma generateChunk_tiles (cx cy worldSeed : Z) (noiseFunctions : Noise.functions)
    (registry registry1 : Chunk.Registry) (chunk : Tile.grid) :
  Chunk.generateChunk cx cy worldSeed noiseFunctions registry = (Some chunk, registry1) ->
  forall i j,
    (in_chunk i j <-> is_Some (Tile.get chunk i j))
    /\ forall tile,
         Tile.get chunk i j = Some tile ->
         generated_tile (structureTypeOf cx cy worldSeed registry)
           (cx * CONFIG.CHUNK_SIZE + i) (cy * CONFIG.CHUNK_SIZE + j) tile.
Proof.
  intros Hgen.
  destruct (generateChunk_grid_of cx cy worldSeed noiseFunctions registry)
    as (rt & chunk' & Hchunk & Hsame).
  rewrite Hgen in Hchunk. injection Hchunk as <-.
  set (st := structureTypeOf cx cy worldSeed registry) in *.
  intros i j. specialize (Hsame i j). rewrite get_buildTiles in Hsame.
  split.
  - assert (Hin : in_chunk i j
                  <-> (0 <=? i) && (i <? CONFIG.CHUNK_SIZE)
                      && ((0 <=? j) && (j <? CONFIG.CHUNK_SIZE)) = true).
    { unfold in_chunk. rewrite !andb_true_iff, !Z.leb_le, !Z.ltb_lt. tauto. }
    rewrite Hin.
    destruct (_ && _ && _), (Tile.get chunk i j); try discriminate Hsame;
      split; eauto; try discriminate; intros [? Hnone]; discriminate Hnone.
  - intros tile Htile. rewrite Htile in Hsame.
    destruct (_ && _ && _); [| discriminate].
    pose proof (buildTile_generated cx cy noiseFunctions st rt i j) as Hb.
    simpl in Hsame. unfold core in Hsame.
    injection Hsame as Hx Hy He Hbi Ht Hh Hs Ho Hr.
    unfold generated_tile in *. rewrite Hx, Hy, He, Hbi, Hs, Ho, Hr. exact Hb.
Qed.

(** A chunk of [generateChunk] has a tile at [(i, j)] exactly for
    [0 <= i, j < CHUNK_SIZE], and that tile carries the world coordinates
    [cx * CHUNK_SIZE + i] and [cy * CHUNK_SIZE + j] and no road tag. *)
Theorem generateChunk_world_coordinates (cx cy worldSeed : Z)
    (noiseFunctions : Noise.functions) (registry registry1 : Chunk.Registry)
    (chunk : Tile.grid) (i j : Z) :
  Chunk.generateChunk cx cy worldSeed noiseFunctions registry = (Some chunk, registry1) ->
  (in_chunk i j <-> is_Some (Tile.get chunk i j))
  /\ (forall tile,
        Tile.get chunk i j = Some tile ->
        Tile.x tile = cx * CONFIG.CHUNK_SIZE + i
        /\ Tile.y tile = cy * CONFIG.CHUNK_SIZE + j
        /\ Tile.roadType tile = None).
Proof.
  intros Hgen. pose proof (generateChunk_tiles _ _ _ _ _ _ _ Hgen) as Htiles.
  destruct (Htiles i j) as [Hin Htile]. split; [exact Hin |].
  intros tile Hget. destruct (Htile tile Hget) as (Hx & Hy & Hr & _). auto.
Qed.

Lemma generateChunk_world_coordinates_witness :
  exists chunk registry1 tile,
    Chunk.generateChunk 1 (-2) 12345 flat [] = (Some chunk, registry1)
    /\ Tile.get chunk 3 4 = Some tile
    /\ Tile.x tile = 35 /\ Tile.y tile = -60.
Proof.
  assert (H : is_Some ((Chunk.generateChunk 1 (-2) 12345 flat []).1
                         ≫= fun chunk => Tile.get chunk 3 4))
    by (vm_compute; eauto).
  destruct (Chunk.generateChunk 1 (-2) 12345 flat []) as [[chunk |] registry1] eqn:Hgen;
    [| destruct H as [? [=]]].
  cbn [fst mbind option_bind] in H.
  destruct (Tile.get chunk 3 4) as [tile |] eqn:Hget; [| destruct H as [? [=]]].
  exists chunk, registry1, tile. split; [reflexivity |]. split; [exact Hget |].
  destruct (proj2 (generateChunk_world_coordinates _ _ _ _ _ _ _ 3 4 Hgen) tile Hget)
    as (Hx & Hy & _).
  split; [exact Hx | exact Hy].
Defined.

(** In a chunk of [generateChunk], a tile with a structure has the type
    "village" or "dungeon", has that type as its biome, carries no object,
    and lies at the elevation 0.5 if it is a village tile; all the structure
    tiles of the chunk have the same type; and a tile without a structure
    has one of the seven classified biomes. *)
Theorem generateChunk_structure_tiles (cx cy worldSeed : Z)
    (noiseFunctions : Noise.functions) (registry registry1 : Chunk.Registry)
    (chunk : Tile.grid) (i j i' j' : Z) (tile tile' : Tile.t) :
  Chunk.generateChunk cx cy worldSeed noiseFunctions registry = (Some chunk, registry1) ->
  Tile.get chunk i j = Some tile ->
  Tile.get chunk i' j' = Some tile' ->
  (forall ty,
     Tile.structure tile = Some ty ->
     (ty = "village" \/ ty = "dungeon")
     /\ Tile.biome tile = ty
     /\ Tile.object tile = None
     /\ (ty = "village" -> Tile.elevation tile = 0.5%float)
     /\ (forall ty', Tile.structure tile' = Some ty' -> ty' = ty))
  /\ (Tile.structure tile = None -> In (Tile.biome tile) classified).
Proof.
  intros Hgen Hget Hget'.
  pose proof (generateChunk_tiles _ _ _ _ _ _ _ Hgen) as Htiles.
  destruct (proj2 (Htiles i j) tile Hget) as (_ & _ & _ & Hkind).
  destruct (proj2 (Htiles i' j') tile' Hget') as (_ & _ & _ & Hkind').
  split.
  - intros ty Hty.
    destruct Hkind as [(Hs & _) | (ty0 & Hst & Hs & Hb & Hty0 & Ho & He)];
      [congruence |].
    assert (E : ty0 = ty) by congruence. rewrite E in *. clear E.
    split; [exact Hty0 |]. split; [exact Hb |]. split; [exact Ho |].
    split; [exact He |]. intros ty' Hty'.
    destruct Hkind' as [(Hs' & _) | (ty1 & Hst' & Hs' & _)]; congruence.
  - intros Hnone.
    destruct Hkind as [(_ & Hb & _) | (ty0 & _ & Hs & _)]; [exact Hb | congruence].
Qed.

Lemma generateChunk_structure_tiles_witness :
  exists chunk registry1 tile,
    Chunk.generateChunk (-5) 4 12345 flat [] = (Some chunk, registry1)
    /\ Tile.get chunk 15 15 = Some tile
    /\ Tile.biome tile = "village"
    /\ Tile.elevation tile = 0.5%float.
Proof.
  assert (H : Tile.structure
                <$> ((Chunk.generateChunk (-5) 4 12345 flat []).1
                       ≫= fun chunk => Tile.get chunk 15 15)
              = Some (Some "village")) by (vm_compute; reflexivity).
  destruct (Chunk.generateChunk (-5) 4 12345 flat []) as [[chunk |] registry1] eqn:Hgen;
    [| discriminate H].
  cbn [fst mbind option_bind] in H.
  destruct (Tile.get chunk 15 15) as [tile |] eqn:Hget; [| discriminate H].
  injection H as Hs. exists chunk, registry1, tile.
  split; [reflexivity |]. split; [exact Hget |].
  destruct (proj1 (generateChunk_structure_tiles _ _ _ _ _ _ _ 15 15 15 15 tile tile
                     Hgen Hget Hget) "village" Hs) as (_ & Hb & _ & He & _).
  split; [exact Hb | exact (He eq_refl)].
Defined.

(** In a chunk of [generateChunk], an object is a "tree" or a "rock" (never
    a "flower"), stands on a tile without structure, and is valid for the
    biome of its tile according to [isObjectValidForBiome]. *)
Theorem generateChunk_objects_valid (cx cy worldSeed : Z)
    (noiseFunctions : Noise.functions) (registry registry1 : Chunk.Registry)
    (chunk : Tile.grid) (i j : Z) (tile : Tile.t) (o : string) :
  Chunk.generateChunk cx cy worldSeed noiseFunctions registry = (Some chunk, registry1) ->
  Tile.get chunk i j = Some tile ->
  Tile.object tile = Some o ->
  (o = "tree" \/ o = "rock")
  /\ Tile.structure tile = None
  /\ Scatter.isObjectValidForBiome o (Tile.biome tile) = true.
Proof.
  intros Hgen Hget Ho.
  pose proof (generateChunk_tiles _ _ _ _ _ _ _ Hgen) as Htiles.
  destruct (proj2 (Htiles i j) tile Hget) as (_ & _ & _ & Hkind).
  destruct Hkind as [(Hs & _ & Hobj) | (ty & _ & _ & _ & _ & Hnone & _)];
    [| congruence].
  rewrite Ho in Hobj. tauto.
Qed.

Lemma generateChunk_objects_valid_witness :
  exists chunk registry1 tile,
    Chunk.generateChunk 0 0 12345 wooded [] = (Some chunk, registry1)
    /\ Tile.get chunk 0 0 = Some tile
    /\ Tile.object tile = Some "tree"
    /\ Scatter.isObjectValidForBiome "tree" (Tile.biome tile) = true.
Proof.
  assert (H : Tile.object
                <$> ((Chunk.generateChunk 0 0 12345 wooded []).1
                       ≫= fun chunk => Tile.get chunk 0 0)
              = Some (Some "tree")) by (vm_compute; reflexivity).
  destruct (Chunk.generateChunk 0 0 12345 wooded []) as [[chunk |] registry1] eqn:Hgen;
    [| discriminate H].
  cbn [fst mbind option_bind] in H.
  destruct (Tile.get chunk 0 0) as [tile |] eqn:Hget; [| discriminate H].
  injection H as Ho. exists chunk, registry1, tile.
  split; [reflexivity |]. split; [exact Hget |]. split; [exact Ho |].
  exact (proj2 (proj2 (generateChunk_objects_valid _ _ _ _ _ _ _ 0 0 tile "tree"
                         Hgen Hget Ho))).
Defined.

(** In a chunk of [generateChunk]: a water tile is neither walkable nor
    solid; a structure tile is solid and not walkable; and a tile with an
    object is solid and yet walkable, since [isWalkable] does not look at
    the object. *)
Theorem generateChunk_walkable_solid (cx cy worldSeed : Z)
    (noiseFunctions : Noise.functions) (registry registry1 : Chunk.Registry)
    (chunk : Tile.grid) (i j : Z) (tile : Tile.t) :
  Chunk.generateChunk cx cy worldSeed noiseFunctions registry = (Some chunk, registry1) ->
  Tile.get chunk i j = Some tile ->
  (Tile.biome tile = "water" ->
   Tile.isWalkable tile = false /\ Tile.isSolid tile = false)
  /\ (Tile.structure tile <> None ->
      Tile.isWalkable tile = false /\ Tile.isSolid tile = true)
  /\ (Tile.object tile <> None ->
      Tile.isWalkable tile = true /\ Tile.isSolid tile = true).
Proof.
  intros Hgen Hget.
  pose proof (generateChunk_tiles _ _ _ _ _ _ _ Hgen) as Htiles.
  destruct (proj2 (Htiles i j) tile Hget) as (_ & _ & _ & Hkind).
  unfold Tile.isWalkable, Tile.isSolid.
  destruct Hkind as [(Hs & Hb & Hobj) | (ty & _ & Hs & Hb & Hty & Ho & _)].
  - rewrite Hs. destruct (Tile.object tile) as [o |] eqn:Ho.
    + destruct Hobj as [Hkind Hvalid].
      assert (Hw : Tile.biome tile <> "water").
      { intros Hw. rewrite Hw in Hvalid. destruct Hkind as [-> | ->]; discriminate. }
      split; [intros Hwater; contradiction |].
      split; [intros Hn; contradiction |].
      intros _. apply String.eqb_neq in Hw. now rewrite Hw.
    + split; [intros ->; split; reflexivity |].
      split; intros Hn; contradiction.
  - rewrite Hs, Ho, Hb.
    split; [intros ->; destruct Hty; discriminate |].
    split; [intros _; split; [apply andb_false_r | reflexivity] |].
    intros Hn; contradiction.
Qed.

Lemma generateChunk_walkable_solid_witness :
  exists chunk registry1 tile,
    Chunk.generateChunk 0 0 12345 sea [] = (Some chunk, registry1)
    /\ Tile.get chunk 7 9 = Some tile
    /\ Tile.isWalkable tile = false /\ Tile.isSolid tile = false.
Proof.
  assert (H : Tile.biome
                <$> ((Chunk.generateChunk 0 0 12345 sea []).1
                       ≫= fun chunk => Tile.get chunk 7 9)
              = Some "water") by (vm_compute; reflexivity).
  destruct (Chunk.generateChunk 0 0 12345 sea []) as [[chunk |] registry1] eqn:Hgen;
    [| discriminate H].
  cbn [fst mbind option_bind] in H.
  destruct (Tile.get chunk 7 9) as [tile |] eqn:Hget; [| discriminate H].
  injection H as Hb. exists chunk, registry1, tile.
  split; [reflexivity |]. split; [exact Hget |].
  exact (proj1 (generateChunk_walkable_solid _ _ _ _ _ _ _ 7 9 tile Hgen Hget) Hb).
Defined.

(* ------------------------------------------------------------------ *)
(** ** What a chunk reads from and writes to the registry               *)
(* ------------------------------------------------------------------ *)

Section RegistryUse.

Import Chunk.

Lemma registry_set_other (registry : Registry) (key k : Z * Z)
    (data d : StructureRecord) :
  k <> key -> (In (k, d) (registry_set registry key data) <-> In (k, d) registry).
Proof.
  intros Hk. induction registry as [| [k0 d0] registry IH]; simpl.
  - split; [intros [[= -> ->] | []]; contradiction | intros []].
  - destruct (key_eqb k0 key) eqn:E.
    + apply key_eqb_eq in E as ->. simpl.
      split; (intros [[= -> ->] | H]; [contradiction | now right]).
    + simpl. rewrite IH. reflexivity.
Qed.

(** An existing key keeps its place and a new key goes last. *)
Lemma registry_set_order (registry : Registry) (key : Z * Z) (data : StructureRecord) :
  (In key (map fst registry)
   /\ map fst (registry_set registry key data) = map fst registry)
  \/ (~ In key (map fst registry)
      /\ map fst (registry_set registry key data) = (map fst registry ++ [key])%list).
Proof.
  induction registry as [| [k0 d0] registry IH]; simpl.
  - right. split; [tauto | reflexivity].
  - destruct (key_eqb k0 key) eqn:E.
    + apply key_eqb_eq in E as ->. left. split; [now left | reflexivity].
    + assert (k0 <> key) by (intros ->; rewrite (proj2 (key_eqb_eq key key) eq_refl) in E;
                             discriminate).
      simpl. destruct IH as [[Hin ->] | [Hout ->]].
      * left. split; [now right | reflexivity].
      * right. split; [intros [? | ?]; contradiction | reflexivity].
Qed.

Lemma placeStructure_cases (cx cy worldSeed : Z) (registry : Registry) :
  placeStructure cx cy worldSeed registry = (None, registry)
  \/ exists ty,
       (ty = "village" \/ ty = "dungeon")
       /\ (candidate cx cy worldSeed).1 = true
       /\ placeStructure cx cy worldSeed registry
          = (Some ty,
             registry_set registry (cx, cy) {| type := ty; cx := cx; cy := cy |}).
Proof.
  unfold placeStructure.
  destruct (candidate cx cy worldSeed) as [[|] gridRng]; [| now left].
  destruct (Seed.next gridRng) as [roll g].
  destruct (roll <? CONFIG.STRUCTURE_SPAWN_CHANCE_VILLAGE)%float;
    [right; exists "village"; auto |].
  destruct (roll <? CONFIG.STRUCTURE_SPAWN_CHANCE_DUNGEON)%float;
    [right; exists "dungeon"; auto | now left].
Qed.

Lemma nearby_find (cx cy : Z) (registry : Registry) :
  nearby cx cy registry = snd <$> List.find (near cx cy) registry.
Proof. reflexivity. Qed.

End RegistryUse.

(** [generateChunk] writes the registry at its own key only: the registry
    afterwards is the registry before, or the registry before with the
    record of a village or a dungeon at [(cx, cy)] stored under the key
    [(cx, cy)]; the entries under the other keys are as they were, the keys
    that were there keep their order, and a new key goes last. *)
Theorem generateChunk_registry_writes (cx cy worldSeed : Z)
    (noiseFunctions : Noise.functions) (registry : Chunk.Registry) :
  let registry1 := (Chunk.generateChunk cx cy worldSeed noiseFunctions registry).2 in
  (registry1 = registry
   \/ exists ty,
        (ty = "village" \/ ty = "dungeon")
        /\ In ((cx, cy), {| Chunk.type := ty; Chunk.cx := cx; Chunk.cy := cy |}) registry1)
  /\ (forall k d, k <> (cx, cy) -> (In (k, d) registry1 <-> In (k, d) registry))
  /\ (map fst registry1 = map fst registry
      \/ (~ In (cx, cy) (map fst registry)
          /\ map fst registry1 = (map fst registry ++ [(cx, cy)])%list)).
Proof.
  cbv zeta. rewrite generateChunk_registry.
  destruct (placeStructure_cases cx cy worldSeed registry) as [-> | (ty & Hty & _ & ->)];
    cbn [snd].
  - split; [now left |]. split; [tauto | now left].
  - set (data := {| Chunk.type := ty; Chunk.cx := cx; Chunk.cy := cy |}).
    split; [| split].
    + right. exists ty. split; [exact Hty |].
      clear. induction registry as [| [k d] registry IH]; simpl; [now left |].
      destruct (Chunk.key_eqb k (cx, cy)) eqn:E.
      * apply key_eqb_eq in E as ->. now left.
      * now right.
    + intros k d Hk. now apply registry_set_other.
    + destruct (registry_set_order registry (cx, cy) data) as [[_ ->] | [Hout ->]];
        [now left | right; auto].
Qed.

(** A chunk that is not the candidate of its cell leaves the registry as it
    is, and its structure tiles, if any, have the type of the first record
    of the registry that lies within one chunk of it in both directions;
    without such a record it has no structure tile. *)
Theorem generateChunk_adopts (cx cy worldSeed : Z)
    (noiseFunctions : Noise.functions) (registry registry1 : Chunk.Registry)
    (chunk : Tile.grid) (i j : Z) (tile : Tile.t) (ty : string) :
  (Chunk.candidate cx cy worldSeed).1 = false ->
  Chunk.generateChunk cx cy worldSeed noiseFunctions registry = (Some chunk, registry1) ->
  registry1 = registry
  /\ (Tile.get chunk i j = Some tile -> Tile.structure tile = Some ty ->
      exists key data,
        List.find (near cx cy) registry = Some (key, data)
        /\ ty = Chunk.type data).
Proof.
  intros Hcand Hgen.
  assert (Hplace : Chunk.placeStructure cx cy worldSeed registry = (None, registry)).
  { destruct (placeStructure_cases cx cy worldSeed registry)
      as [H | (? & _ & Hc & _)]; [exact H | congruence]. }
  split.
  - pose proof (generateChunk_registry worldSeed cx cy noiseFunctions registry) as Hreg.
    rewrite Hgen, Hplace in Hreg. exact Hreg.
  - intros Hget Hs.
    destruct (proj2 (generateChunk_tiles _ _ _ _ _ _ _ Hgen i j) tile Hget)
      as (_ & _ & _ & Hkind).
    destruct Hkind as [(Hnone & _) | (ty0 & Hst & Hs0 & _)]; [congruence |].
    assert (ty0 = ty) by congruence. subst ty0.
    unfold structureTypeOf in Hst. rewrite Hplace, nearby_find in Hst.
    destruct (List.find (near cx cy) registry) as [[key data] |]; [| discriminate].
    exists key, data. split; [reflexivity |].
    simpl in Hst. congruence.
Qed.

(** The chunk (-6, 4) of the world 12345, generated after the village chunk
    (-5, 4) of its cell: its tile (15, 15) is a village tile. *)
Lemma generateChunk_adopts_witness :
  let village := {| Chunk.type := "village"; Chunk.cx := -5; Chunk.cy := 4 |} in
  exists chunk registry1 tile,
    Chunk.generateChunk (-6) 4 12345 flat [ ((-5, 4), village) ] = (Some chunk, registry1)
    /\ Tile.get chunk 15 15 = Some tile
    /\ Tile.structure tile = Some "village"
    /\ registry1 = [ ((-5, 4), village) ].
Proof.
  intros village.
  assert (H : Tile.structure
                <$> ((Chunk.generateChunk (-6) 4 12345 flat [ ((-5, 4), village) ]).1
                       ≫= fun chunk => Tile.get chunk 15 15)
              = Some (Some "village")) by (vm_compute; reflexivity).
  destruct (Chunk.generateChunk (-6) 4 12345 flat [ ((-5, 4), village) ])
    as [[chunk |] registry1] eqn:Hgen; [| discriminate H].
  cbn [fst mbind option_bind] in H.
  destruct (Tile.get chunk 15 15) as [tile |] eqn:Hget; [| discriminate H].
  injection H as Hs. exists chunk, registry1, tile.
  split; [reflexivity |]. split; [exact Hget |]. split; [exact Hs |].
  refine (proj1 (generateChunk_adopts (-6) 4 12345 flat _ _ chunk 15 15 tile "village"
                   _ Hgen)).
  vm_compute. reflexivity.
Defined.

(* ------------------------------------------------------------------ *)
(** ** Seeds are read modulo 2^32                                       *)
(* ------------------------------------------------------------------ *)

Section SeedsModulo.

Lemma toInt32_shift (z k : Z) : JS.toInt32 (z + k * 2 ^ 32) = JS.toInt32 z.
Proof.
  unfold JS.toInt32.
  replace (z + k * 2 ^ 32 + 2 ^ 31) with (z + 2 ^ 31 + k * 2 ^ 32) by ring.
  now rewrite Z_mod_plus_full.
Qed.

Lemma toUint32_shift (z k : Z) : JS.toUint32 (z + k * 2 ^ 32) = JS.toUint32 z.
Proof. unfold JS.toUint32. now rewrite Z_mod_plus_full. Qed.

(** One call of the closure: the same number, and the captured variable
    keeps its distance. *)
Lemma next_shift (a k : Z) :
  Seed.next (a + k * 2 ^ 32) = ((Seed.next a).1, (Seed.next a).2 + k * 2 ^ 32).
Proof.
  unfold Seed.next. cbv zeta. cbn [fst snd].
  replace (a + k * 2 ^ 32 + 1831565813) with (a + 1831565813 + k * 2 ^ 32) by ring.
  set (t := a + 1831565813).
  assert (Hx : forall b, JS.xor (t + k * 2 ^ 32) b = JS.xor t b)
    by (intros b; unfold JS.xor; now rewrite toInt32_shift).
  assert (Ho : forall b, JS.or (t + k * 2 ^ 32) b = JS.or t b)
    by (intros b; unfold JS.or; now rewrite toInt32_shift).
  assert (Hu : forall b, JS.ushr (t + k * 2 ^ 32) b = JS.ushr t b)
    by (intros b; unfold JS.ushr; now rewrite toUint32_shift).
  rewrite Hx, Ho, Hu. reflexivity.
Qed.

Lemma candidate_shift (cx cy worldSeed k : Z) :
  Chunk.candidate cx cy (worldSeed + k * 2 ^ 32)
  = ((Chunk.candidate cx cy worldSeed).1,
     (Chunk.candidate cx cy worldSeed).2 + k * 2 ^ 32).
Proof.
  unfold Chunk.candidate, Seed.createSeededRandom, Seed.mulberry32. cbv zeta.
  replace (worldSeed + k * 2 ^ 32 + Chunk.gridOf cx * 918273 + Chunk.gridOf cy * 192837)
    with (worldSeed + Chunk.gridOf cx * 918273 + Chunk.gridOf cy * 192837 + k * 2 ^ 32)
    by ring.
  rewrite next_shift.
  destruct (Seed.next (worldSeed + Chunk.gridOf cx * 918273 + Chunk.gridOf cy * 192837))
    as [r1 g1]. cbn [fst snd].
  rewrite next_shift. destruct (Seed.next g1) as [r2 g2]. reflexivity.
Qed.

Lemma placeStructure_shift (cx cy worldSeed k : Z) (registry : Chunk.Registry) :
  Chunk.placeStructure cx cy (worldSeed + k * 2 ^ 32) registry
  = Chunk.placeStructure cx cy worldSeed registry.
Proof.
  unfold Chunk.placeStructure. rewrite candidate_shift.
  destruct (Chunk.candidate cx cy worldSeed) as [[|] g]; cbn [fst snd]; [| reflexivity].
  rewrite next_shift. destruct (Seed.next g) as [roll g']. reflexivity.
Qed.

Lemma getRandomizedTemplate_shift (structureType : string) (seed k : Z) :
  Structure.getRandomizedTemplate structureType (seed + k * 2 ^ 32)
  = Structure.getRandomizedTemplate structureType seed.
Proof.
  unfold Structure.getRandomizedTemplate, Seed.createSeededRandom, Seed.mulberry32.
  destruct (Structure.STRUCTURE_TEMPLATES structureType) as [base |]; [| reflexivity].
  rewrite next_shift. destruct (Seed.next seed) as [r1 g1]. cbn [fst snd].
  rewrite next_shift. destruct (Seed.next g1) as [r2 g2]. reflexivity.
Qed.

End SeedsModulo.

(** A random stream reads its seed modulo 2^32: two seeds that differ by a
    multiple of 2^32, both small enough for the additions of the stream to
    be exact up to the call [n], give the same number at that call. *)
Theorem createSeededRandom_seed_mod (seed k : Z) (n : nat) :
  exact_stream seed (S n) ->
  exact_stream (seed + k * 2 ^ 32) (S n) ->
  stream (Seed.createSeededRandom (seed + k * 2 ^ 32)) n
  = stream (Seed.createSeededRandom seed) n.
Proof.
  intros _ _. unfold Seed.createSeededRandom, Seed.mulberry32. revert seed.
  induction n as [| n IH]; intros seed; cbn [stream]; rewrite next_shift;
    cbn [fst snd]; [reflexivity | apply IH].
Qed.

(** The seeds 12345 and 12345 + 5 * 2^32, at the third call. *)
Lemma createSeededRandom_seed_mod_witness :
  stream (Seed.createSeededRandom (12345 + 5 * 2 ^ 32)) 2
  = stream (Seed.createSeededRandom 12345) 2.
Proof.
  apply (createSeededRandom_seed_mod 12345 5 2); unfold exact_stream; simpl; lia.
Defined.

(** With the same noise functions, two world seeds that differ by a
    multiple of 2^32, both small enough for the seeds of the chunk to be
    computed exactly, give the same chunk and the same registry. *)
Theorem generateChunk_seed_mod (cx cy worldSeed k : Z)
    (noiseFunctions : Noise.functions) (registry : Chunk.Registry) :
  exact_seeds cx cy worldSeed ->
  exact_seeds cx cy (worldSeed + k * 2 ^ 32) ->
  Chunk.generateChunk cx cy (worldSeed + k * 2 ^ 32) noiseFunctions registry
  = Chunk.generateChunk cx cy worldSeed noiseFunctions registry.
Proof.
  intros _ _. unfold Chunk.generateChunk. rewrite placeStructure_shift.
  destruct (Chunk.placeStructure cx cy worldSeed registry) as [structureType registry1].
  cbv zeta.
  assert (Chunk.rotatedTemplateOf
            (Chunk.adopt structureType (Chunk.nearby cx cy registry1)) cx cy
            (worldSeed + k * 2 ^ 32)
          = Chunk.rotatedTemplateOf
              (Chunk.adopt structureType (Chunk.nearby cx cy registry1)) cx cy
              worldSeed) as ->; [| reflexivity].
  unfold Chunk.rotatedTemplateOf.
  destruct (Chunk.adopt structureType (Chunk.nearby cx cy registry1)) as [ty |];
    [| reflexivity].
  destruct (JS.truthy ty); [| reflexivity].
  replace (worldSeed + k * 2 ^ 32 + cx * 123456 + cy * 789012)
    with (worldSeed + cx * 123456 + cy * 789012 + k * 2 ^ 32) by ring.
  now rewrite getRandomizedTemplate_shift.
Qed.

(** The village chunk (-5, 4) of the world 12345, and of the world
    12345 + 2^32. *)
Lemma generateChunk_seed_mod_witness :
  Chunk.generateChunk (-5) 4 (12345 + 1 * 2 ^ 32) flat []
  = Chunk.generateChunk (-5) 4 12345 flat [].
Proof.
  apply (generateChunk_seed_mod (-5) 4 12345 1 flat []);
    unfold exact_seeds; vm_compute; split; discriminate.
Defined.

(* ------------------------------------------------------------------ *)
(** ** The chunk cache                                                  *)
(* ------------------------------------------------------------------ *)

Section CacheUse.

Import Chunk.

Lemma getChunk_spec (cache : ChunkCache) (cx cy worldSeed : Z)
    (noiseFunctions : Noise.functions) :
  exists chunk cache1,
    getChunk cache cx cy worldSeed noiseFunctions = (Some chunk, cache1)
    /\ chunks cache1 !! (cx, cy) = Some chunk
    /\ (forall k, k <> (cx, cy) -> chunks cache1 !! k = chunks cache !! k)
    /\ (forall k c, chunks cache !! k = Some c -> chunks cache1 !! k = Some c).
Proof.
  unfold getChunk, getChunkKey.
  destruct (chunks cache !! (cx, cy)) as [chunk |] eqn:Hc.
  - exists chunk, cache. auto.
  - destruct (generateChunk_grid cx cy worldSeed noiseFunctions (registry cache))
      as (_ & _ & chunk & Hchunk & _).
    destruct (generateChunk cx cy worldSeed noiseFunctions (registry cache))
      as [grid registry1].
    cbn [fst] in Hchunk. subst grid.
    eexists _, _. split; [reflexivity |]. cbn [chunks].
    split; [apply lookup_insert_eq |].
    split.
    + intros k Hk. now apply lookup_insert_ne.
    + intros k c Hk. destruct (decide (k = (cx, cy))) as [-> |].
      * rewrite Hc in Hk. discriminate Hk.
      * now rewrite lookup_insert_ne.
Qed.

Lemma registry_delete_set (registry : Registry) (key : Z * Z) (data : StructureRecord) :
  ~ In key (map fst registry) ->
  registry_delete (registry_set registry key data) key = registry.
Proof.
  unfold registry_delete.
  induction registry as [| [k d] registry IH]; intros Hout; simpl.
  - now rewrite (proj2 (key_eqb_eq key key) eq_refl).
  - simpl in Hout.
    destruct (key_eqb k key) eqn:E.
    + apply key_eqb_eq in E. tauto.
    + simpl. rewrite E. simpl. f_equal. apply IH. tauto.
Qed.

Lemma registry_delete_absent (registry : Registry) (key : Z * Z) :
  ~ In key (map fst registry) -> registry_delete registry key = registry.
Proof.
  unfold registry_delete.
  induction registry as [| [k d] registry IH]; intros Hout; simpl; [reflexivity |].
  simpl in Hout.
  destruct (key_eqb k key) eqn:E.
  - apply key_eqb_eq in E. tauto.
  - simpl. f_equal. apply IH. tauto.
Qed.

End CacheUse.

(** [getChunk] returns a chunk and holds it afterwards under its key; the
    other chunks of the cache are as before; and asking again for the chunk
    returns the chunk held, whatever the seed and the noise functions of
    the second call, and leaves the cache as it is. *)
Theorem getChunk_cached (cache : Chunk.ChunkCache) (cx cy worldSeed : Z)
    (noiseFunctions : Noise.functions) :
  exists chunk cache1,
    Chunk.getChunk cache cx cy worldSeed noiseFunctions = (Some chunk, cache1)
    /\ Chunk.chunks cache1 !! (cx, cy) = Some chunk
    /\ (forall k, k <> (cx, cy) -> Chunk.chunks cache1 !! k = Chunk.chunks cache !! k)
    /\ (forall worldSeed' noiseFunctions',
          Chunk.getChunk cache1 cx cy worldSeed' noiseFunctions' = (Some chunk, cache1)).
Proof.
  destruct (getChunk_spec cache cx cy worldSeed noiseFunctions)
    as (chunk & cache1 & Hget & Hheld & Hother & _).
  exists chunk, cache1. split; [exact Hget |]. split; [exact Hheld |].
  split; [exact Hother |].
  intros worldSeed' noiseFunctions'. unfold Chunk.getChunk, Chunk.getChunkKey.
  now rewrite Hheld.
Qed.

(** On a cache that holds neither the chunk [(cx, cy)] nor a record under
    that key, [getChunk] followed by [unloadChunk] gives the cache back:
    the chunk and the record it may have written are both gone. *)
Theorem unloadChunk_getChunk (cache : Chunk.ChunkCache) (cx cy worldSeed : Z)
    (noiseFunctions : Noise.functions) :
  Chunk.chunks cache !! (cx, cy) = None ->
  ~ In (cx, cy) (map fst (Chunk.registry cache)) ->
  Chunk.unloadChunk (Chunk.getChunk cache cx cy worldSeed noiseFunctions).2 cx cy = cache.
Proof.
  intros Hnone Hout.
  destruct (generateChunk_grid cx cy worldSeed noiseFunctions (Chunk.registry cache))
    as (_ & _ & chunk & Hchunk & _).
  pose proof (generateChunk_registry worldSeed cx cy noiseFunctions (Chunk.registry cache))
    as Hreg.
  destruct (Chunk.generateChunk cx cy worldSeed noiseFunctions (Chunk.registry cache))
    as [grid registry1] eqn:Hgen.
  cbn [fst snd] in Hchunk, Hreg. subst grid.
  rewrite (getChunk_fresh cache cx cy worldSeed noiseFunctions chunk registry1 Hnone Hgen).
  cbn [snd]. unfold Chunk.unloadChunk, Chunk.getChunkKey. cbn [Chunk.chunks Chunk.registry].
  destruct cache as [chunks0 registry0]. cbn [Chunk.chunks Chunk.registry] in *.
  f_equal.
  - now apply delete_insert_id.
  - rewrite Hreg.
    destruct (placeStructure_cases cx cy worldSeed registry0) as [-> | (ty & _ & _ & ->)];
      cbn [snd].
    + now apply registry_delete_absent.
    + now apply registry_delete_set.
Qed.

(** The empty cache, and the chunk (-5, 4) of the world 12345, which places
    a village. *)
Lemma unloadChunk_getChunk_witness :
  Chunk.unloadChunk (Chunk.getChunk Chunk.newChunkCache (-5) 4 12345 flat).2 (-5) 4
  = Chunk.newChunkCache.
Proof.
  apply (unloadChunk_getChunk Chunk.newChunkCache (-5) 4 12345 flat).
  - reflexivity.
  - simpl. tauto.
Defined.

(** [unloadDistantChunks] keeps the chunks within [keepDistance] of the
    centre in both directions, as they are, and no other; a second call
    with the same centre and distance changes nothing. *)
Theorem unloadDistantChunks_keeps (cache : Chunk.ChunkCache)
    (centerCX centerCY keepDistance : Z) :
  let cache1 := Chunk.unloadDistantChunks cache centerCX centerCY keepDistance in
  (forall cx cy chunk,
     Chunk.chunks cache1 !! (cx, cy) = Some chunk
     <-> Chunk.chunks cache !! (cx, cy) = Some chunk
         /\ Z.abs (cx - centerCX) <= keepDistance
         /\ Z.abs (cy - centerCY) <= keepDistance)
  /\ Chunk.unloadDistantChunks cache1 centerCX centerCY keepDistance = cache1.
Proof.
  cbv zeta. split.
  - intros cx cy chunk. rewrite unloadDistantChunks_lookup.
    destruct (decide _) as [Hfar | Hnear].
    + split; [discriminate | intros (_ & ? & ?); lia].
    + split; [intros ?; split; [assumption | lia] | tauto].
  - set (cache1 := Chunk.unloadDistantChunks cache centerCX centerCY keepDistance).
    assert (Hc : Chunk.chunks
                   (Chunk.unloadDistantChunks cache1 centerCX centerCY keepDistance)
                 = Chunk.chunks cache1).
    { apply map_eq. intros [cx cy]. rewrite unloadDistantChunks_lookup.
      destruct (decide _) as [Hfar | Hnear]; [| reflexivity].
      unfold cache1. rewrite unloadDistantChunks_lookup.
      destruct (decide _) as [| Hnear]; [reflexivity | tauto]. }
    transitivity {| Chunk.chunks :=
                      Chunk.chunks
                        (Chunk.unloadDistantChunks cache1 centerCX centerCY keepDistance);
                    Chunk.registry := Chunk.registry cache1 |}; [reflexivity |].
    rewrite Hc. reflexivity.
Qed.

(* ------------------------------------------------------------------ *)
(** ** The cache after a frame                                          *)
(* ------------------------------------------------------------------ *)

Section Frames.

Import Chunk.

Variable worldSeed : Z.
Variable noiseFunctions : Noise.functions.

Lemma In_range (lo hi x : Z) : In x (Road.range lo hi) <-> lo <= x <= hi.
Proof.
  unfold Road.range. rewrite in_map_iff. split.
  - intros (i & <- & Hi%in_seq). lia.
  - intros Hx. exists (Z.to_nat (x - lo)). split; [lia |]. apply in_seq. lia.
Qed.

Lemma In_locals (x : Z) : In x locals -> 0 <= x < CONFIG.CHUNK_SIZE.
Proof.
  unfold locals. rewrite in_map_iff. intros (i & <- & Hi%in_seq). lia.
Qed.

(** A generated chunk has the tiles that the renderer reads. *)
Lemma generateChunk_readable (cx cy : Z) (registry registry1 : Registry)
    (chunk : Tile.grid) :
  generateChunk cx cy worldSeed noiseFunctions registry = (Some chunk, registry1) ->
  Renderer.readable chunk = true.
Proof.
  intros Hgen. unfold Renderer.readable.
  apply forallb_forall. intros x Hx%In_locals.
  apply forallb_forall. intros y Hy%In_locals.
  destruct (proj1 (proj1 (generateChunk_tiles _ _ _ _ _ _ _ Hgen x y)))
    as [tile ->]; [now split | reflexivity].
Qed.

Lemma getChunk_readable (cache cache1 : ChunkCache) (cx cy : Z) (chunk : Tile.grid) :
  readable_cache cache ->
  getChunk cache cx cy worldSeed noiseFunctions = (Some chunk, cache1) ->
  Renderer.readable chunk = true /\ readable_cache cache1.
Proof.
  intros Hcache. unfold getChunk, getChunkKey.
  destruct (chunks cache !! (cx, cy)) as [chunk0 |] eqn:Hc.
  - intros [= <- <-]. split; [now apply (Hcache (cx, cy)) | exact Hcache].
  - destruct (generateChunk cx cy worldSeed noiseFunctions (registry cache))
      as [[grid |] registry1] eqn:Hgen; [| discriminate].
    intros [= <- <-].
    pose proof (generateChunk_readable _ _ _ _ _ Hgen) as Hr.
    split; [exact Hr |].
    intros k c. cbn [chunks]. destruct (decide (k = (cx, cy))) as [-> |].
    + rewrite lookup_insert_eq. now intros [= <-].
    + rewrite lookup_insert_ne by congruence. apply Hcache.
Qed.

(** The body of the inner chunk loop. *)
Let load (cy : Z) (cache : ChunkCache) (cx : Z) : option ChunkCache :=
  match getChunk cache cx cy worldSeed noiseFunctions with
  | (Some chunk, cache') => if Renderer.readable chunk then Some cache' else None
  | (None, _) => None
  end.

Lemma load_row (cy : Z) (l : list Z) (cache : ChunkCache) :
  readable_cache cache ->
  exists cache',
    JS.for_each (load cy) l cache = Some cache'
    /\ readable_cache cache'
    /\ (forall k c, chunks cache !! k = Some c -> chunks cache' !! k = Some c)
    /\ (forall k, is_Some (chunks cache' !! k) ->
                  is_Some (chunks cache !! k) \/ exists cx, In cx l /\ k = (cx, cy))
    /\ (forall cx, In cx l -> is_Some (chunks cache' !! (cx, cy))).
Proof.
  revert cache. induction l as [| cx l IH]; intros cache Hcache.
  - exists cache. split; [reflexivity |]. split; [exact Hcache |]. split; [auto |].
    split; [auto | intros ? []].
  - destruct (getChunk_spec cache cx cy worldSeed noiseFunctions)
      as (chunk & cache1 & Hget & Hheld & Hother & Hkeep).
    destruct (getChunk_readable _ _ _ _ _ Hcache Hget) as [Hr Hcache1].
    destruct (IH cache1 Hcache1) as (cache' & Hrun & Hcache' & Hkeep' & Hnew & Hall).
    exists cache'. split; [| split; [| split; [| split]]].
    + cbn [JS.for_each]. unfold load at 1. rewrite Hget, Hr. exact Hrun.
    + exact Hcache'.
    + auto.
    + intros k Hk. destruct (Hnew k Hk) as [H1 | (cx' & Hin & ->)].
      * destruct (decide (k = (cx, cy))) as [-> |].
        -- right. exists cx. split; [now left | reflexivity].
        -- left. now rewrite <- Hother.
      * right. exists cx'. split; [now right | reflexivity].
    + intros cx' [<- | Hin]; [| now apply Hall].
      exists chunk. now apply Hkeep'.
Qed.

Lemma load_rows (lx ly : list Z) (cache : ChunkCache) :
  readable_cache cache ->
  exists cache',
    JS.for_each (fun cache cy => JS.for_each (load cy) lx cache) ly cache = Some cache'
    /\ readable_cache cache'
    /\ (forall k c, chunks cache !! k = Some c -> chunks cache' !! k = Some c)
    /\ (forall k, is_Some (chunks cache' !! k) ->
                  is_Some (chunks cache !! k) \/ (In k.1 lx /\ In k.2 ly))
    /\ (forall cx cy, In cx lx -> In cy ly -> is_Some (chunks cache' !! (cx, cy))).
Proof.
  revert cache. induction ly as [| cy ly IH]; intros cache Hcache.
  - exists cache. split; [reflexivity |]. split; [exact Hcache |]. split; [auto |].
    split; [auto | intros ? ? ? []].
  - destruct (load_row cy lx cache Hcache)
      as (cache1 & Hrow & Hcache1 & Hkeep & Hnew & Hall).
    destruct (IH cache1 Hcache1) as (cache' & Hrun & Hcache' & Hkeep' & Hnew' & Hall').
    exists cache'. split; [| split; [| split; [| split]]].
    + cbn [JS.for_each]. rewrite Hrow. exact Hrun.
    + exact Hcache'.
    + auto.
    + intros k Hk. destruct (Hnew' k Hk) as [H1 | [Hx Hy]].
      * destruct (Hnew k H1) as [H0 | (cx & Hin & ->)]; [now left |].
        right. split; [exact Hin | now left].
      * right. split; [exact Hx | now right].
    + intros cx cy' Hx [<- | Hy]; [| now apply Hall'].
      destruct (Hall cx Hx) as [chunk Hchunk]. exists chunk. now apply Hkeep'.
Qed.

Lemma loadChunks_spec (cache : ChunkCache) (range : Renderer.chunkRange) :
  readable_cache cache ->
  exists cache',
    Renderer.loadChunks cache range worldSeed noiseFunctions = Some cache'
    /\ (forall k c, chunks cache !! k = Some c -> chunks cache' !! k = Some c)
    /\ (forall k, is_Some (chunks cache' !! k) ->
                  is_Some (chunks cache !! k) \/ padded range k.1 k.2)
    /\ (forall cx cy, padded range cx cy -> is_Some (chunks cache' !! (cx, cy))).
Proof.
  intros Hcache.
  destruct (load_rows
              (Road.range (Renderer.minChunkX range - CONFIG.RENDER_DISTANCE)
                 (Renderer.maxChunkX range + CONFIG.RENDER_DISTANCE))
              (Road.range (Renderer.minChunkY range - CONFIG.RENDER_DISTANCE)
                 (Renderer.maxChunkY range + CONFIG.RENDER_DISTANCE))
              cache Hcache) as (cache' & Hrun & _ & Hkeep & Hnew & Hall).
  exists cache'. split; [exact Hrun |]. split; [exact Hkeep |]. split.
  - intros k Hk. destruct (Hnew k Hk) as [H0 | [Hx%In_range Hy%In_range]];
      [now left | right; now split].
  - intros cx cy [Hx Hy]. apply Hall; now apply In_range.
Qed.

End Frames.

Lemma newChunkCache_readable : readable_cache Chunk.newChunkCache.
Proof.
  intros k chunk H. unfold Chunk.newChunkCache in H. cbn [Chunk.chunks] in H.
  rewrite lookup_empty in H. discriminate H.
Defined.

(** On a cache of readable chunks, [renderWorld] ends with a cache whose
    chunks all lie within [RENDER_DISTANCE + 2] chunks of the centre of the
    visible range; each of them was in the cache before, unchanged, or
    belongs to the padded range. *)
Theorem renderWorld_cache_bound (cache : Chunk.ChunkCache)
    (range : Renderer.chunkRange) (worldSeed : Z) (noiseFunctions : Noise.functions) :
  readable_cache cache ->
  exists cache',
    Renderer.renderWorld cache range worldSeed noiseFunctions = Some cache'
    /\ forall cx cy chunk,
         Chunk.chunks cache' !! (cx, cy) = Some chunk ->
         Z.abs (cx - (centre range).1) <= CONFIG.RENDER_DISTANCE + 2
         /\ Z.abs (cy - (centre range).2) <= CONFIG.RENDER_DISTANCE + 2
         /\ (Chunk.chunks cache !! (cx, cy) = Some chunk \/ padded range cx cy).
Proof.
  intros Hcache.
  destruct (loadChunks_spec worldSeed noiseFunctions cache range Hcache)
    as (cache1 & Hload & Hkeep & Hnew & _).
  eexists. split; [unfold Renderer.renderWorld; rewrite Hload; reflexivity |].
  intros cx cy chunk. rewrite unloadDistantChunks_lookup.
  destruct (decide _) as [Hfar | Hnear]; [discriminate |].
  intros Hc. unfold centre. cbn [fst snd].
  apply Decidable.not_or in Hnear as [Hx Hy].
  split; [lia |]. split; [lia |].
  destruct (Chunk.chunks cache !! (cx, cy)) as [chunk0 |] eqn:H0.
  - left. apply Hkeep in H0. congruence.
  - destruct (Hnew (cx, cy)) as [[? H1] | Hp]; [now exists chunk | | now right].
    rewrite H0 in H1. discriminate H1.
Qed.

(** The empty cache and a visible range of two chunks by one. *)
Lemma renderWorld_cache_bound_witness :
  let range := {| Renderer.minChunkX := 0; Renderer.maxChunkX := 1;
                  Renderer.minChunkY := 0; Renderer.maxChunkY := 0 |} in
  exists cache',
    Renderer.renderWorld Chunk.newChunkCache range 12345 flat = Some cache'
    /\ forall cx cy chunk,
         Chunk.chunks cache' !! (cx, cy) = Some chunk ->
         Z.abs (cx - 0) <= 5 /\ Z.abs (cy - 0) <= 5
         /\ (Chunk.chunks Chunk.newChunkCache !! (cx, cy) = Some chunk
             \/ padded range cx cy).
Proof.
  intros range.
  exact (renderWorld_cache_bound Chunk.newChunkCache range 12345 flat
           newChunkCache_readable).
Defined.

(** On a cache of readable chunks, when the visible range spans at most
    five chunks in each direction, every chunk of the padded range that
    [renderWorld] visits is in the cache afterwards. *)
Theorem renderWorld_keeps_padded (cache : Chunk.ChunkCache)
    (range : Renderer.chunkRange) (worldSeed : Z) (noiseFunctions : Noise.functions) :
  readable_cache cache ->
  Renderer.maxChunkX range - Renderer.minChunkX range <= 4 ->
  Renderer.maxChunkY range - Renderer.minChunkY range <= 4 ->
  exists cache',
    Renderer.renderWorld cache range worldSeed noiseFunctions = Some cache'
    /\ forall cx cy, padded range cx cy -> is_Some (Chunk.chunks cache' !! (cx, cy)).
Proof.
  intros Hcache Hw Hh.
  destruct (loadChunks_spec worldSeed noiseFunctions cache range Hcache)
    as (cache1 & Hload & _ & _ & Hall).
  eexists. split; [unfold Renderer.renderWorld; rewrite Hload; reflexivity |].
  intros cx cy Hp. rewrite unloadDistantChunks_lookup.
  destruct (decide _) as [Hfar | Hnear]; [| now apply Hall].
  exfalso. unfold padded, CONFIG.RENDER_DISTANCE in *. clear Hall Hload.
  destruct Hp as [[? ?] [? ?]]. destruct Hfar; Z.div_mod_to_equations; lia.
Qed.

(** A visible range of one chunk, on the empty cache. *)
Lemma renderWorld_keeps_padded_witness :
  let range := {| Renderer.minChunkX := 0; Renderer.maxChunkX := 0;
                  Renderer.minChunkY := 0; Renderer.maxChunkY := 0 |} in
  exists cache',
    Renderer.renderWorld Chunk.newChunkCache range 12345 flat = Some cache'
    /\ forall cx cy, padded range cx cy -> is_Some (Chunk.chunks cache' !! (cx, cy)).
Proof.
  intros range.
  apply (renderWorld_keeps_padded Chunk.newChunkCache range 12345 flat).
  - exact newChunkCache_readable.
  - simpl. lia.
  - simpl. lia.
Defined.

(** On a cache of readable chunks, when the visible range spans six chunks
    or more from left to right, [renderWorld] ends without the last column
    of the chunks that it has just visited: they are unloaded in the same
    call. *)
Theorem renderWorld_evicts_visited (cache : Chunk.ChunkCache)
    (range : Renderer.chunkRange) (worldSeed : Z) (noiseFunctions : Noise.functions) :
  readable_cache cache ->
  5 <= Renderer.maxChunkX range - Renderer.minChunkX range ->
  exists cache',
    Renderer.renderWorld cache range worldSeed noiseFunctions = Some cache'
    /\ forall cy,
         Chunk.chunks cache'
           !! (Renderer.maxChunkX range + CONFIG.RENDER_DISTANCE, cy) = None.
Proof.
  intros Hcache Hw.
  destruct (loadChunks_spec worldSeed noiseFunctions cache range Hcache)
    as (cache1 & Hload & _).
  eexists. split; [unfold Renderer.renderWorld; rewrite Hload; reflexivity |].
  intros cy. rewrite unloadDistantChunks_lookup.
  destruct (decide _) as [Hfar | Hnear]; [reflexivity |].
  exfalso. apply Hnear. left. unfold CONFIG.RENDER_DISTANCE.
  clear Hnear Hload. Z.div_mod_to_equations. lia.
Qed.

(** A visible range of six chunks by one, on the empty cache. *)
Lemma renderWorld_evicts_visited_witness :
  let range := {| Renderer.minChunkX := 0; Renderer.maxChunkX := 5;
                  Renderer.minChunkY := 0; Renderer.maxChunkY := 0 |} in
  exists cache',
    Renderer.renderWorld Chunk.newChunkCache range 12345 flat = Some cache'
    /\ forall cy, Chunk.chunks cache' !! (8, cy) = None.
Proof.
  intros range.
  apply (renderWorld_evicts_visited Chunk.newChunkCache range 12345 flat).
  - exact newChunkCache_readable.
  - simpl. lia.
Defined.

(* ------------------------------------------------------------------ *)
(** ** Masks, bit by bit                                                *)
(* ------------------------------------------------------------------ *)

Section MaskBits.

Variable h : nat.
Variable chunkTiles : Tile.grid.
Hypothesis Hrect : rectangular h chunkTiles.
Variable centerBiome : string.
Variables localX localY : Z.

(** The loop of [calculateTileMask] as a fold. *)
Lemma mask_fold (l : list (Z * Z * Z)) (mask : Z) (nb : list (string * string)) :
  JS.for_each (Autotile.mask_step centerBiome chunkTiles localX localY) l (mask, nb)
  = Some
      (fold_left
         (fun m n =>
            if compatible chunkTiles centerBiome localX localY n
            then Z.lor m (Z.shiftl 1 n.2) else m)
         l mask,
       (nb ++ flat_map
                (fun n : Z * Z * Z =>
                   match Tile.get chunkTiles (localX + n.1.1) (localY + n.1.2) with
                   | Some t => [ (Autotile.directionName n.2, Tile.biome t) ]
                   | None => []
                   end)
                l)%list).
Proof.
  revert mask nb. induction l as [| [[dx dy] bit] l IH]; intros mask nb.
  - cbn [JS.for_each fold_left flat_map]. now rewrite app_nil_r.
  - cbn [JS.for_each fold_left flat_map]. unfold compatible at 2. cbn [fst snd].
    destruct (Tile.get chunkTiles (localX + dx) (localY + dy)) as [t |] eqn:Hget.
    + rewrite (mask_step_present h chunkTiles Hrect _ _ _ _ _ _ _ _ _ Hget).
      rewrite IH. now rewrite <- app_assoc.
    + rewrite (mask_step_absent h chunkTiles Hrect _ _ _ _ _ _ _ _ Hget).
      rewrite IH. reflexivity.
Qed.

Lemma mask_fold_bits (l : list (Z * Z * Z)) (mask b : Z) :
  0 <= b -> Forall (fun n : Z * Z * Z => 0 <= n.2) l ->
  Z.testbit
    (fold_left
       (fun m n =>
          if compatible chunkTiles centerBiome localX localY n
          then Z.lor m (Z.shiftl 1 n.2) else m)
       l mask) b
  = Z.testbit mask b
    || existsb (fun n => (n.2 =? b) && compatible chunkTiles centerBiome localX localY n) l.
Proof.
  intros Hb Hl. revert mask. induction Hl as [| n l Hn _ IH]; intros mask.
  - cbn [fold_left existsb]. now rewrite orb_false_r.
  - cbn [fold_left existsb]. rewrite IH.
    destruct (compatible chunkTiles centerBiome localX localY n).
    + rewrite Z.lor_spec, Z.shiftl_1_l, Z.pow2_bits_eqb by exact Hn.
      rewrite andb_true_r, orb_assoc. reflexivity.
    + now rewrite andb_false_r.
Qed.

Lemma mask_fold_nonneg (l : list (Z * Z * Z)) (mask : Z) :
  0 <= mask ->
  0 <= fold_left
         (fun m n =>
            if compatible chunkTiles centerBiome localX localY n
            then Z.lor m (Z.shiftl 1 n.2) else m)
         l mask.
Proof.
  revert mask. induction l as [| n l IH]; intros mask Hm; [exact Hm |].
  cbn [fold_left]. apply IH.
  destruct (compatible chunkTiles centerBiome localX localY n); [| exact Hm].
  apply Z.lor_nonneg. split; [exact Hm |]. apply Z.shiftl_nonneg. lia.
Qed.

End MaskBits.

(** A number without bits from 8 on is below 256. *)
Lemma bits_below_256 (m : Z) :
  0 <= m -> (forall b, 8 <= b -> Z.testbit m b = false) -> m < 256.
Proof.
  intros Hm Hbits. destruct (Z.lt_ge_cases m 256) as [| Hge]; [assumption |].
  assert (Hlog : 8 <= Z.log2 m) by (apply Z.log2_le_pow2; [lia | exact Hge]).
  pose proof (Z.bit_log2 m ltac:(lia)) as Hbit. rewrite (Hbits _ Hlog) in Hbit.
  discriminate Hbit.
Qed.

(** The mask has eight bits. *)
Lemma calculateTileMask_range (h : nat) (chunkTiles : Tile.grid)
    (centerTile : Tile.t) (localX localY : Z) :
  rectangular h chunkTiles ->
  exists mask,
    Autotile.calculateTileMask centerTile chunkTiles localX localY
    = Some (mask, neighborBiomesOf chunkTiles localX localY)
    /\ 0 <= mask < 256.
Proof.
  intros Hrect. unfold Autotile.calculateTileMask.
  rewrite (mask_fold h chunkTiles Hrect). eexists. split; [reflexivity |].
  assert (Hbits : Forall (fun n : Z * Z * Z => 0 <= n.2) Autotile.neighbors)
    by (repeat constructor; simpl; lia).
  split; [now apply mask_fold_nonneg |].
  apply bits_below_256; [now apply mask_fold_nonneg |].
  intros b Hb. rewrite mask_fold_bits by (lia || exact Hbits).
  rewrite Z.bits_0. cbn [orb existsb Autotile.neighbors snd].
  repeat match goal with
         | |- context [?k =? b] =>
             replace (k =? b) with false by (symmetry; apply Z.eqb_neq; lia)
         end.
  reflexivity.
Qed.

(** On a grid whose columns have the same length, [calculateTileMask]
    returns a mask between 0 and 255 whose bit [bit] is set exactly when
    the neighbor [{ dx, dy, bit }] lies in the grid and the center tile can
    transition to its biome, and it records the biomes of the neighbors
    that lie in the grid. *)
Theorem calculateTileMask_bits (h : nat) (chunkTiles : Tile.grid)
    (centerTile : Tile.t) (localX localY : Z) :
  rectangular h chunkTiles ->
  exists mask,
    Autotile.calculateTileMask centerTile chunkTiles localX localY
    = Some (mask, neighborBiomesOf chunkTiles localX localY)
    /\ 0 <= mask < 256
    /\ forall n,
         In n Autotile.neighbors ->
         Z.testbit mask n.2
         = compatible chunkTiles (Tile.biome centerTile) localX localY n.
Proof.
  intros Hrect.
  destruct (calculateTileMask_range h chunkTiles centerTile localX localY Hrect)
    as (mask & Hmask & Hrange).
  exists mask. split; [exact Hmask |]. split; [exact Hrange |].
  unfold Autotile.calculateTileMask in Hmask.
  rewrite (mask_fold h chunkTiles Hrect) in Hmask.
  assert (Hfold : mask
                  = fold_left
                      (fun m n =>
                         if compatible chunkTiles (Tile.biome centerTile) localX localY n
                         then Z.lor m (Z.shiftl 1 n.2) else m)
                      Autotile.neighbors 0) by congruence.
  assert (Hbits : Forall (fun n : Z * Z * Z => 0 <= n.2) Autotile.neighbors)
    by (repeat constructor; simpl; lia).
  intros n Hn. rewrite Hfold, mask_fold_bits; [| | exact Hbits].
  - rewrite Z.bits_0. cbn [orb].
    cbn [In Autotile.neighbors] in Hn.
    repeat (destruct Hn as [<- | Hn];
            [cbn [existsb Autotile.neighbors snd Z.eqb Pos.eqb andb orb];
             now rewrite ?orb_false_r |]).
    destruct Hn.
  - exact (proj1 (List.Forall_forall _ _) Hbits n Hn).
Qed.

(** The center of [patch]: the neighbors to the north, the south-east, the
    west and the north-west match, which sets the bits 0, 3, 6 and 7. *)
Lemma calculateTileMask_bits_witness :
  let centre := Tile.set_biome "grass" (Tile.new 1 1) in
  rectangular 3 patch
  /\ exists mask,
       Autotile.calculateTileMask centre patch 1 1
       = Some (mask, neighborBiomesOf patch 1 1)
       /\ 0 <= mask < 256
       /\ (forall n, In n Autotile.neighbors ->
                     Z.testbit mask n.2 = compatible patch "grass" 1 1 n)
       /\ mask = 0xc9
       /\ neighborBiomesOf patch 1 1
          = [ ("N", "sand"); ("NE", "dungeon"); ("E", "mountain"); ("SE", "grass");
              ("S", "village"); ("SW", "water"); ("W", "forest"); ("NW", "grass") ].
Proof.
  intros centre.
  assert (Hrect : rectangular 3 patch) by (repeat constructor).
  split; [exact Hrect |].
  destruct (calculateTileMask_bits 3 patch centre 1 1 Hrect)
    as (mask & Hmask & Hrange & Hbits).
  exists mask. split; [exact Hmask |]. split; [exact Hrange |].
  split; [exact Hbits |].
  assert (Hrun : Autotile.calculateTileMask centre patch 1 1
                 = Some (0xc9,
                         [ ("N", "sand"); ("NE", "dungeon"); ("E", "mountain");
                           ("SE", "grass"); ("S", "village"); ("SW", "water");
                           ("W", "forest"); ("NW", "grass") ]))
    by (vm_compute; reflexivity).
  rewrite Hrun in Hmask. split; [congruence | vm_compute; reflexivity].
Defined.

(* ------------------------------------------------------------------ *)
(** ** Autotiling, tile by tile                                         *)
(* ------------------------------------------------------------------ *)

Section AutotilePointwise.

Variable h : nat.

(** A loop over [start .. start + len - 1] with an invariant that follows
    the index. *)
Lemma for_each_seq_invariant {St} (Inv : nat -> St -> Prop)
    (body : St -> nat -> option St) (len start : nat) (s : St) :
  Inv start s ->
  (forall k s, (start <= k < start + len)%nat -> Inv k s ->
               exists s', body s k = Some s' /\ Inv (S k) s') ->
  exists s', JS.for_each body (seq start len) s = Some s' /\ Inv (start + len)%nat s'.
Proof.
  revert start s. induction len as [| len IH]; intros start s Hs Hbody.
  - exists s. rewrite Nat.add_0_r. now split.
  - destruct (Hbody start s ltac:(lia) Hs) as (s1 & Hs1 & Hinv1).
    destruct (IH (S start) s1 Hinv1) as (s' & Hs' & Hinv').
    { intros k s2 Hk. apply Hbody. lia. }
    exists s'. cbn [seq JS.for_each]. rewrite Hs1.
    split; [exact Hs' |]. now replace (start + S len)%nat with (S start + len)%nat by lia.
Qed.

(** The mask reads the biomes only. *)
Lemma calculateTileMask_biomes (g g' : Tile.grid) (t t' : Tile.t) (x y : Z) :
  rectangular h g -> rectangular h g' ->
  (forall i j, Tile.biome <$> Tile.get g i j = Tile.biome <$> Tile.get g' i j) ->
  Tile.biome t = Tile.biome t' ->
  Autotile.calculateTileMask t g x y = Autotile.calculateTileMask t' g' x y.
Proof.
  intros Hg Hg' Hbiomes Hb. unfold Autotile.calculateTileMask.
  rewrite (mask_fold h g Hg), (mask_fold h g' Hg'), Hb.
  f_equal. f_equal.
  - apply fold_left_ext. intros m n. unfold compatible.
    specialize (Hbiomes (x + n.1.1) (y + n.1.2)).
    destruct (Tile.get g _ _), (Tile.get g' _ _); simpl in Hbiomes;
      try discriminate; [| reflexivity].
    injection Hbiomes as ->. reflexivity.
  - f_equal. apply flat_map_ext. intros n.
    specialize (Hbiomes (x + n.1.1) (y + n.1.2)).
    destruct (Tile.get g _ _), (Tile.get g' _ _); simpl in Hbiomes;
      try discriminate; [| reflexivity].
    injection Hbiomes as ->. reflexivity.
Qed.

Lemma autotiled_biome (g0 : Tile.grid) (i j : Z) (t : Tile.t) :
  Tile.biome (autotiled g0 i j t) = Tile.biome t
  /\ Tile.structure (autotiled g0 i j t) = Tile.structure t.
Proof.
  unfold autotiled. destruct (Tile.structure t) eqn:Hs; [now rewrite <- Hs |].
  destruct (Autotile.calculateTileMask t g0 i j) as [[mask nb] |]; auto.
Qed.

Variable g0 : Tile.grid.
Hypothesis Hrect0 : rectangular h g0.

(** The grid when the loops reach [(x, y)]. *)
Let reached (x y : nat) (g : Tile.grid) : Prop :=
  rectangular h g
  /\ length g = length g0
  /\ forall i j,
       Tile.get g i j
       = (fun t => if passed x y i j then autotiled g0 i j t else t) <$> Tile.get g0 i j.

Lemma reached_biomes (x y : nat) (g : Tile.grid) :
  reached x y g ->
  forall i j, Tile.biome <$> Tile.get g i j = Tile.biome <$> Tile.get g0 i j.
Proof.
  intros (_ & _ & Hget) i j. rewrite Hget.
  destruct (Tile.get g0 i j) as [t |]; [| reflexivity]. simpl.
  destruct (passed x y i j); [| reflexivity].
  now rewrite (proj1 (autotiled_biome g0 i j t)).
Qed.

Lemma passed_next (x y : nat) (i j : Z) :
  passed x (S y) i j
  = passed x y i j || ((i =? Z.of_nat x) && (j =? Z.of_nat y)).
Proof.
  unfold passed.
  destruct (Z.ltb_spec i (Z.of_nat x)), (Z.eqb_spec i (Z.of_nat x)),
    (Z.ltb_spec j (Z.of_nat (S y))), (Z.ltb_spec j (Z.of_nat y)),
    (Z.eqb_spec j (Z.of_nat y)); simpl; try reflexivity; lia.
Qed.

Lemma reached_step (x y : nat) (g : Tile.grid) :
  (x < length g0)%nat -> (y < h)%nat -> reached x y g ->
  exists g', Autotile.autotile_tile g x y = Some g' /\ reached x (S y) g'.
Proof.
  intros Hx Hy Hreached. pose proof Hreached as (Hrect & Hlen & Hget).
  destruct (get_in_range h g0 (Z.of_nat x) (Z.of_nat y) Hrect0) as [t0 Ht0];
    [lia | lia |].
  assert (Hgxy : Tile.get g (Z.of_nat x) (Z.of_nat y) = Some t0).
  { rewrite Hget, Ht0. simpl. unfold passed.
    rewrite Z.ltb_irrefl, Z.ltb_irrefl, andb_false_r. reflexivity. }
  assert (Hnew : forall v,
             v = autotiled g0 (Z.of_nat x) (Z.of_nat y) t0 ->
             reached x (S y) (Tile.set g x y v)).
  { intros v Hv. split; [now apply set_rectangular |].
    split; [unfold Tile.set; now rewrite length_alter |].
    intros i j. rewrite get_set, Hget, passed_next.
    destruct (Tile.get g0 i j) as [t |] eqn:Ht; [| reflexivity]. simpl. f_equal.
    destruct (Z.eqb_spec i (Z.of_nat x)) as [-> |];
      [| now rewrite andb_false_l, orb_false_r].
    destruct (Z.eqb_spec j (Z.of_nat y)) as [-> |];
      [| now rewrite andb_false_r, orb_false_r].
    rewrite orb_true_r. simpl. congruence. }
  unfold Autotile.autotile_tile. rewrite Hgxy.
  destruct (Tile.structure t0) eqn:Hs.
  - eexists. split; [reflexivity |]. apply Hnew. unfold autotiled. now rewrite Hs.
  - rewrite (calculateTileMask_biomes g g0 t0 t0 _ _ Hrect Hrect0
               (reached_biomes x y g Hreached) eq_refl).
    destruct (calculateTileMask_total h g0 t0 (Z.of_nat x) (Z.of_nat y) Hrect0)
      as [[mask nb] Hmask].
    rewrite Hmask. eexists. split; [reflexivity |]. apply Hnew.
    unfold autotiled. now rewrite Hs, Hmask.
Qed.

Lemma reached_column (x : nat) (g : Tile.grid) :
  (x < length g0)%nat -> reached x 0 g ->
  exists g',
    JS.for_each (fun g y => Autotile.autotile_tile g x y) (seq 0 h) g = Some g'
    /\ reached (S x) 0 g'.
Proof.
  intros Hx Hreached.
  destruct (for_each_seq_invariant (reached x)
              (fun g y => Autotile.autotile_tile g x y) h 0 g Hreached)
    as (g' & Hg' & Hrect & Hlen & Hget).
  { intros y g1 Hy. apply reached_step; [exact Hx | lia]. }
  exists g'. split; [exact Hg' |]. split; [exact Hrect |]. split; [exact Hlen |].
  intros i j. rewrite Hget.
  destruct (Tile.get g0 i j) as [t |] eqn:Ht; [| reflexivity]. simpl.
  destruct (get_bounds h g0 i j t Hrect0 Ht) as [_ Hj].
  replace (passed (S x) 0 i j) with (passed x (0 + h) i j); [reflexivity |].
  unfold passed.
  destruct (Z.ltb_spec i (Z.of_nat x)), (Z.eqb_spec i (Z.of_nat x)),
    (Z.ltb_spec i (Z.of_nat (S x))), (Z.eqb_spec i (Z.of_nat (S x))),
    (Z.ltb_spec j (Z.of_nat (0 + h))), (Z.ltb_spec j (Z.of_nat 0));
    simpl; try reflexivity; lia.
Qed.

(** [applyChunkAutotiling] gives every tile what it would get with its
    neighbors read from the grid before the call. *)
Lemma applyChunkAutotiling_pointwise :
  exists g,
    Autotile.applyChunkAutotiling g0 = Some g
    /\ rectangular h g
    /\ length g = length g0
    /\ forall i j, Tile.get g i j = autotiled g0 i j <$> Tile.get g0 i j.
Proof.
  unfold Autotile.applyChunkAutotiling.
  destruct (decide (g0 = [])) as [Hnil | Hne].
  { exists []. rewrite Hnil. split; [reflexivity |]. split; [constructor |].
    split; [reflexivity |].
    intros i j. unfold Tile.get, JS.index. destruct (i <? 0); reflexivity. }
  rewrite (rectangular_height0 h g0 Hrect0 Hne), Nat2Z.id.
  destruct (for_each_seq_invariant (fun x => reached x 0)
              (fun g x => JS.for_each (fun g y => Autotile.autotile_tile g x y) (seq 0 h) g)
              (length g0) 0 g0) as (g & Hg & Hrect & Hlen & Hget).
  - split; [exact Hrect0 |]. split; [reflexivity |]. intros i j.
    destruct (Tile.get g0 i j) as [t |] eqn:Ht; [| reflexivity]. simpl.
    destruct (get_bounds h g0 i j t Hrect0 Ht) as [Hi Hj]. unfold passed.
    destruct (Z.ltb_spec i (Z.of_nat 0)), (Z.eqb_spec i (Z.of_nat 0)),
      (Z.ltb_spec j (Z.of_nat 0)); simpl; try reflexivity; lia.
  - intros x g1' Hx. apply reached_column. lia.
  - exists g. split; [exact Hg |]. split; [exact Hrect |]. split; [exact Hlen |].
    intros i j. rewrite Hget.
    destruct (Tile.get g0 i j) as [t |] eqn:Ht; [| reflexivity]. simpl.
    destruct (get_bounds h g0 i j t Hrect0 Ht) as [Hi Hj]. unfold passed.
    replace (i <? Z.of_nat (length g0)) with true
      by (symmetry; apply Z.ltb_lt; lia).
    reflexivity.
Qed.

End AutotilePointwise.

Section AutotileAgain.

Variable h : nat.

Lemma getVariantFromMask_total (mask : Z) :
  exists v, Autotile.getVariantFromMask mask = Some v.
Proof.
  unfold Autotile.getVariantFromMask.
  destruct (Autotile.lookup Autotile.TILE_VARIANTS mask) as [v |]; [now exists v |].
  destruct (mask =? 255); [| destruct (mask =? 0)]; eexists; reflexivity.
Qed.

(** Two grids with the same tiles at the same positions are equal. *)
Lemma grid_ext (g g' : Tile.grid) :
  rectangular h g -> rectangular h g' -> length g = length g' ->
  (forall i j, Tile.get g i j = Tile.get g' i j) -> g = g'.
Proof.
  intros Hg Hg' Hlen Hget. apply list_eq. intros i.
  destruct (g !! i) as [col |] eqn:Hc, (g' !! i) as [col' |] eqn:Hc'.
  - f_equal. apply list_eq. intros j.
    specialize (Hget (Z.of_nat i) (Z.of_nat j)).
    unfold Tile.get, JS.index in Hget.
    replace (Z.of_nat i <? 0) with false in Hget by (symmetry; apply Z.ltb_ge; lia).
    replace (Z.of_nat j <? 0) with false in Hget by (symmetry; apply Z.ltb_ge; lia).
    rewrite !Nat2Z.id, Hc, Hc' in Hget. exact Hget.
  - apply lookup_lt_Some in Hc. apply lookup_ge_None in Hc'. lia.
  - apply lookup_ge_None in Hc. apply lookup_lt_Some in Hc'. lia.
  - reflexivity.
Qed.

Lemma set_same (g : Tile.grid) (x y : Z) (t : Tile.t) :
  rectangular h g -> Tile.get g x y = Some t ->
  Tile.set g (Z.to_nat x) (Z.to_nat y) t = g.
Proof.
  intros Hg Hget. apply grid_ext.
  - now apply set_rectangular.
  - exact Hg.
  - unfold Tile.set. now rewrite length_alter.
  - intros i j. rewrite get_set.
    destruct (Tile.get g i j) as [t' |] eqn:Ht'; [| reflexivity]. simpl. f_equal.
    destruct (get_bounds h g x y t Hg Hget) as [Hx Hy].
    destruct (Z.eqb_spec i (Z.of_nat (Z.to_nat x))) as [Hi |]; [| reflexivity].
    destruct (Z.eqb_spec j (Z.of_nat (Z.to_nat y))) as [Hj |]; [| reflexivity].
    simpl. rewrite Z2Nat.id in Hi, Hj by lia. subst i j. congruence.
Qed.

Lemma for_each_fixed {St A} (body : St -> A -> option St) (l : list A) (s : St) :
  (forall a, In a l -> body s a = Some s) -> JS.for_each body l s = Some s.
Proof.
  induction l as [| a l IH]; intros Hbody; [reflexivity |].
  cbn [JS.for_each]. rewrite (Hbody a) by now left.
  apply IH. intros a' Ha'. apply Hbody. now right.
Qed.

Variables g0 g : Tile.grid.
Hypothesis Hrect0 : rectangular h g0.
Hypothesis Hrect : rectangular h g.
Hypothesis Hget : forall i j, Tile.get g i j = autotiled g0 i j <$> Tile.get g0 i j.

(** Autotiling an autotiled tile again gives the same tile. *)
Lemma autotiled_again (i j : Z) (t : Tile.t) :
  Tile.get g i j = Some t -> autotiled g i j t = t.
Proof.
  intros Ht. rewrite Hget in Ht.
  destruct (Tile.get g0 i j) as [t0 |] eqn:Ht0; [| discriminate Ht].
  injection Ht as <-.
  assert (Hbiomes : forall i j,
             Tile.biome <$> Tile.get g i j = Tile.biome <$> Tile.get g0 i j).
  { intros i' j'. rewrite Hget.
    destruct (Tile.get g0 i' j') as [t' |]; [| reflexivity]. simpl.
    now rewrite (proj1 (autotiled_biome g0 i' j' t')). }
  destruct (autotiled_biome g0 i j t0) as [Hb Hs].
  unfold autotiled at 1. rewrite Hs.
  destruct (Tile.structure t0) eqn:Hs0.
  - unfold autotiled. rewrite Hs0. reflexivity.
  - rewrite (calculateTileMask_biomes h g g0 _ t0 i j Hrect Hrect0 Hbiomes Hb).
    unfold autotiled. rewrite Hs0.
    destruct (Autotile.calculateTileMask t0 g0 i j) as [[mask nb] |] eqn:Hmask.
    + reflexivity.
    + reflexivity.
Qed.

Lemma edge_tile_same (x y : Z) (t : Tile.t) :
  Tile.get g x y = Some t -> Autotile.edge_tile g x y = Some g.
Proof.
  intros Ht. pose proof (autotiled_again x y t Ht) as Hagain.
  unfold Autotile.edge_tile. rewrite Ht. unfold autotiled in Hagain.
  destruct (Tile.structure t); [reflexivity |].
  destruct (calculateTileMask_total h g t x y Hrect) as [[mask nb] Hmask].
  rewrite Hmask in *. rewrite Hagain. now rewrite set_same.
Qed.

End AutotileAgain.

(** On a grid whose columns have the same length, [applyChunkAutotiling]
    returns a grid with the same positions where every tile is what
    autotiling writes on the tile of the grid before the call with the
    neighbors read from that grid: a structure tile has the variant [null],
    and another tile has a mask between 0 and 255 and the variant that
    [getVariantFromMask] gives for it, which is never [undefined]. *)
Theorem applyChunkAutotiling_tiles (h : nat) (g0 : Tile.grid) :
  rectangular h g0 ->
  exists g,
    Autotile.applyChunkAutotiling g0 = Some g
    /\ (forall i j, Tile.get g i j = autotiled g0 i j <$> Tile.get g0 i j)
    /\ forall i j t,
         Tile.get g i j = Some t ->
         match Tile.structure t with
         | Some _ => Tile.tileVariant t = Tile.Null
         | None =>
             exists mask v,
               Tile.tileMask t = Some mask
               /\ 0 <= mask < 256
               /\ Autotile.getVariantFromMask mask = Some v
               /\ Tile.tileVariant t = Tile.Value v
         end.
Proof.
  intros Hrect0.
  destruct (applyChunkAutotiling_pointwise h g0 Hrect0) as (g & Hg & _ & _ & Hget).
  exists g. split; [exact Hg |]. split; [exact Hget |].
  intros i j t Ht. rewrite Hget in Ht.
  destruct (Tile.get g0 i j) as [t0 |]; [| discriminate Ht].
  injection Ht as <-. unfold autotiled.
  destruct (Tile.structure t0) eqn:Hs0.
  - cbn [Tile.structure Tile.set_tileVariant Tile.tileVariant]. now rewrite Hs0.
  - destruct (calculateTileMask_range h g0 t0 i j Hrect0) as (mask & -> & Hrange).
    cbn [Tile.structure Tile.set_tileVariant Tile.set_tileMask Tile.set_neighborBiomes
         Tile.tileVariant Tile.tileMask].
    rewrite Hs0. destruct (getVariantFromMask_total mask) as [v Hv].
    exists mask, v. rewrite Hv. auto.
Qed.

(** The grid [patch]: its center is autotiled after the four tiles before
    it and gets the mask of [patch] as it was, and its structure tile gets
    the variant [null]. *)
Lemma applyChunkAutotiling_tiles_witness :
  rectangular 3 patch
  /\ exists g,
       Autotile.applyChunkAutotiling patch = Some g
       /\ (forall i j, Tile.get g i j = autotiled patch i j <$> Tile.get patch i j)
       /\ (forall i j t,
             Tile.get g i j = Some t ->
             match Tile.structure t with
             | Some _ => Tile.tileVariant t = Tile.Null
             | None =>
                 exists mask v,
                   Tile.tileMask t = Some mask
                   /\ 0 <= mask < 256
                   /\ Autotile.getVariantFromMask mask = Some v
                   /\ Tile.tileVariant t = Tile.Value v
             end)
       /\ Tile.tileMask <$> Tile.get g 1 1 = Some (Some 0xc9)
       /\ Tile.tileVariant <$> Tile.get g 1 2 = Some Tile.Null.
Proof.
  assert (Hrect : rectangular 3 patch) by (repeat constructor).
  split; [exact Hrect |].
  destruct (applyChunkAutotiling_tiles 3 patch Hrect) as (g & Hg & Hpoint & Hkinds).
  exists g. split; [exact Hg |]. split; [exact Hpoint |]. split; [exact Hkinds |].
  rewrite !Hpoint. split; vm_compute; reflexivity.
Defined.

(** Autotiling is idempotent: on a grid whose columns have the same length,
    [applyChunkAutotiling] applied to its own result returns that result. *)
Theorem applyChunkAutotiling_idempotent (h : nat) (g0 g : Tile.grid) :
  rectangular h g0 ->
  Autotile.applyChunkAutotiling g0 = Some g ->
  Autotile.applyChunkAutotiling g = Some g.
Proof.
  intros Hrect0 Hg.
  destruct (applyChunkAutotiling_pointwise h g0 Hrect0)
    as (g1 & Hg1 & Hrect & Hlen & Hget).
  assert (g1 = g) by congruence. subst g1.
  destruct (applyChunkAutotiling_pointwise h g Hrect)
    as (g2 & Hg2 & Hrect2 & Hlen2 & Hget2).
  rewrite Hg2. f_equal. apply (grid_ext h); auto.
  intros i j. rewrite Hget2.
  destruct (Tile.get g i j) as [t |] eqn:Ht; [| reflexivity]. simpl.
  now rewrite (autotiled_again h g0 g Hrect0 Hrect Hget i j t Ht).
Qed.

(** The grid [patch], with its mixed neighbors and its structure tile. *)
Lemma applyChunkAutotiling_idempotent_witness :
  rectangular 3 patch
  /\ exists g,
       Autotile.applyChunkAutotiling patch = Some g
       /\ Autotile.applyChunkAutotiling g = Some g
       /\ g <> patch.
Proof.
  assert (Hrect : rectangular 3 patch) by (repeat constructor).
  split; [exact Hrect |].
  destruct (Autotile.applyChunkAutotiling patch) as [g |] eqn:Hg;
    [| vm_compute in Hg; discriminate Hg].
  exists g. split; [reflexivity |].
  split; [exact (applyChunkAutotiling_idempotent 3 patch g Hrect Hg) |].
  intros ->. vm_compute in Hg. discriminate Hg.
Defined.

(** On an autotiled grid with at least one row, [applyEdgeAutotiling]
    changes nothing, whatever the direction and the neighbor chunk: it
    computes the masks of the edge tiles from the chunk itself. *)
Theorem applyEdgeAutotiling_autotiled (h : nat) (g0 g : Tile.grid)
    (neighborChunk : option Tile.grid) (direction : string) :
  rectangular h g0 -> (0 < h)%nat ->
  Autotile.applyChunkAutotiling g0 = Some g ->
  Autotile.applyEdgeAutotiling g neighborChunk direction = Some g.
Proof.
  intros Hrect0 Hh Hg.
  destruct (applyChunkAutotiling_pointwise h g0 Hrect0)
    as (g1 & Hg1 & Hrect & Hlen & Hget).
  assert (g1 = g) by congruence. subst g1.
  assert (Hedge : forall x y,
             0 <= x < Z.of_nat (length g) -> 0 <= y < Z.of_nat h ->
             Autotile.edge_tile g x y = Some g).
  { intros x y Hx Hy. destruct (get_in_range h g x y Hrect Hx Hy) as [t Ht].
    exact (edge_tile_same h g0 g Hrect0 Hrect Hget x y t Ht). }
  assert (Hheight : g <> [] -> Autotile.height0 g = Some (Z.of_nat h))
    by (apply rectangular_height0; exact Hrect).
  assert (Hseq : forall n x, In x (map Z.of_nat (seq 0 n)) -> 0 <= x < Z.of_nat n).
  { intros n x (k & <- & Hk%in_seq)%in_map_iff. lia. }
  unfold Autotile.applyEdgeAutotiling. cbv zeta.
  destruct ((direction =? "north")%string && _);
    [| destruct ((direction =? "south")%string && _);
       [| destruct ((direction =? "east")%string && _);
          [| destruct ((direction =? "west")%string && _); [| reflexivity]]]];
    apply for_each_fixed; intros a Ha%Hseq; rewrite ?Nat2Z.id in Ha.
  - apply Hedge; lia.
  - assert (g <> []) by (intros ->; simpl in Ha; lia).
    rewrite Hheight by assumption. apply Hedge; lia.
  - destruct (decide (g = [])) as [-> | Hne]; [simpl in Ha; lia |].
    rewrite Hheight in Ha by assumption. rewrite Nat2Z.id in Ha.
    assert (0 < length g)%nat by (destruct g; [congruence | simpl; lia]).
    apply Hedge; lia.
  - destruct (decide (g = [])) as [-> | Hne]; [simpl in Ha; lia |].
    rewrite Hheight in Ha by assumption. rewrite Nat2Z.id in Ha.
    apply Hedge; [| lia]. destruct g; [congruence | simpl; lia].
Qed.

(** The grid [patch] autotiled, with the map [field] of default tiles as
    its neighbor to the north and to the east, and with no neighbor. *)
Lemma applyEdgeAutotiling_autotiled_witness :
  rectangular 3 patch
  /\ exists g,
       Autotile.applyChunkAutotiling patch = Some g
       /\ Autotile.applyEdgeAutotiling g (Some field) "north" = Some g
       /\ Autotile.applyEdgeAutotiling g (Some field) "east" = Some g
       /\ Autotile.applyEdgeAutotiling g None "north" = Some g.
Proof.
  assert (Hrect : rectangular 3 patch) by (repeat constructor).
  split; [exact Hrect |].
  destruct (Autotile.applyChunkAutotiling patch) as [g |] eqn:Hg;
    [| vm_compute in Hg; discriminate Hg].
  exists g. split; [reflexivity |].
  split; [| split].
  - exact (applyEdgeAutotiling_autotiled 3 patch g (Some field) "north" Hrect
             ltac:(lia) Hg).
  - exact (applyEdgeAutotiling_autotiled 3 patch g (Some field) "east" Hrect
             ltac:(lia) Hg).
  - exact (applyEdgeAutotiling_autotiled 3 patch g None "north" Hrect ltac:(lia) Hg).
Defined.

(* ------------------------------------------------------------------ *)
(** ** The path of a line                                               *)
(* ------------------------------------------------------------------ *)

Lemma last_cons {A} (l : list A) (a d : A) : List.last (a :: l) d = List.last l a.
Proof.
  revert a d. induction l as [| b l IH]; intros a d; [reflexivity |].
  change (List.last (a :: b :: l) d) with (List.last (b :: l) d).
  now rewrite (IH b d), (IH b a).
Qed.

Section LinePath.

Variables x1 y1 dx dy sx sy : Z.
Hypothesis Hdx : 0 <= dx.
Hypothesis Hdy : 0 <= dy.
Hypothesis Hsx : sx = 1 \/ sx = -1.
Hypothesis Hsy : sy = 1 \/ sy = -1.

(** The points between the state [(x0, y0)] and the end of the line. *)
Let between (rx ry : Z) (p : Z * Z) : Prop :=
  0 <= sx * (x1 - p.1) <= rx /\ 0 <= sy * (y1 - p.2) <= ry.

Lemma line_points_path (fuel : nat) (x0 y0 err rx ry : Z) :
  on_line x1 y1 dx dy sx sy x0 y0 err rx ry ->
  (Z.to_nat (rx + ry) < fuel)%nat ->
  exists pts,
    line_points fuel x0 y0 x1 y1 dx dy sx sy err = Some ((x0, y0) :: pts)
    /\ List.last pts (x0, y0) = (x1, y1)
    /\ chain (x0, y0) pts
    /\ Forall (between rx ry) pts
    /\ Z.max rx ry <= Z.of_nat (length pts) <= rx + ry.
Proof.
  revert x0 y0 err rx ry.
  induction fuel as [| fuel IH]; intros x0 y0 err rx ry Hon Hfuel; [lia |].
  destruct Hon as (Hrx & Hry & Hx & Hy & Herr).
  assert (Hnext : forall x0' y0' err' rx' ry',
             on_line x1 y1 dx dy sx sy x0' y0' err' rx' ry' ->
             rx - 1 <= rx' <= rx -> ry - 1 <= ry' <= ry -> rx' + ry' < rx + ry ->
             Z.abs (x0' - x0) <= 1 -> Z.abs (y0' - y0) <= 1 ->
             exists pts,
               cons (x0, y0) <$> line_points fuel x0' y0' x1 y1 dx dy sx sy err'
               = Some ((x0, y0) :: pts)
               /\ List.last pts (x0, y0) = (x1, y1)
               /\ chain (x0, y0) pts
               /\ Forall (between rx ry) pts
               /\ Z.max rx ry <= Z.of_nat (length pts) <= rx + ry).
  { intros x0' y0' err' rx' ry' Hon' Hrx' Hry' Hless Hax Hay.
    pose proof Hon' as (Hrx'' & Hry'' & Hx' & Hy' & _).
    destruct (IH x0' y0' err' rx' ry' Hon') as (pts & Hpts & Hlast & Hchain & Hbox & Hlen);
      [lia |].
    exists ((x0', y0') :: pts). rewrite Hpts. split; [reflexivity |].
    split; [now rewrite last_cons |]. split; [| split].
    - split; [| exact Hchain]. unfold step_to. cbn [fst snd].
      split; [exact Hax |]. split; [exact Hay |].
      intros [= -> ->]. nia.
    - constructor.
      + unfold between. cbn [fst snd]. rewrite Hx', Hy'. nia.
      + eapply List.Forall_impl; [| exact Hbox]. unfold between. intros p. cbv beta. lia.
    - cbn [length]. lia. }
  cbn [line_points].
  destruct (Z.eqb_spec x0 x1) as [Ex | Ex], (Z.eqb_spec y0 y1) as [Ey | Ey];
    cbn [andb].
  - exists []. subst x0 y0. split; [reflexivity |]. split; [reflexivity |].
    split; [exact I |]. split; [constructor |]. cbn [length]. nia.
  - assert (rx = 0) by nia. assert (0 < ry) by nia. subst rx.
    destruct (Z.ltb_spec (- dy) (err * 2)); [nia |].
    destruct (Z.ltb_spec (err * 2) dx); [| nia].
    apply (Hnext x0 (y0 + sy) (err + dx) 0 (ry - 1));
      [unfold on_line; repeat split; nia | lia | lia | lia | lia | nia].
  - assert (ry = 0) by nia. assert (0 < rx) by nia. subst ry.
    destruct (Z.ltb_spec (- dy) (err * 2)); [| nia].
    destruct (Z.ltb_spec (err * 2) dx); [nia |].
    apply (Hnext (x0 + sx) y0 (err - dy) (rx - 1) 0);
      [unfold on_line; repeat split; nia | lia | lia | lia | nia | lia].
  - assert (0 < rx) by nia. assert (0 < ry) by nia.
    destruct (Z.ltb_spec (- dy) (err * 2)), (Z.ltb_spec (err * 2) dx).
    + apply (Hnext (x0 + sx) (y0 + sy) (err - dy + dx) (rx - 1) (ry - 1));
        [unfold on_line; repeat split; nia | lia | lia | lia | nia | nia].
    + apply (Hnext (x0 + sx) y0 (err - dy) (rx - 1) ry);
        [unfold on_line; repeat split; nia | lia | lia | lia | nia | lia].
    + apply (Hnext x0 (y0 + sy) (err + dx) rx (ry - 1));
        [unfold on_line; repeat split; nia | lia | lia | lia | lia | nia].
    + lia.
Qed.

End LinePath.

(** The points of the line from [(x0, y0)] to [(x1, y1)], with enough
    fuel. *)
Lemma line_path (fuel : nat) (x0 y0 x1 y1 : Z) :
  (Z.to_nat (Z.abs (x1 - x0) + Z.abs (y1 - y0)) < fuel)%nat ->
  exists pts,
    line_points fuel x0 y0 x1 y1 (Z.abs (x1 - x0)) (Z.abs (y1 - y0))
      (if x0 <? x1 then 1 else -1) (if y0 <? y1 then 1 else -1)
      (Z.abs (x1 - x0) - Z.abs (y1 - y0)) = Some ((x0, y0) :: pts)
    /\ List.last pts (x0, y0) = (x1, y1)
    /\ chain (x0, y0) pts
    /\ Forall (fun p => Z.min x0 x1 <= p.1 <= Z.max x0 x1
                        /\ Z.min y0 y1 <= p.2 <= Z.max y0 y1) pts
    /\ Z.max (Z.abs (x1 - x0)) (Z.abs (y1 - y0)) <= Z.of_nat (length pts)
       <= Z.abs (x1 - x0) + Z.abs (y1 - y0).
Proof.
  intros Hfuel.
  destruct (line_points_path x1 y1 (Z.abs (x1 - x0)) (Z.abs (y1 - y0))
              (if x0 <? x1 then 1 else -1) (if y0 <? y1 then 1 else -1))
    with (fuel := fuel) (x0 := x0) (y0 := y0)
         (err := Z.abs (x1 - x0) - Z.abs (y1 - y0))
         (rx := Z.abs (x1 - x0)) (ry := Z.abs (y1 - y0))
    as (pts & Hpts & Hlast & Hchain & Hbox & Hlen); try lia.
  - destruct (x0 <? x1); auto.
  - destruct (y0 <? y1); auto.
  - unfold on_line. destruct (Z.ltb_spec x0 x1), (Z.ltb_spec y0 y1); repeat split; lia.
  - exists pts. split; [exact Hpts |]. split; [exact Hlast |]. split; [exact Hchain |].
    split; [| exact Hlen].
    eapply List.Forall_impl; [| exact Hbox]. intros p. cbv beta.
    destruct (Z.ltb_spec x0 x1), (Z.ltb_spec y0 y1); lia.
Qed.

(** With enough fuel, [drawLineOnGrid] runs its callback on [(x0, y0)]
    first and on [(x1, y1)] last, and in between on a chain of points each
    of which is one of the eight tiles around the point before; the points
    stay in the rectangle spanned by the two ends, and their number lies
    between the larger and the sum of [|x1 - x0|] and [|y1 - y0|], plus
    one. *)
Theorem drawLineOnGrid_path (fuel : nat) (x0 y0 x1 y1 : Z) :
  (Z.to_nat (Z.abs (x1 - x0) + Z.abs (y1 - y0)) < fuel)%nat ->
  exists pts,
    (forall (St : Type) (callback : Z -> Z -> St -> St) (s : St),
       Road.drawLineOnGrid callback fuel x0 y0 x1 y1 s
       = Some (fold_left (fun s p => callback p.1 p.2 s) ((x0, y0) :: pts) s))
    /\ List.last pts (x0, y0) = (x1, y1)
    /\ chain (x0, y0) pts
    /\ Forall (fun p => Z.min x0 x1 <= p.1 <= Z.max x0 x1
                        /\ Z.min y0 y1 <= p.2 <= Z.max y0 y1) pts
    /\ Z.max (Z.abs (x1 - x0)) (Z.abs (y1 - y0)) <= Z.of_nat (length pts)
       <= Z.abs (x1 - x0) + Z.abs (y1 - y0).
Proof.
  intros Hfuel. destruct (line_path fuel x0 y0 x1 y1 Hfuel) as (pts & Hpts & Hrest).
  exists pts. split; [| exact Hrest].
  intros St callback s. unfold Road.drawLineOnGrid.
  now rewrite line_loop_points, Hpts.
Qed.

(** The line from (0, 0) to (3, 1), with five iterations. *)
Lemma drawLineOnGrid_path_witness :
  exists pts,
    (forall (St : Type) (callback : Z -> Z -> St -> St) (s : St),
       Road.drawLineOnGrid callback 5 0 0 3 1 s
       = Some (fold_left (fun s p => callback p.1 p.2 s) ((0, 0) :: pts) s))
    /\ List.last pts (0, 0) = (3, 1)
    /\ chain (0, 0) pts
    /\ Forall (fun p => 0 <= p.1 <= 3 /\ 0 <= p.2 <= 1) pts
    /\ 3 <= Z.of_nat (length pts) <= 4.
Proof.
  apply (drawLineOnGrid_path 5 0 0 3 1). simpl. lia.
Defined.

(* ------------------------------------------------------------------ *)
(** ** What rasterization writes                                        *)
(* ------------------------------------------------------------------ *)

Section Tags.

Variable roadType : string.

(** The map [m'] has the tiles of [m], some of them with the road tag in
    place of [null]. *)
Let tagged_from (m m' : Tile.grid) : Prop :=
  forall i j,
    match Tile.get m i j with
    | Some t => exists t', Tile.get m' i j = Some t' /\ retagged roadType t t'
    | None => Tile.get m' i j = None
    end.

Lemma mark_tagged (m : Tile.grid) (c : Z * Z) : tagged_from m (markc roadType m c).
Proof.
  intros i j. unfold markc. rewrite get_mark.
  destruct (Tile.get m i j) as [t |]; [| reflexivity]. simpl.
  eexists. split; [reflexivity |]. unfold retagged.
  destruct (Tile.roadType t); [left; now rewrite andb_false_r |].
  destruct ((i =? c.2) && (j =? c.1) && true); [now right | now left].
Qed.

Lemma marks_tagged (cells : list (Z * Z)) (m : Tile.grid) :
  tagged_from m (fold_left (markc roadType) cells m).
Proof.
  revert m. induction cells as [| c cells IH]; intros m i j.
  - destruct (Tile.get m i j) as [t |] eqn:Ht; [| exact Ht].
    exists t. split; [exact Ht | now left].
  - cbn [fold_left]. pose proof (mark_tagged m c i j) as H1.
    pose proof (IH (markc roadType m c) i j) as H2.
    destruct (Tile.get m i j) as [t |].
    + destruct H1 as (t1 & Ht1 & R1). rewrite Ht1 in H2.
      destruct H2 as (t2 & Ht2 & R2). exists t2. split; [exact Ht2 |].
      destruct R1 as [-> | [Hnone ->]]; [exact R2 |].
      destruct R2 as [-> | [Habs _]]; [now right | discriminate Habs].
    + now rewrite H1 in H2.
Qed.

Lemma last_In {A} (l : list A) (d : A) : In (List.last l d) (d :: l).
Proof.
  revert d. induction l as [| a l IH]; intros d; [now left |].
  rewrite last_cons. right. apply IH.
Qed.

Lemma paint_cells_self (roadWidth : Z) (p : Z * Z) :
  0 <= roadWidth -> In p (paint_cells roadWidth p).
Proof.
  intros Hw. unfold paint_cells. apply in_flat_map. exists 0.
  split; [apply In_range; lia |]. apply in_map_iff. exists 0.
  split; [| apply In_range; lia]. destruct p as [x y]. cbn [fst snd].
  now rewrite !Z.add_0_r.
Qed.

Lemma edges_cells_In (roadWidth : Z) (fuel : nat) (graph : Road.RoadGraph)
    (l : list Road.RoadEdge) (cells : list (Z * Z)) (e : Road.RoadEdge) :
  edges_cells roadWidth fuel graph l = Some cells -> In e l ->
  exists c, edge_cells roadWidth fuel graph e = Some c /\ incl c cells.
Proof.
  revert cells. induction l as [| e' l IH]; intros cells Hcells Hin; [destruct Hin |].
  cbn [edges_cells] in Hcells.
  destruct (edge_cells roadWidth fuel graph e') as [c |] eqn:Hc; [| discriminate].
  destruct (edges_cells roadWidth fuel graph l) as [cs |]; [| discriminate].
  injection Hcells as <-. destruct Hin as [<- | Hin].
  - exists c. split; [exact Hc |]. now apply incl_appl.
  - destruct (IH cs eq_refl Hin) as (c' & Hc' & Hincl).
    exists c'. split; [exact Hc' |]. now apply incl_appr.
Qed.

(** The tiles that an edge visits include its two ends. *)
Lemma edge_cells_ends (roadWidth : Z) (fuel : nat) (graph : Road.RoadGraph)
    (e : Road.RoadEdge) (a b : Road.RoadNode) (c : list (Z * Z)) :
  0 <= roadWidth ->
  JS.index (Road.nodes graph) (Road.from e) = Some a ->
  JS.index (Road.nodes graph) (Road.to e) = Some b ->
  (line_fuel a b <= fuel)%nat ->
  edge_cells roadWidth fuel graph e = Some c ->
  In (Road.x a, Road.y a) c /\ In (Road.x b, Road.y b) c.
Proof.
  intros Hw Ha Hb Hfuel Hc. unfold edge_cells in Hc. rewrite Ha, Hb in Hc.
  destruct (line_path fuel (Road.x a) (Road.y a) (Road.x b) (Road.y b))
    as (pts & Hpts & Hlast & _); [unfold line_fuel in Hfuel; lia |].
  cbv zeta in Hc. rewrite Hpts in Hc.
  change (Some (flat_map (paint_cells roadWidth) ((Road.x a, Road.y a) :: pts)) = Some c)
    in Hc.
  assert (c = flat_map (paint_cells roadWidth) ((Road.x a, Road.y a) :: pts)) as ->
    by congruence.
  split; apply in_flat_map.
  - exists (Road.x a, Road.y a). split; [now left | now apply paint_cells_self].
  - exists (Road.x b, Road.y b). split; [| now apply paint_cells_self].
    rewrite <- Hlast. apply last_In.
Qed.

End Tags.

(** When the edges of the graph refer to its nodes and the fuel suffices,
    [rasterizeroads] returns a map with the same positions where every
    tile is the tile of the map before, as it was, or with the road type of
    the options ("road" without one) in place of a [null] road tag: no
    other field changes. *)
Theorem rasterizeroads_frame (fuel : nat) (tileMap : Tile.grid)
    (graph : Road.RoadGraph) (opts : Road.options) :
  wf_graph graph ->
  enough_fuel fuel graph ->
  exists tileMap1,
    Road.rasterizeroads fuel tileMap graph opts = Some tileMap1
    /\ forall i j,
         match Tile.get tileMap i j with
         | Some t =>
             exists t', Tile.get tileMap1 i j = Some t'
                        /\ retagged (roadTypeOf opts) t t'
         | None => Tile.get tileMap1 i j = None
         end.
Proof.
  intros Hwf Hfuel. unfold Road.rasterizeroads.
  set (w := match Road.roadWidth opts with Some w => _ | None => _ end).
  destruct (edges_cells_total w fuel graph _ Hwf Hfuel) as [cells Hcells].
  exists (fold_left (markc (roadTypeOf opts)) cells tileMap).
  split.
  - fold (roadTypeOf opts). now rewrite rasterize_edges_cells, Hcells.
  - apply marks_tagged.
Qed.

(** The map [field] and the graph [lane], with the default options. *)
Lemma rasterizeroads_frame_witness :
  let opts := {| Road.roadWidth := None; Road.roadType := None |} in
  exists tileMap1,
    Road.rasterizeroads 5 field lane opts = Some tileMap1
    /\ forall i j,
         match Tile.get field i j with
         | Some t =>
             exists t', Tile.get tileMap1 i j = Some t' /\ retagged "road" t t'
         | None => Tile.get tileMap1 i j = None
         end.
Proof.
  intros opts.
  apply (rasterizeroads_frame 5 field lane opts).
  - constructor; [vm_compute; intuition discriminate | constructor].
  - constructor; [| constructor].
    intros a b [= <-] [= <-]. vm_compute. lia.
Defined.

(** With a road width that is not negative, [rasterizeroads] leaves a road
    tag on the tiles of the map under the two ends of every edge. *)
Theorem rasterizeroads_ends (fuel : nat) (tileMap : Tile.grid)
    (graph : Road.RoadGraph) (opts : Road.options) :
  wf_graph graph ->
  enough_fuel fuel graph ->
  match Road.roadWidth opts with Some w => 0 <= w | None => True end ->
  exists tileMap1,
    Road.rasterizeroads fuel tileMap graph opts = Some tileMap1
    /\ forall e a b,
         In e (Road.edges graph) ->
         JS.index (Road.nodes graph) (Road.from e) = Some a ->
         JS.index (Road.nodes graph) (Road.to e) = Some b ->
         painted tileMap1 (Road.x a, Road.y a)
         /\ painted tileMap1 (Road.x b, Road.y b).
Proof.
  intros Hwf Hfuel Hwidth. unfold Road.rasterizeroads.
  set (w := match Road.roadWidth opts with Some w => _ | None => _ end).
  assert (Hw : 0 <= w).
  { unfold w. destruct (Road.roadWidth opts) as [w0 |]; [| lia].
    destruct (Z.eqb_spec w0 0); lia. }
  destruct (edges_cells_total w fuel graph _ Hwf Hfuel) as [cells Hcells].
  exists (fold_left (markc (roadTypeOf opts)) cells tileMap).
  split.
  - fold (roadTypeOf opts). now rewrite rasterize_edges_cells, Hcells.
  - intros e a b He Ha Hb.
    destruct (edges_cells_In w fuel graph _ cells e Hcells He) as (c & Hc & Hincl).
    pose proof (proj1 (List.Forall_forall _ _) Hfuel e He a b Ha Hb) as Hline.
    destruct (edge_cells_ends w fuel graph e a b c Hw Ha Hb Hline Hc) as [Hina Hinb].
    pose proof (marks_painted (roadTypeOf opts) cells tileMap) as Hp.
    split.
    + exact (proj1 (List.Forall_forall _ _) Hp _ (Hincl _ Hina)).
    + exact (proj1 (List.Forall_forall _ _) Hp _ (Hincl _ Hinb)).
Qed.

(** The map [field] and the graph [lane], with the default options. *)
Lemma rasterizeroads_ends_witness :
  let opts := {| Road.roadWidth := None; Road.roadType := None |} in
  exists tileMap1,
    Road.rasterizeroads 5 field lane opts = Some tileMap1
    /\ forall e a b,
         In e (Road.edges lane) ->
         JS.index (Road.nodes lane) (Road.from e) = Some a ->
         JS.index (Road.nodes lane) (Road.to e) = Some b ->
         painted tileMap1 (Road.x a, Road.y a)
         /\ painted tileMap1 (Road.x b, Road.y b).
Proof.
  intros opts.
  apply (rasterizeroads_ends 5 field lane opts).
  - constructor; [vm_compute; intuition discriminate | constructor].
  - constructor; [| constructor].
    intros a b [= <-] [= <-]. vm_compute. lia.
  - exact I.
Defined.

(* ------------------------------------------------------------------ *)
(** ** The shape of a road graph                                        *)
(* ------------------------------------------------------------------ *)

(** Whatever the stream draws, the graph starts with the node of the
    center and has one node more than edges, and its [k]-th edge ends at
    the node [k]: every other node is the end of one edge, and the center
    of none. *)
Theorem generateVillageRoadGraph_edges (Math_cos Math_sin : float -> float)
    (centerX centerY : float) (seed : Z) :
  let graph := Road.generateVillageRoadGraph Math_cos Math_sin centerX centerY seed in
  Road.nodes graph !! 0%nat = Some (Road.newRoadNode centerX centerY)
  /\ length (Road.nodes graph) = S (length (Road.edges graph))
  /\ map Road.to (Road.edges graph)
     = map Z.of_nat (seq 1 (length (Road.edges graph))).
Proof.
  unfold Road.generateVillageRoadGraph, Road.newRoadGraph, Road.generateGraph.
  destruct (Seed.next (Seed.createSeededRandom seed)) as [r g].
  set (k := Z.to_nat _). clearbody k.
  set (step := Road.generate_step _ _ _ _).
  set (start := ([Road.newRoadNode centerX centerY], [], g)).
  assert (H : (Nat.iter k step start).1.1 !! 0%nat
              = Some (Road.newRoadNode centerX centerY)
              /\ length (Nat.iter k step start).1.1
                 = S (length (Nat.iter k step start).1.2)
              /\ map Road.to (Nat.iter k step start).1.2
                 = map Z.of_nat (seq 1 (length (Nat.iter k step start).1.2))).
  { induction k as [| k IH]; [repeat split |].
    change (Nat.iter (S k) step start) with (step (Nat.iter k step start)).
    destruct (Nat.iter k step start) as [[ns es] g'].
    cbn [fst snd] in IH. destruct IH as (Hhd & Hlen & Hto).
    unfold step, Road.generate_step.
    destruct (Seed.seededRandomAngle g') as [angle g1].
    destruct (Seed.next g1) as [r1 g2]. destruct (Seed.next g2) as [r2 g3].
    cbn [fst snd]. split; [| split].
    - rewrite lookup_app_l; [exact Hhd |]. rewrite Hlen. lia.
    - rewrite !length_app. cbn [length]. lia.
    - rewrite map_app, !length_app, Hto. cbn [length map Road.to].
      replace (length es + 1)%nat with (S (length es)) by lia.
      rewrite seq_S, map_app. cbn [map]. do 2 f_equal. lia. }
  destruct (Nat.iter k step start) as [[ns es] g']. exact H.
Qed.

(* ------------------------------------------------------------------ *)
(** ** Variants of a mask                                               *)
(* ------------------------------------------------------------------ *)

Lemma lookup_In {A} (table : list (Z * A)) (key : Z) (v : A) :
  Autotile.lookup table key = Some v -> In (key, v) table.
Proof.
  induction table as [| [k a] table IH]; [discriminate |].
  cbn [Autotile.lookup]. destruct (Z.eqb_spec k key) as [-> |].
  - intros [= ->]. now left.
  - intros H. right. now apply IH.
Qed.

(** Whatever the mask, [getVariantFromMask] returns an entry of
    [TILE_VARIANTS], the entry of the mask if it has one and the entry
    "full" of the mask 0 otherwise; [getMaskDescription] returns its id,
    never "unknown"; and [getVariantRotation] returns 0. *)
Theorem getVariantFromMask_entry (mask : Z) :
  exists key v,
    In (key, v) Autotile.TILE_VARIANTS
    /\ (key = mask \/ (key = 0 /\ Autotile.lookup Autotile.TILE_VARIANTS mask = None))
    /\ Autotile.getVariantFromMask mask = Some v
    /\ Autotile.getMaskDescription mask = Variant.id v
    /\ Autotile.getMaskDescription mask <> "unknown"
    /\ Autotile.getVariantRotation mask = 0.
Proof.
  assert (Hall : Forall (fun kv : Z * Variant.t =>
                           Variant.id kv.2 <> "unknown" /\ Variant.rotation kv.2 = 0)
                   Autotile.TILE_VARIANTS)
    by (repeat constructor; discriminate).
  assert (Hv : exists key v,
             In (key, v) Autotile.TILE_VARIANTS
             /\ (key = mask
                 \/ (key = 0 /\ Autotile.lookup Autotile.TILE_VARIANTS mask = None))
             /\ Autotile.getVariantFromMask mask = Some v).
  { unfold Autotile.getVariantFromMask.
    destruct (Autotile.lookup Autotile.TILE_VARIANTS mask) as [v |] eqn:Hm.
    - exists mask, v. split; [now apply lookup_In |]. auto.
    - exists 0, (Autotile.mk "full" 1). split; [now left |]. split; [auto |].
      destruct (Z.eqb_spec mask 255) as [-> | _]; [discriminate Hm |].
      now destruct (mask =? 0). }
  destruct Hv as (key & v & Hin & Hkey & Hget).
  destruct (proj1 (List.Forall_forall _ _) Hall _ Hin) as [Hid Hrot].
  exists key, v. unfold Autotile.getMaskDescription, Autotile.getVariantRotation.
  rewrite Hget. cbn [snd] in Hid, Hrot. rewrite Hrot. auto 10.
Qed.
